(** * StreamFlow broadcast engine ("DJ mode"): a shallow embedding

    The engine of [server.js] keeps its whole state in module-level
    variables and mutates them from a handful of event handlers: the
    poll cycle ([pollStreamConfig]), the feeder subprocess callbacks
    (['close'], ['error']), the master subprocess callback (['close']),
    the retry timer, and the HTTP control endpoint [/control/skip].

    Here every handler is a function from the state before the event to
    the state after it, together with the list of externally visible
    effects it performed (subprocess spawn and kill, checkpoint write,
    timer registration, HTTP response).  Library calls whose result the
    engine only passes around ([path.join], [new URL(..).pathname],
    [fs.existsSync], [JSON.stringify], [Date.now]) are fields of a
    [Host] record, so every statement holds for whatever these return.

    The [playlist] of the polled row is an array or [null].  Reading the
    length or an element of a [null] playlist throws a TypeError; the
    exception is the effect [Throw], which ends the call that raised
    it.  The poll cycle catches it, the HTTP framework turns it into a
    500 response, and in a timer or subprocess callback nobody catches
    it, which ends the process. *)

From Stdlib Require Import ZArith List String Bool Lia.
Import ListNotations.
Local Open Scope string_scope.
Local Open Scope Z_scope.

(** ** JavaScript values used by the engine *)

Module JS.

(** Truthiness of an optional string: [undefined], [null] and the
    empty string are falsy. *)
Definition truthy (v : option string) : bool :=
  match v with
  | Some s => negb (String.eqb s "")
  | None => false
  end.

(** Truthiness of an optional number: [0] is falsy. *)
Definition truthyZ (v : option Z) : bool :=
  match v with
  | Some n => negb (n =? 0)
  | None => false
  end.

(** Strict equality [===] on optional strings. *)
Definition seq (a b : option string) : bool :=
  match a, b with
  | Some x, Some y => String.eqb x y
  | None, None => true
  | _, _ => false
  end.

Definition seqZ (a b : option Z) : bool :=
  match a, b with
  | Some x, Some y => (x =? y)
  | None, None => true
  | _, _ => false
  end.

Definition seqB (a b : option bool) : bool :=
  match a, b with
  | Some x, Some y => Bool.eqb x y
  | None, None => true
  | _, _ => false
  end.

(** [s.startsWith(p)] *)
Fixpoint startsWith (s p : string) {struct p} : bool :=
  match p with
  | EmptyString => true
  | String c p' =>
      match s with
      | EmptyString => false
      | String d s' => (Ascii.eqb c d) && startsWith s' p'
      end
  end.

Fixpoint drop (n : nat) (s : string) : string :=
  match n, s with
  | O, _ => s
  | S n', String _ s' => drop n' s'
  | S _, EmptyString => EmptyString
  end.

(** [s.replace(pat, rep)] with a string pattern: only the first
    occurrence is replaced. *)
Fixpoint replace (s pat rep : string) : string :=
  if startsWith s pat then (rep ++ drop (String.length pat) s)%string
  else match s with
       | EmptyString => EmptyString
       | String c s' => String c (replace s' pat rep)
       end.

(** [arr[i]]: [undefined] outside the array, also for a negative index. *)
Definition get {A} (arr : list A) (i : Z) : option A :=
  if (i <? 0) then None else nth_error arr (Z.to_nat i).

(** [arr.length] *)
Definition length {A} (arr : list A) : Z := Z.of_nat (List.length arr).

(** [arr.findIndex(p)]: the first index whose element satisfies [p],
    [-1] when there is none. *)
Fixpoint findIndex {A} (p : A -> bool) (arr : list A) : Z :=
  match arr with
  | [] => -1
  | x :: rest =>
      if p x then 0
      else let r := findIndex p rest in
           if (r =? -1) then -1 else r + 1
  end.

End JS.

(** ** Playlist entries

    An entry of the [playlist] JSON array is either a bare string or an
    object; the engine reads the properties [id], [filename], [url],
    [path] and [title] of an object, all strings in the catalogue.  An
    absent property is [None]; [null] and [undefined] are not told
    apart, which the engine never does either: every [===] on these
    properties has one side guarded by a truthiness test. *)

Record Video := mkVideo {
  v_id : option string;
  v_filename : option string;
  v_url : option string;
  v_path : option string;
  v_title : option string
}.

Inductive Item :=
| ItemString (s : string)
| ItemObject (v : Video).

(** Property access on an entry; a property of a string entry is
    [undefined]. *)
Definition item_id (i : Item) : option string :=
  match i with ItemObject v => v_id v | ItemString _ => None end.
Definition item_filename (i : Item) : option string :=
  match i with ItemObject v => v_filename v | ItemString _ => None end.
Definition item_url (i : Item) : option string :=
  match i with ItemObject v => v_url v | ItemString _ => None end.
Definition item_path (i : Item) : option string :=
  match i with ItemObject v => v_path v | ItemString _ => None end.

(** ** The host: library functions and the file system *)

Record Host := mkHost {
  dirname : string;                          (* __dirname *)
  path_join : list string -> string;         (* path.join(...) *)
  URL_pathname : string -> option string;    (* new URL(u).pathname; None when the constructor throws *)
  existsSync : string -> bool;               (* fs.existsSync *)
  JSON_stringify : list Item -> string;      (* JSON.stringify of a playlist *)
  Date_now : Z;                              (* Date.now() *)
  writeFileSync_ok : bool                    (* whether fs.writeFileSync(STATE_FILE, ..) succeeds *)
}.

Definition VIDEOS_DIR (w : Host) : string :=
  path_join w [dirname w; "public"; "videos"].

(** ** Playlist resolver *)

(** [getVideoPath(item)]; [None] is the [null] result. *)
Definition getVideoPath (w : Host) (item : Item) : option string :=
  match item with
  | ItemString s => Some s
  | ItemObject _ =>
      if JS.truthy (item_filename item) then
        match item_filename item with
        | Some f => Some (path_join w [VIDEOS_DIR w; f])
        | None => None
        end
      else if JS.truthy (item_url item) then
        match item_url item with
        | Some u =>
            let extracted :=
              if JS.startsWith u "http" then URL_pathname w u else Some u in
            match extracted with
            | None => None
            | Some extractedPath =>
                if JS.startsWith extractedPath "/videos/" then
                  Some (path_join w [VIDEOS_DIR w; JS.replace extractedPath "/videos/" ""])
                else if JS.startsWith extractedPath "/" then
                  Some (path_join w [dirname w; "public"; extractedPath])
                else Some extractedPath
            end
        | None => None
        end
      else if JS.truthy (item_path item) then item_path item
      else None
  end.

(** The test [filePath && fs.existsSync(filePath)] used by
    [cleanPlaylist]; [playNextVideo] uses its negation. *)
Definition playable (w : Host) (item : Item) : bool :=
  match getVideoPath w item with
  | Some p => negb (String.eqb p "") && existsSync w p
  | None => false
  end.

(** ** The playlist value

    The [playlist] column of the row is JSON: an array of entries, or
    [null].  Both reach the engine, which copies the value it fetched
    into [currentPlaylist] when the stream is switched on. *)
Inductive Playlist :=
| PNull
| PArray (items : list Item).

(** [Array.isArray(playlist)] *)
Definition isArray (p : Playlist) : bool :=
  match p with
  | PArray _ => true
  | PNull => false
  end.

(** [playlist || []]: the entries of an array, none for [null].  As a
    coercion it lets a playlist be read wherever a list of entries is
    expected; the handlers below test [isArray] before they read the
    length or an element, since on [null] that read throws. *)
Definition orEmpty (p : Playlist) : list Item :=
  match p with
  | PArray items => items
  | PNull => []
  end.

#[warnings="-uniform-inheritance"]
Coercion orEmpty : Playlist >-> list.

(** Conversely a list of entries written where a playlist is expected
    is the array holding them. *)
#[warnings="-uniform-inheritance,-ambiguous-paths"]
Coercion PArray : list >-> Playlist.

Record Cleaned := mkCleaned {
  validPlaylist : list Item;
  hasChanges : bool;
  removedCount : Z
}.

(** The [for (const item of playlist)] loop of [cleanPlaylist], with its
    two accumulators. *)
Fixpoint cleanLoop (w : Host) (playlist : list Item)
         (valid : list Item) (removed : Z) : list Item * Z :=
  match playlist with
  | [] => (valid, removed)
  | item :: rest =>
      if playable w item
      then cleanLoop w rest (valid ++ [item]) removed
      else cleanLoop w rest valid (removed + 1)
  end.

Definition cleanPlaylist (w : Host) (playlist : Playlist) : Cleaned :=
  match playlist with
  | PNull => mkCleaned [] false 0     (* !Array.isArray(playlist) *)
  | PArray items =>
      let '(valid, removed) := cleanLoop w items [] 0 in
      mkCleaned valid (0 <? removed) removed
  end.

(** ** Configuration, engine state, effects *)

(** The row of [stream_config] as the engine reads it; an absent scalar
    column is [None]. *)
Record Config := mkConfig {
  is_active : bool;
  rtmp_url : option string;
  stream_key : option string;
  bitrate : option Z;
  audio_overlay_enabled : option bool;
  audio_volume : option Z;
  audio_file : option string;
  playlist : Playlist
}.

Definition set_playlist (p : Playlist) (c : Config) : Config :=
  mkConfig (is_active c) (rtmp_url c) (stream_key c) (bitrate c)
           (audio_overlay_enabled c) (audio_volume c) (audio_file c) p.

(** What [startMasterStream] bakes into the argument list of the master
    subprocess: the output URL, the video bitrate, and, when the overlay
    is mixed in, the audio input and its raw volume. *)
Record MasterArgs := mkMasterArgs {
  outputUrl : string;
  vBitrate : Z;
  backgroundAudio : option (string * Z)
}.

(** The content of [stream_state.json]. *)
Record SavedState := mkSavedState {
  lastPlayedVideoId : option string;
  timestamp : Z
}.

(** The module-level variables of the broadcast engine.  A subprocess
    handle is [None] when the variable is [null]; the feeder handle
    carries the file it was spawned on, the master handle its arguments.
    [stateFile] is what [loadStreamState] would return. *)
Record State := mkState {
  masterFfmpeg : option MasterArgs;
  currentFeederProcess : option string;
  isStreaming : bool;
  lastConfig : option Config;
  currentPlaylist : Playlist;
  currentIndex : Z;
  skipToTarget : bool;
  masterStdin : bool;
  stateFile : option SavedState
}.

Definition set_masterFfmpeg (x : option MasterArgs) (s : State) : State :=
  mkState x (currentFeederProcess s) (isStreaming s) (lastConfig s)
          (currentPlaylist s) (currentIndex s) (skipToTarget s) (masterStdin s) (stateFile s).
Definition set_currentFeederProcess (x : option string) (s : State) : State :=
  mkState (masterFfmpeg s) x (isStreaming s) (lastConfig s)
          (currentPlaylist s) (currentIndex s) (skipToTarget s) (masterStdin s) (stateFile s).
Definition set_isStreaming (x : bool) (s : State) : State :=
  mkState (masterFfmpeg s) (currentFeederProcess s) x (lastConfig s)
          (currentPlaylist s) (currentIndex s) (skipToTarget s) (masterStdin s) (stateFile s).
Definition set_lastConfig (x : option Config) (s : State) : State :=
  mkState (masterFfmpeg s) (currentFeederProcess s) (isStreaming s) x
          (currentPlaylist s) (currentIndex s) (skipToTarget s) (masterStdin s) (stateFile s).
Definition set_currentPlaylist (x : Playlist) (s : State) : State :=
  mkState (masterFfmpeg s) (currentFeederProcess s) (isStreaming s) (lastConfig s)
          x (currentIndex s) (skipToTarget s) (masterStdin s) (stateFile s).
Definition set_currentIndex (x : Z) (s : State) : State :=
  mkState (masterFfmpeg s) (currentFeederProcess s) (isStreaming s) (lastConfig s)
          (currentPlaylist s) x (skipToTarget s) (masterStdin s) (stateFile s).
Definition set_skipToTarget (x : bool) (s : State) : State :=
  mkState (masterFfmpeg s) (currentFeederProcess s) (isStreaming s) (lastConfig s)
          (currentPlaylist s) (currentIndex s) x (masterStdin s) (stateFile s).
Definition set_masterStdin (x : bool) (s : State) : State :=
  mkState (masterFfmpeg s) (currentFeederProcess s) (isStreaming s) (lastConfig s)
          (currentPlaylist s) (currentIndex s) (skipToTarget s) x (stateFile s).
Definition set_stateFile (x : option SavedState) (s : State) : State :=
  mkState (masterFfmpeg s) (currentFeederProcess s) (isStreaming s) (lastConfig s)
          (currentPlaylist s) (currentIndex s) (skipToTarget s) (masterStdin s) x.

(** The state at process start; [saved] is the checkpoint left on disk
    by an earlier run, if any. *)
Definition initialState (saved : option SavedState) : State :=
  mkState None None false None [] 0 false false saved.

Inductive Body :=
| ErrorBody (error : string)
| SkipBody (newIndex : Z)
| ServerError.                      (* the error page of the framework *)

Inductive Effect :=
| SpawnFeeder (filePath : string)   (* spawn('ffmpeg', feederArgs) *)
| KillFeeder                        (* currentFeederProcess.kill() *)
| SpawnMaster (args : MasterArgs)   (* spawn('ffmpeg', masterArgs) *)
| KillMaster                        (* masterFfmpeg.kill() *)
| SaveStreamState (data : SavedState)
| SetTimeout (ms : Z)               (* setTimeout(playNextVideo, ms) *)
| Respond (status : Z) (body : Body)
| Throw.                            (* a TypeError leaves the call *)

(** Whether a call was ended by an exception.  [Throw] is then its last
    effect, and the state returned with it is the state at the throw. *)
Definition isThrow (e : Effect) : bool :=
  match e with
  | Throw => true
  | _ => false
  end.

Definition threw (effs : list Effect) : bool := existsb isThrow effs.

(** ** Checkpoint *)

(** [saveStreamState(data)]: the write is attempted inside [try]; when
    it fails the file keeps its content. *)
Definition saveStreamState (w : Host) (data : SavedState) (s : State) : State :=
  if writeFileSync_ok w then set_stateFile (Some data) s else s.

Definition loadStreamState (s : State) : option SavedState := stateFile s.

(** ** The DJ loop *)

(** The two lines under "Ensure index is valid (sanity check)". *)
Definition sanityCheck (s : State) : State :=
  let s1 := if currentIndex s <? 0 then set_currentIndex 0 s else s in
  if currentIndex s1 >=? JS.length (currentPlaylist s1) then set_currentIndex 0 s1 else s1.

(** [playNextVideo()].  The function calls itself after skipping an
    entry whose file is missing, so the recursion is bounded by [fuel];
    [None] means that no call returned within the bound.  On a [null]
    playlist the read of [currentPlaylist.length] throws. *)
Fixpoint playNextVideo_rec (w : Host) (fuel : nat) (s : State)
  : option (State * list Effect) :=
  match fuel with
  | O => None
  | S fuel' =>
      if negb (isStreaming s) || negb (masterStdin s) then Some (s, [])
      else if negb (isArray (currentPlaylist s)) then Some (s, [Throw])
      else if JS.length (currentPlaylist s) =? 0 then Some (s, [SetTimeout 2000])
      else
        let s2 := sanityCheck s in
        match JS.get (currentPlaylist s2) (currentIndex s2) with
        | None => None (* getVideoPath(undefined) would throw *)
        | Some video =>
            let skip :=
              playNextVideo_rec w fuel' (set_currentIndex (currentIndex s2 + 1) s2) in
            match getVideoPath w video with
            | None => skip
            | Some filePath =>
                if String.eqb filePath "" || negb (existsSync w filePath) then skip
                else
                  let data := mkSavedState (item_id video) (Date_now w) in
                  let s3 := saveStreamState w data s2 in
                  Some (set_currentFeederProcess (Some filePath) s3,
                        [SaveStreamState data; SpawnFeeder filePath])
            end
        end
  end.

(** One more call than there are entries visits every entry, so this
    bound loses no result (lemma [playNextVideo_rec_bound]). *)
Definition playNextVideo (w : Host) (s : State) : option (State * list Effect) :=
  playNextVideo_rec w (S (List.length (currentPlaylist s))) s.

(** The ['close'] callback of the feeder; [code] is [None] when the
    process was ended by a signal. *)
Definition feederClose (w : Host) (code : option Z) (s : State)
  : option (State * list Effect) :=
  if skipToTarget s then
    playNextVideo w (set_skipToTarget false s)
  else
    match code with
    | Some c =>
        if c =? 0 then playNextVideo w (set_currentIndex (currentIndex s + 1) s)
        else Some (set_currentIndex (currentIndex s + 1) s, [SetTimeout 1000])
    | None => Some (s, [])
    end.

Definition killFeeder (s : State) : list Effect :=
  match currentFeederProcess s with Some _ => [KillFeeder] | None => [] end.

(** The ['error'] callback of the feeder. *)
Definition feederError (s : State) : State * list Effect :=
  (set_currentIndex (currentIndex s + 1) s, (killFeeder s ++ [SetTimeout 1000])%list).

(** ** Manual skip: [POST /control/skip] *)

(** What the handler does once the new index is settled. *)
Definition skipTo (s1 : State) : State * list Effect :=
  let s2 := set_skipToTarget true s1 in
  (s2, (killFeeder s2 ++ [Respond 200 (SkipBody (currentIndex s2))])%list).

(** On a [null] playlist the read of [currentPlaylist.length] throws
    after the index has been moved; the framework catches what a route
    handler throws and answers 500. *)
Definition controlSkip (direction : option string) (s : State) : State * list Effect :=
  if negb (isStreaming s) then (s, [Respond 400 (ErrorBody "Stream not active")])
  else if negb (JS.truthy direction)
          || (negb (JS.seq direction (Some "next"))
              && negb (JS.seq direction (Some "previous")))
  then (s, [Respond 400 (ErrorBody "Invalid direction")])
  else if JS.seq direction (Some "next") then
    let s' := set_currentIndex (currentIndex s + 1) s in
    if negb (isArray (currentPlaylist s')) then (s', [Respond 500 ServerError])
    else skipTo (if currentIndex s' >=? JS.length (currentPlaylist s')
                 then set_currentIndex 0 s' else s')
  else
    let s' := set_currentIndex (currentIndex s - 1) s in
    if currentIndex s' <? 0 then
      if negb (isArray (currentPlaylist s')) then (s', [Respond 500 ServerError])
      else skipTo (set_currentIndex (JS.length (currentPlaylist s') - 1) s')
    else skipTo s'.

(** ** Master process manager *)

Definition orElse {A} (truth : option A -> bool) (v : option A) (d : A) : A :=
  match v with
  | Some x => if truth v then x else d
  | None => d
  end.

(** The part of [startMasterStream] that computes the arguments. *)
Definition masterArgsOf (w : Host) (config : Config) : MasterArgs :=
  let url := orElse JS.truthy (rtmp_url config) "" in
  let key := orElse JS.truthy (stream_key config) "" in
  let vBitrate := orElse JS.truthyZ (bitrate config) 8000 in
  let audioEnabled := negb (JS.seqB (audio_overlay_enabled config) (Some false)) in
  let audioVolumeRaw := orElse JS.truthyZ (audio_volume config) 35 in
  let audioFile := orElse JS.truthy (audio_file config) "rain.mp3" in
  let audioDirFile := path_join w [dirname w; "public"; "audio"; audioFile] in
  let publicDirFile := path_join w [dirname w; "public"; audioFile] in
  let audioInputPath :=
    if existsSync w audioDirFile then Some audioDirFile
    else if existsSync w publicDirFile then Some publicDirFile
    else None in
  mkMasterArgs (url ++ "/" ++ key)%string vBitrate
    (if audioEnabled && JS.truthy audioInputPath
     then match audioInputPath with
          | Some p => Some (p, audioVolumeRaw)
          | None => None
          end
     else None).

(** [startMasterStream(config)] *)
Definition startMasterStream (w : Host) (config : Config) (s : State)
  : option (State * list Effect) :=
  match masterFfmpeg s with
  | Some _ => Some (s, [])
  | None =>
      if negb (JS.truthy (rtmp_url config)) || negb (JS.truthy (stream_key config))
      then Some (s, [])
      else
        let args := masterArgsOf w config in
        let s1 := set_isStreaming true
                    (set_masterStdin true (set_masterFfmpeg (Some args) s)) in
        (* Start feeding video *)
        match playNextVideo w s1 with
        | Some (s2, effs) => Some (s2, SpawnMaster args :: effs)
        | None => None
        end
  end.

(** The ['close'] callback of the master. *)
Definition masterClose (s : State) : State * list Effect :=
  let s1 := set_isStreaming false (set_masterStdin false (set_masterFfmpeg None s)) in
  (set_currentFeederProcess None s1, killFeeder s1).

(** [stopStream()] *)
Definition stopStream (s : State) : State * list Effect :=
  let e1 := killFeeder s in
  let s1 := set_currentFeederProcess None s in
  let '(s2, e2) :=
    match masterFfmpeg s1 with
    | Some _ => (set_masterStdin false (set_masterFfmpeg None s1), [KillMaster])
    | None => (s1, [])
    end in
  (set_isStreaming false s2, (e1 ++ e2)%list).

(** ** Broadcast coordinator: the poll cycle *)

(** The comparison marked CHECK FOR CRITICAL CHANGES (Stream Key, URL,
    Audio). *)
Definition criticalChanged (config last : Config) : bool :=
  negb (JS.seq (stream_key config) (stream_key last))
  || negb (JS.seq (rtmp_url config) (rtmp_url last))
  || negb (JS.seqB (audio_overlay_enabled config) (audio_overlay_enabled last))
  || negb (JS.seqZ (audio_volume config) (audio_volume last))
  || negb (JS.seq (audio_file config) (audio_file last)).

(** The predicate given to [findIndex] by the pointer correction. *)
Definition sameVideo (oldVideo v : Item) : bool :=
  (JS.truthy (item_id v) && JS.seq (item_id v) (item_id oldVideo))
  || (JS.truthy (item_filename v) && JS.seq (item_filename v) (item_filename oldVideo)).

(** Truthiness of an entry, as tested by [if (oldVideo)]. *)
Definition item_truthy (i : option Item) : bool :=
  match i with
  | Some (ItemString s) => negb (String.eqb s "")
  | Some (ItemObject _) => true
  | None => false
  end.

(** Step 1 of the poll cycle when the stream is switched on: adopt the
    cleaned playlist and recover the resume index from the checkpoint.
    Returns the state, the (possibly rewritten) config object, and
    whether the step was ended by a TypeError: [currentPlaylist.findIndex]
    read from a [null] playlist.  The state is then the one at the
    throw. *)
Definition adoptPlaylist (w : Host) (config : Config) (s : State)
  : State * Config * bool :=
  let cleaned := cleanPlaylist w (playlist config) in
  let config1 :=
    if hasChanges cleaned then set_playlist (validPlaylist cleaned) config else config in
  let s1 := set_currentPlaylist (playlist config1) s in
  (* Smart Restart Logic *)
  let s2 := set_currentIndex 0 s1 in
  match loadStreamState s2 with
  | Some savedState =>
      if JS.truthy (lastPlayedVideoId savedState) then
        if negb (isArray (currentPlaylist s2)) then (s2, config1, true)
        else
          let foundIndex :=
            JS.findIndex (fun v => JS.seq (item_id v) (lastPlayedVideoId savedState))
                         (currentPlaylist s2) in
          if negb (foundIndex =? -1) then
            let nextIndex := Z.rem (foundIndex + 1) (JS.length (currentPlaylist s2)) in
            (set_currentIndex nextIndex s2, config1, false)
          else (s2, config1, false)
      else (s2, config1, false)
  | None => (s2, config1, false)
  end.

(** Step 2 of the poll cycle, the hot reload of a changed playlist with
    its pointer correction.  On a [null] playlist the read of
    [currentPlaylist[currentIndex]] throws before anything is changed;
    the handler catches it. *)
Definition hotReload (w : Host) (config : Config) (s : State) : State :=
  if negb (isArray (currentPlaylist s)) then s else
  let oldVideo := JS.get (currentPlaylist s) (currentIndex s) in
  let s1 := set_currentPlaylist (validPlaylist (cleanPlaylist w (playlist config))) s in
  let s2 :=
    if item_truthy oldVideo then
      match oldVideo with
      | Some old =>
          let newIndex := JS.findIndex (sameVideo old) (currentPlaylist s1) in
          if negb (newIndex =? -1) then set_currentIndex newIndex s1
          else if currentIndex s1 >=? JS.length (currentPlaylist s1)
               then set_currentIndex 0 s1 else s1
      | None => s1
      end
    else s1 in
  set_lastConfig (Some config) s2.

Definition runtimeUpdate (w : Host) (config : Config) (s : State) : State * list Effect :=
  if isStreaming s && is_active config then
    match lastConfig s with
    | None => (s, []) (* reading lastConfig.stream_key throws; caught by the handler *)
    | Some last =>
        if criticalChanged config last then stopStream s
        else if negb (String.eqb (JSON_stringify w (playlist last))
                                 (JSON_stringify w (playlist config)))
        then (hotReload w config s, [])
        else (s, [])
    end
  else (s, []).

(** [pollStreamConfig()]; [fetched] is the result of [getStreamConfig()],
    [None] when the fetch failed or returned no row.  The body runs
    inside [try]: an exception ends the cycle where it is thrown and is
    only logged. *)
Definition pollStreamConfig (w : Host) (fetched : option Config) (s : State)
  : option (State * list Effect) :=
  match fetched with
  | None => Some (s, [])
  | Some config =>
      (* 1. Handle ON/OFF Toggle *)
      if is_active config && negb (isStreaming s) then
        let '(s1, config1, thrown) := adoptPlaylist w config s in
        if thrown then Some (s1, [])
        else
          match startMasterStream w config1 s1 with
          | Some (s2, e1) =>
              if threw e1 then Some (s2, filter (fun e => negb (isThrow e)) e1)
              else
                let s3 := set_lastConfig (Some config1) s2 in
                (* 2. Handle Runtime Updates (if streaming) *)
                let '(s4, e2) := runtimeUpdate w config1 s3 in
                Some (s4, (e1 ++ e2)%list)
          | None => None
          end
      else if negb (is_active config) && isStreaming s then
        Some (stopStream s)
      else
        Some (runtimeUpdate w config s)
  end.

(** ** Events *)

Inductive Event :=
| Poll (fetched : option Config)
| ControlSkip (direction : option string)
| FeederClose (code : option Z)
| FeederError
| MasterClose
| Timer.  (* a timer set by setTimeout(playNextVideo, ..) fires *)

Definition handle (w : Host) (e : Event) (s : State) : option (State * list Effect) :=
  match e with
  | Poll fetched => pollStreamConfig w fetched s
  | ControlSkip direction => Some (controlSkip direction s)
  | FeederClose code => feederClose w code s
  | FeederError => Some (feederError s)
  | MasterClose => Some (masterClose s)
  | Timer => playNextVideo w s
  end.

(** Handling a sequence of events in order, collecting the effects.
    An exception that leaves a timer or subprocess callback is caught
    by nobody: the process ends, and the events that follow are not
    handled. *)
Fixpoint run (w : Host) (es : list Event) (s : State) : option (State * list Effect) :=
  match es with
  | [] => Some (s, [])
  | e :: rest =>
      match handle w e s with
      | Some (s1, e1) =>
          if threw e1 then Some (s1, e1)
          else
            match run w rest s1 with
            | Some (s2, e2) => Some (s2, (e1 ++ e2)%list)
            | None => None
            end
      | None => None
      end
  end.

(** [n] feeders in a row finishing normally (exit code 0). *)
Fixpoint naturalAdvances (w : Host) (n : nat) (s : State) : option State :=
  match n with
  | O => Some s
  | S n' =>
      match feederClose w (Some 0) s with
      | Some (s1, _) => naturalAdvances w n' s1
      | None => None
      end
  end.

(** ** Concrete hosts and playlists for the scenarios *)

Module Scenario.

Definition show_opt (o : option string) : string :=
  match o with
  | Some s => ("S" ++ s)%string
  | None => "N"
  end.

Definition show_item (i : Item) : string :=
  match i with
  | ItemString s => ("!" ++ s)%string
  | ItemObject v =>
      ("{" ++ show_opt (v_id v) ++ "," ++ show_opt (v_filename v) ++ ","
           ++ show_opt (v_url v) ++ "," ++ show_opt (v_path v) ++ ","
           ++ show_opt (v_title v) ++ "}")%string
  end.

(** A host rooted at [/srv] on which exactly the paths in [files]
    exist, and whose URL parser knows the origin [http://h]. *)
Definition host (files : list string) : Host :=
  mkHost "/srv" (String.concat "/")
    (fun u => if JS.startsWith u "http://h" then Some (JS.drop 8 u) else None)
    (fun p => existsb (String.eqb p) files)
    (fun l => String.concat ";" (map show_item l))
    1700 true.

(** A catalogue entry with id [i] and file [i.mp4]. *)
Definition vid (i : string) : Item :=
  ItemObject (mkVideo (Some i) (Some (i ++ ".mp4")%string) None None (Some i)).

Definition A : Item := vid "a".
Definition B : Item := vid "b".
Definition C : Item := vid "c".

Definition fileA : string := "/srv/public/videos/a.mp4".
Definition fileB : string := "/srv/public/videos/b.mp4".
Definition fileC : string := "/srv/public/videos/c.mp4".

Definition allFiles : list string := [fileA; fileB; fileC].

Definition config (pl : list Item) : Config :=
  mkConfig true (Some "rtmp://a.rtmp.example/live2") (Some "key") None None None None pl.

Definition master : MasterArgs := masterArgsOf (host allFiles) (config []).

(** Streaming [pl] with the feeder on [file], entry [i] selected. *)
Definition streaming (pl : list Item) (i : Z) (file : string) : State :=
  mkState (Some master) (Some file) true (Some (config pl)) pl i false true None.

End Scenario.

(** ** Vocabulary of the statements *)

(** What [playNextVideo] leaves alone: everything but the index, the
    feeder handle and the checkpoint file. *)
Definition sameSession (s s' : State) : Prop :=
  masterFfmpeg s' = masterFfmpeg s /\
  isStreaming s' = isStreaming s /\
  lastConfig s' = lastConfig s /\
  currentPlaylist s' = currentPlaylist s /\
  skipToTarget s' = skipToTarget s /\
  masterStdin s' = masterStdin s.

(** The state [s'] and effects [effs] of a call that put the entry at
    index [i] on air: the index is in range, the feeder reads the file
    the entry resolves to, and the checkpoint write was attempted with
    the entry's id. *)
Definition onAir (w : Host) (s : State) (i : Z) (s' : State) (effs : list Effect) : Prop :=
  exists v filePath,
    0 <= i < JS.length (currentPlaylist s') /\
    JS.get (currentPlaylist s') i = Some v /\
    getVideoPath w v = Some filePath /\
    playable w v = true /\
    currentIndex s' = i /\
    currentFeederProcess s' = Some filePath /\
    stateFile s' = stateFile (saveStreamState w (mkSavedState (item_id v) (Date_now w)) s) /\
    effs = [SaveStreamState (mkSavedState (item_id v) (Date_now w)); SpawnFeeder filePath].

(** The feeder spawned on [filePath] reads the entry that
    [currentIndex] selects in [s], an index inside the playlist. *)
Definition feedsSelected (w : Host) (s : State) (filePath : string) : Prop :=
  0 <= currentIndex s < JS.length (currentPlaylist s) /\
  exists v, JS.get (currentPlaylist s) (currentIndex s) = Some v /\
            getVideoPath w v = Some filePath.

(** The three variables set together by [startMasterStream] and
    cleared together by [stopStream] and by the master's close
    callback. *)
Definition coherent (s : State) : Prop :=
  (isStreaming s = true /\ masterStdin s = true /\ masterFfmpeg s <> None) \/
  (isStreaming s = false /\ masterStdin s = false /\ masterFfmpeg s = None).

(** ** Status endpoint: [GET /now-playing] *)

(** The object built from a selected entry: of its five properties
    ([id], [title], [thumbnail], [duration], [filename]) the three that
    the entries of this development carry.  [None] is [null]. *)
Record NowEntry := mkNowEntry {
  ne_id : option string;
  ne_title : option string;
  ne_filename : option string
}.

Definition item_title (i : Item) : option string :=
  match i with ItemObject v => v_title v | ItemString _ => None end.

(** [entry ? { id: entry.id, ... } : null] *)
Definition nowEntry (entry : option Item) : option NowEntry :=
  match entry with
  | Some v =>
      if item_truthy entry
      then Some (mkNowEntry (item_id v) (item_title v) (item_filename v))
      else None
  | None => None
  end.

(** The body of the response. *)
Record NowPlaying := mkNowPlaying {
  np_current : option NowEntry;
  np_next : option NowEntry;
  np_index : Z;
  np_total : Z;
  np_isStreaming : bool
}.

(** [None]: the handler throws (the read of [currentPlaylist.length] on
    a [null] playlist) and the framework answers 500. *)
Definition nowPlaying (s : State) : option NowPlaying :=
  if negb (isStreaming s) then Some (mkNowPlaying None None 0 0 false)
  else if negb (isArray (currentPlaylist s)) then None
  else if JS.length (currentPlaylist s) =? 0
  then Some (mkNowPlaying None None 0 0 false)
  else
    let current := JS.get (currentPlaylist s) (currentIndex s) in
    let nextIndex := Z.rem (currentIndex s + 1) (JS.length (currentPlaylist s)) in
    let next := JS.get (currentPlaylist s) nextIndex in
    Some (mkNowPlaying (nowEntry current) (nowEntry next)
                       (currentIndex s) (JS.length (currentPlaylist s)) true).

(** ** Further vocabulary *)

(** The only event that can switch the stream on: a poll that fetched a
    config with [is_active]. *)
Definition activates (e : Event) : bool :=
  match e with
  | Poll (Some config) => is_active config
  | _ => false
  end.

(** A poll whose row, if any, holds an array in [playlist]; the other
    events fetch no row. *)
Definition arrayRow (e : Event) : bool :=
  match e with
  | Poll (Some config) => isArray (playlist config)
  | _ => true
  end.

(** The effects that start a subprocess. *)
Definition spawns (e : Effect) : bool :=
  match e with
  | SpawnFeeder _ | SpawnMaster _ => true
  | _ => false
  end.

(** * Properties *)

(** ** Arrays *)

Section Arrays.

Context {A : Type}.
Implicit Types (l : list A) (p : A -> bool) (i : Z).

Lemma get_Some_range l i x :
  JS.get l i = Some x -> 0 <= i < JS.length l.
Proof.
  unfold JS.get, JS.length. destruct (Z.ltb_spec i 0); [discriminate|].
  intros E. assert (Hn : (Z.to_nat i < List.length l)%nat).
  { apply nth_error_Some. congruence. }
  lia.
Qed.

Lemma get_in_range l i :
  0 <= i < JS.length l -> exists x, JS.get l i = Some x.
Proof.
  unfold JS.get, JS.length. intros H.
  destruct (Z.ltb_spec i 0); [lia|].
  destruct (nth_error l (Z.to_nat i)) eqn:E; [eauto|].
  apply nth_error_None in E. lia.
Qed.

Lemma get_In l i x : JS.get l i = Some x -> In x l.
Proof.
  unfold JS.get. destruct (i <? 0); [discriminate|]. apply nth_error_In.
Qed.

Lemma get_cons_succ l (a : A) i :
  0 <= i -> JS.get (a :: l) (i + 1) = JS.get l i.
Proof.
  intros H. unfold JS.get.
  destruct (Z.ltb_spec (i + 1) 0); [lia|]. destruct (Z.ltb_spec i 0); [lia|].
  replace (Z.to_nat (i + 1)) with (S (Z.to_nat i)) by lia. reflexivity.
Qed.

Lemma length_nonneg l : 0 <= JS.length l.
Proof. unfold JS.length. lia. Qed.

Lemma length_cons l (a : A) : JS.length (a :: l) = JS.length l + 1.
Proof. unfold JS.length. cbn [List.length]. lia. Qed.

Lemma findIndex_range p l : -1 <= JS.findIndex p l < JS.length l.
Proof.
  induction l as [|a l IH]; cbn [JS.findIndex].
  - unfold JS.length; cbn; lia.
  - rewrite length_cons. destruct (p a); [pose proof (length_nonneg l); lia|].
    destruct (Z.eqb_spec (JS.findIndex p l) (-1)); lia.
Qed.

(** [findIndex] returns [-1] exactly when no element satisfies [p]. *)
Lemma findIndex_none p l :
  JS.findIndex p l = -1 <-> (forall x, In x l -> p x = false).
Proof.
  induction l as [|a l IH]; cbn [JS.findIndex].
  - split; [intros _ x []|reflexivity].
  - destruct (p a) eqn:Ea.
    + split; [discriminate|]. intros H. specialize (H a (or_introl eq_refl)). congruence.
    + pose proof (findIndex_range p l) as Hr.
      destruct (Z.eqb_spec (JS.findIndex p l) (-1)) as [E|E].
      * split; [|reflexivity]. intros _ x [<-|Hx]; [assumption|]. now apply IH.
      * split; [lia|]. intros H. exfalso. apply E, IH. intros x Hx. apply H. now right.
Qed.

(** A result other than [-1] is the first position whose element
    satisfies [p]. *)
Lemma findIndex_found p l :
  JS.findIndex p l <> -1 ->
  exists x, JS.get l (JS.findIndex p l) = Some x /\ p x = true /\
            forall j y, 0 <= j < JS.findIndex p l -> JS.get l j = Some y -> p y = false.
Proof.
  induction l as [|a l IH]; cbn [JS.findIndex]; [congruence|].
  destruct (p a) eqn:Ea.
  - intros _. exists a. repeat split; [assumption|]. intros j y Hj. lia.
  - destruct (Z.eqb_spec (JS.findIndex p l) (-1)) as [E|E]; [congruence|].
    intros _. destruct (IH E) as (x & Hx & Hp & Hfirst).
    pose proof (findIndex_range p l) as Hr.
    exists x. rewrite get_cons_succ by lia. repeat split; try assumption.
    intros j y Hj Hy. destruct (Z.eq_dec j 0) as [->|Hj0].
    + cbn in Hy. congruence.
    + apply (Hfirst (j - 1)); [lia|].
      rewrite <- (get_cons_succ l a) by lia. now replace (j - 1 + 1) with j by lia.
Qed.

(** Conversely the first position whose element satisfies [p] is what
    [findIndex] returns. *)
Lemma findIndex_first p l i x :
  JS.get l i = Some x -> p x = true ->
  (forall j y, 0 <= j < i -> JS.get l j = Some y -> p y = false) ->
  JS.findIndex p l = i.
Proof.
  intros Hx Hp Hfirst.
  assert (Hne : JS.findIndex p l <> -1).
  { intros E. rewrite findIndex_none in E. apply get_In in Hx.
    specialize (E _ Hx). congruence. }
  destruct (findIndex_found p l Hne) as (y & Hy & Hpy & Hmin).
  pose proof (get_Some_range _ _ _ Hx) as Ri. pose proof (get_Some_range _ _ _ Hy) as Rf.
  destruct (Z.lt_trichotomy (JS.findIndex p l) i) as [Hlt|[Heq|Hgt]].
  - specialize (Hfirst _ _ (conj (proj1 Rf) Hlt) Hy). congruence.
  - assumption.
  - specialize (Hmin _ _ (conj (proj1 Ri) Hgt) Hx). congruence.
Qed.

End Arrays.

(** ** Playlist values *)

Lemma isArray_eq (p : Playlist) : isArray p = true -> p = PArray (orEmpty p).
Proof. destruct p; [discriminate|reflexivity]. Qed.

Lemma isArray_length (p : Playlist) : JS.length p <> 0 -> isArray p = true.
Proof. destruct p; [intros H; now destruct H|reflexivity]. Qed.

Lemma isArray_get (p : Playlist) (i : Z) (v : Item) : JS.get p i = Some v -> isArray p = true.
Proof.
  intros H. apply isArray_length. pose proof (get_Some_range _ _ _ H). lia.
Qed.

Lemma isArray_range (p : Playlist) (i : Z) : 0 <= i < JS.length p -> isArray p = true.
Proof. intros H. apply isArray_length. lia. Qed.

Lemma orEmpty_inj (p q : Playlist) :
  isArray p = true -> isArray q = true -> orEmpty p = orEmpty q -> p = q.
Proof. destruct p, q; cbn; try discriminate. now intros _ _ ->. Qed.

(** ** Playlist resolver *)

Lemma truthy_Some (o : option string) :
  JS.truthy o = true -> exists s, o = Some s /\ s <> "".
Proof.
  destruct o as [s|]; cbn; [|discriminate].
  destruct (String.eqb_spec s ""); [discriminate|]. eauto.
Qed.

Lemma seq_eq (a b : option string) : JS.seq a b = true <-> a = b.
Proof.
  destruct a as [x|], b as [y|]; cbn; try (split; congruence).
  rewrite String.eqb_eq. split; congruence.
Qed.

Lemma replace_videos_prefix (name : string) :
  JS.replace ("/videos/" ++ name) "/videos/" "" = name.
Proof. reflexivity. Qed.



(** [cleanPlaylist] keeps, in order, the entries whose file exists. *)
Lemma cleanLoop_filter (w : Host) (pl valid : list Item) (removed : Z) :
  fst (cleanLoop w pl valid removed) = (valid ++ filter (playable w) pl)%list.
Proof.
  revert valid removed. induction pl as [|item rest IH]; intros valid removed; cbn.
  - now rewrite app_nil_r.
  - destruct (playable w item); rewrite IH; [|reflexivity].
    now rewrite <- app_assoc.
Qed.

Lemma validPlaylist_filter (w : Host) (pl : Playlist) :
  validPlaylist (cleanPlaylist w pl) = filter (playable w) pl.
Proof.
  destruct pl as [|pl]; [reflexivity|].
  unfold cleanPlaylist, orEmpty. pose proof (cleanLoop_filter w pl [] 0) as H.
  destruct (cleanLoop w pl [] 0) as [valid removed]. exact H.
Qed.

(** Only an array can leave entries after cleaning. *)
Lemma validPlaylist_isArray (w : Host) (pl : Playlist) :
  validPlaylist (cleanPlaylist w pl) <> [] -> isArray pl = true.
Proof. destruct pl; [intros H; now destruct H|reflexivity]. Qed.

Lemma cleanPlaylist_null (w : Host) : cleanPlaylist w PNull = mkCleaned [] false 0.
Proof. reflexivity. Qed.

Lemma validPlaylist_playable (w : Host) (pl : Playlist) (v : Item) :
  In v (validPlaylist (cleanPlaylist w pl)) -> playable w v = true.
Proof. rewrite validPlaylist_filter, filter_In. tauto. Qed.

Lemma cleanLoop_removed_mono (w : Host) (pl valid : list Item) (removed : Z) :
  removed <= snd (cleanLoop w pl valid removed).
Proof.
  revert valid removed. induction pl as [|a l IH]; intros v r; cbn; [lia|].
  destruct (playable w a); [apply IH|]. specialize (IH v (r + 1)). lia.
Qed.

Lemma cleanLoop_removed (w : Host) (pl valid : list Item) (removed : Z) :
  snd (cleanLoop w pl valid removed) = removed ->
  filter (playable w) pl = pl.
Proof.
  revert valid removed. induction pl as [|item rest IH]; intros valid removed; cbn; [reflexivity|].
  destruct (playable w item).
  - intros H. f_equal. eapply IH, H.
  - intros H. pose proof (cleanLoop_removed_mono w rest valid (removed + 1)). lia.
Qed.

(** The playlist adopted when the stream is switched on is the cleaned
    one, whether or not [hasChanges] made the handler rewrite
    [config.playlist]. *)
Lemma adopted_playlist (w : Host) (pl : list Item) :
  (if hasChanges (cleanPlaylist w pl) then validPlaylist (cleanPlaylist w pl) else pl)
  = validPlaylist (cleanPlaylist w pl).
Proof.
  destruct (hasChanges (cleanPlaylist w pl)) eqn:E; [reflexivity|].
  rewrite validPlaylist_filter. unfold cleanPlaylist in E. cbn [orEmpty].
  pose proof (cleanLoop_removed w pl [] 0) as H.
  pose proof (cleanLoop_removed_mono w pl [] 0) as Hm.
  destruct (cleanLoop w pl [] 0) as [valid removed]. cbn in *.
  symmetry. apply H. apply Z.ltb_ge in E. lia.
Qed.

(** ** The DJ loop *)

Section DJ.

Variable w : Host.

Lemma sanityCheck_eq (s : State) :
  sanityCheck s = set_currentIndex (currentIndex (sanityCheck s)) s.
Proof.
  unfold sanityCheck. destruct s as [m f st lc pl i sk si sf]; cbn.
  destruct (i <? 0); cbn; destruct (_ >=? _); reflexivity.
Qed.

Lemma sanityCheck_playlist (s : State) :
  currentPlaylist (sanityCheck s) = currentPlaylist s.
Proof. rewrite sanityCheck_eq. reflexivity. Qed.

(** After the sanity check the index selects an entry of a non-empty
    playlist. *)
Lemma sanityCheck_range (s : State) :
  JS.length (currentPlaylist s) <> 0 ->
  0 <= currentIndex (sanityCheck s) < JS.length (currentPlaylist s).
Proof.
  intros Hne. pose proof (length_nonneg (currentPlaylist s)) as Hl.
  unfold sanityCheck. destruct (Z.ltb_spec (currentIndex s) 0); cbn.
  - destruct (Z.geb_spec 0 (JS.length (currentPlaylist s))); cbn; lia.
  - destruct (Z.geb_spec (currentIndex s) (JS.length (currentPlaylist s))); cbn; lia.
Qed.

Lemma sanityCheck_in_range (s : State) :
  0 <= currentIndex s < JS.length (currentPlaylist s) -> sanityCheck s = s.
Proof.
  intros H. unfold sanityCheck. destruct (Z.ltb_spec (currentIndex s) 0); [lia|].
  destruct (Z.geb_spec (currentIndex s) (JS.length (currentPlaylist s))); [lia|reflexivity].
Qed.

Lemma sanityCheck_index (s : State) :
  0 < JS.length (currentPlaylist s) ->
  currentIndex (sanityCheck s)
  = if (0 <=? currentIndex s) && (currentIndex s <? JS.length (currentPlaylist s))
    then currentIndex s else 0.
Proof.
  intros Hl. unfold sanityCheck. destruct (Z.ltb_spec (currentIndex s) 0); cbn.
  - destruct (Z.geb_spec 0 (JS.length (currentPlaylist s))); [lia|].
    destruct (Z.leb_spec 0 (currentIndex s)); [lia|reflexivity].
  - destruct (Z.geb_spec (currentIndex s) (JS.length (currentPlaylist s)));
      destruct (Z.leb_spec 0 (currentIndex s)); try lia;
      destruct (Z.ltb_spec (currentIndex s) (JS.length (currentPlaylist s))); cbn; lia.
Qed.

Lemma playable_path (v : Item) :
  playable w v = true ->
  exists filePath, getVideoPath w v = Some filePath /\
                   (String.eqb filePath "" || negb (existsSync w filePath)) = false.
Proof.
  unfold playable. destruct (getVideoPath w v) as [p|]; [|discriminate].
  intros H. exists p. split; [reflexivity|].
  destruct (String.eqb p ""); [discriminate|]. cbn in *. now rewrite H.
Qed.

Lemma unplayable_path (v : Item) :
  playable w v = false ->
  match getVideoPath w v with
  | Some filePath => (String.eqb filePath "" || negb (existsSync w filePath)) = true
  | None => True
  end.
Proof.
  unfold playable. destruct (getVideoPath w v) as [p|]; [|trivial].
  destruct (String.eqb p ""); [reflexivity|]. cbn. now intros ->.
Qed.

(** One call on a state that is streaming a non-empty playlist: the
    entry selected after the sanity check is put on air when its file
    exists ... *)
Lemma playNextVideo_rec_plays (fuel : nat) (s : State) (v : Item) :
  isStreaming s = true -> masterStdin s = true ->
  JS.length (currentPlaylist s) <> 0 ->
  JS.get (currentPlaylist s) (currentIndex (sanityCheck s)) = Some v ->
  playable w v = true ->
  exists filePath,
    getVideoPath w v = Some filePath /\
    playNextVideo_rec w (S fuel) s
    = Some (set_currentFeederProcess (Some filePath)
              (saveStreamState w (mkSavedState (item_id v) (Date_now w)) (sanityCheck s)),
            [SaveStreamState (mkSavedState (item_id v) (Date_now w)); SpawnFeeder filePath]).
Proof.
  intros Hs Hm Hne Hv Hp. destruct (playable_path v Hp) as (p & Ep & Hex).
  exists p. split; [assumption|]. cbn [playNextVideo_rec].
  rewrite Hs, Hm, (isArray_length _ Hne). cbn [negb orb]. apply Z.eqb_neq in Hne. rewrite Hne.
  rewrite sanityCheck_playlist, Hv, Ep, Hex. reflexivity.
Qed.

(** ... and skipped, with the index moved one further, when it does
    not. *)
Lemma playNextVideo_rec_skips (fuel : nat) (s : State) (v : Item) :
  isStreaming s = true -> masterStdin s = true ->
  JS.length (currentPlaylist s) <> 0 ->
  JS.get (currentPlaylist s) (currentIndex (sanityCheck s)) = Some v ->
  playable w v = false ->
  playNextVideo_rec w (S fuel) s
  = playNextVideo_rec w fuel
      (set_currentIndex (currentIndex (sanityCheck s) + 1) (sanityCheck s)).
Proof.
  intros Hs Hm Hne Hv Hp. pose proof (unplayable_path v Hp) as Hun.
  cbn [playNextVideo_rec].
  rewrite Hs, Hm, (isArray_length _ Hne). cbn [negb orb]. apply Z.eqb_neq in Hne. rewrite Hne.
  rewrite sanityCheck_playlist, Hv.
  destruct (getVideoPath w v) as [p|]; [|reflexivity]. now rewrite Hun.
Qed.

Lemma saveStreamState_file (data : SavedState) (s : State) :
  stateFile (saveStreamState w data s)
  = if writeFileSync_ok w then Some data else stateFile s.
Proof. unfold saveStreamState. now destruct (writeFileSync_ok w). Qed.

Lemma onAir_pre (s s0 s' : State) (i : Z) (effs : list Effect) :
  stateFile s = stateFile s0 -> onAir w s i s' effs -> onAir w s0 i s' effs.
Proof.
  intros E (v & p & H1 & H2 & H3 & H4 & H5 & H6 & H7 & H8). exists v, p.
  repeat split; try assumption; try lia.
  rewrite H7, !saveStreamState_file. now rewrite E.
Qed.

Lemma sameSession_refl (s : State) : sameSession s s.
Proof. now repeat split. Qed.

Lemma sameSession_trans (s1 s2 s3 : State) :
  sameSession s1 s2 -> sameSession s2 s3 -> sameSession s1 s3.
Proof. unfold sameSession. intuition congruence. Qed.

Lemma sameSession_sanity (s : State) : sameSession s (sanityCheck s).
Proof. rewrite sanityCheck_eq. now repeat split. Qed.

(** What a call of [playNextVideo] can do, whatever the state and the
    bound: nothing when the engine is not streaming, a TypeError when
    the playlist is [null], a retry timer when it is empty, or one
    entry put on air, at an index inside the playlist. *)
Lemma playNextVideo_rec_outcome (fuel : nat) (s s' : State) (effs : list Effect) :
  playNextVideo_rec w fuel s = Some (s', effs) ->
  sameSession s s' /\
  ((s' = s /\ effs = [] /\ (isStreaming s = false \/ masterStdin s = false)) \/
   (s' = s /\ effs = [SetTimeout 2000] /\ JS.length (currentPlaylist s) = 0 /\
    isArray (currentPlaylist s) = true) \/
   (s' = s /\ effs = [Throw] /\ isArray (currentPlaylist s) = false /\
    isStreaming s = true /\ masterStdin s = true) \/
   onAir w s (currentIndex s') s' effs).
Proof.
  revert s. induction fuel as [|fuel IH]; intros s; [discriminate|].
  cbn [playNextVideo_rec].
  destruct (negb (isStreaming s) || negb (masterStdin s)) eqn:Hidle.
  { intros [= <- <-]. split; [apply sameSession_refl|]. left. repeat split.
    destruct (isStreaming s); [|now left]. destruct (masterStdin s); [discriminate|now right]. }
  apply orb_false_iff in Hidle. destruct Hidle as [Hst Hms].
  apply negb_false_iff in Hst, Hms.
  destruct (negb (isArray (currentPlaylist s))) eqn:Harr.
  { apply negb_true_iff in Harr.
    intros [= <- <-]. split; [apply sameSession_refl|]. right; right; left. now repeat split. }
  apply negb_false_iff in Harr.
  destruct (Z.eqb_spec (JS.length (currentPlaylist s)) 0) as [Hlen|Hlen].
  { intros [= <- <-]. split; [apply sameSession_refl|]. right; left. now repeat split. }
  pose proof (sanityCheck_range s Hlen) as Hrange.
  rewrite sanityCheck_playlist.
  destruct (JS.get (currentPlaylist s) (currentIndex (sanityCheck s))) as [v|] eqn:Hv;
    [|discriminate].
  assert (Hskip : playNextVideo_rec w fuel
                    (set_currentIndex (currentIndex (sanityCheck s) + 1) (sanityCheck s))
                  = Some (s', effs) ->
                  sameSession s s' /\
                  ((s' = s /\ effs = [] /\ (isStreaming s = false \/ masterStdin s = false)) \/
                   (s' = s /\ effs = [SetTimeout 2000] /\ JS.length (currentPlaylist s) = 0 /\
                    isArray (currentPlaylist s) = true) \/
                   (s' = s /\ effs = [Throw] /\ isArray (currentPlaylist s) = false /\
                    isStreaming s = true /\ masterStdin s = true) \/
                   onAir w s (currentIndex s') s' effs)).
  { intros H. apply IH in H. destruct H as (Hsame & Hcases).
    assert (Hsame' : sameSession s s').
    { eapply sameSession_trans; [apply sameSession_sanity|].
      eapply sameSession_trans; [|exact Hsame]. now repeat split. }
    split; [assumption|].
    rewrite sanityCheck_eq in Hcases. cbn in Hcases.
    destruct Hcases as [(_ & _ & Hc)|[(_ & _ & Hc & _)|[(_ & _ & Hc & _)|Hc]]].
    - destruct Hc; congruence.
    - congruence.
    - congruence.
    - right; right; right. destruct Hc as (v' & p' & ? & ? & ? & ? & ? & ? & Hsf & ?).
      exists v', p'. repeat split; try assumption; try lia.
      rewrite Hsf. unfold saveStreamState. destruct (writeFileSync_ok w); reflexivity. }
  destruct (getVideoPath w v) as [p|] eqn:Ep; [|exact Hskip].
  destruct (String.eqb p "" || negb (existsSync w p)) eqn:Hex; [exact Hskip|].
  intros [= <- <-]. clear Hskip IH.
  split.
  { eapply sameSession_trans; [apply sameSession_sanity|].
    unfold saveStreamState. destruct (writeFileSync_ok w); now repeat split. }
  right; right; right. exists v, p.
  assert (Hplay : playable w v = true).
  { unfold playable. rewrite Ep. apply orb_false_iff in Hex. destruct Hex as [-> Hex].
    apply negb_false_iff in Hex. now rewrite Hex. }
  unfold saveStreamState. rewrite (sanityCheck_eq s).
  destruct (writeFileSync_ok w); cbn; repeat split; try assumption; try lia.
Qed.

(** *** The recursion bound *)

Lemma playNextVideo_rec_mono (n m : nat) (s : State) (r : State * list Effect) :
  (n <= m)%nat -> playNextVideo_rec w n s = Some r -> playNextVideo_rec w m s = Some r.
Proof.
  revert m s. induction n as [|n IH]; intros m s Hle; [discriminate|].
  destruct m as [|m]; [lia|]. cbn [playNextVideo_rec].
  destruct (negb (isStreaming s) || negb (masterStdin s)); [trivial|].
  destruct (negb (isArray (currentPlaylist s))); [trivial|].
  destruct (JS.length (currentPlaylist s) =? 0); [trivial|].
  destruct (JS.get _ _) as [v|]; [|trivial].
  assert (Hrec := IH m (set_currentIndex (currentIndex (sanityCheck s) + 1) (sanityCheck s))
                     ltac:(lia)).
  destruct (getVideoPath w v) as [p|]; [|exact Hrec].
  destruct (String.eqb p "" || negb (existsSync w p)); [exact Hrec|trivial].
Qed.

(** When [k] nested calls all fail to return, the engine is streaming a
    non-empty playlist and the [k] entries met from the selected one
    onwards, cyclically, were all skipped. *)
Lemma playNextVideo_rec_None (k : nat) (s : State) :
  (0 < k)%nat -> playNextVideo_rec w k s = None ->
  isStreaming s = true /\ masterStdin s = true /\ JS.length (currentPlaylist s) <> 0 /\
  forall t v, 0 <= t < Z.of_nat k ->
    JS.get (currentPlaylist s)
           ((currentIndex (sanityCheck s) + t) mod JS.length (currentPlaylist s)) = Some v ->
    playable w v = false.
Proof.
  revert s. induction k as [|k IH]; intros s Hk; [lia|]. cbn [playNextVideo_rec].
  destruct (negb (isStreaming s) || negb (masterStdin s)) eqn:Hidle; [discriminate|].
  apply orb_false_iff in Hidle. destruct Hidle as [Hs Hm]. apply negb_false_iff in Hs, Hm.
  destruct (negb (isArray (currentPlaylist s))); [discriminate|].
  destruct (Z.eqb_spec (JS.length (currentPlaylist s)) 0) as [Hlen|Hlen]; [discriminate|].
  pose proof (sanityCheck_range s Hlen) as Hrange.
  rewrite sanityCheck_playlist.
  destruct (JS.get (currentPlaylist s) (currentIndex (sanityCheck s))) as [v0|] eqn:Hv0.
  2:{ destruct (get_in_range (currentPlaylist s) _ Hrange) as (x & Hx). congruence. }
  set (s1 := set_currentIndex (currentIndex (sanityCheck s) + 1) (sanityCheck s)).
  intros Hnone.
  assert (Hboth : playable w v0 = false /\ playNextVideo_rec w k s1 = None).
  { unfold playable. destruct (getVideoPath w v0) as [p|]; [|now split].
    destruct (String.eqb p "" || negb (existsSync w p)) eqn:Hex; [|discriminate].
    split; [|assumption]. destruct (String.eqb p ""); [reflexivity|]. cbn in *.
    apply negb_true_iff in Hex. now rewrite Hex. }
  destruct Hboth as [Hun Hrest]. repeat split; try assumption.
  intros t v Ht Hv. destruct (Z.eq_dec t 0) as [->|Ht0].
  - rewrite Z.add_0_r, Z.mod_small in Hv by lia. congruence.
  - destruct k as [|k]; [lia|].
    destruct (IH s1 ltac:(lia) Hrest) as (_ & _ & _ & Hall).
    assert (Hpl : currentPlaylist s1 = currentPlaylist s)
      by (unfold s1; cbn; apply sanityCheck_playlist).
    rewrite Hpl in Hall. apply (Hall (t - 1) v); [lia|].
    assert (Hidx : currentIndex (sanityCheck s1)
                   = (currentIndex (sanityCheck s) + 1) mod JS.length (currentPlaylist s)).
    { rewrite sanityCheck_index by (rewrite Hpl; lia). rewrite Hpl. unfold s1; cbn.
      destruct (Z.leb_spec 0 (currentIndex (sanityCheck s) + 1)); [|lia].
      destruct (Z.ltb_spec (currentIndex (sanityCheck s) + 1) (JS.length (currentPlaylist s)));
        cbn.
      - now rewrite Z.mod_small by lia.
      - replace (currentIndex (sanityCheck s) + 1) with (JS.length (currentPlaylist s)) by lia.
        now rewrite Z.mod_same by lia. }
    rewrite Hidx, Z.add_mod_idemp_l by lia.
    now replace (currentIndex (sanityCheck s) + 1 + (t - 1))
      with (currentIndex (sanityCheck s) + t) by lia.
Qed.

(** A playlist without a single playable entry makes the recursion go
    on for ever. *)
Lemma playNextVideo_rec_diverges (n : nat) (s : State) :
  isStreaming s = true -> masterStdin s = true -> JS.length (currentPlaylist s) <> 0 ->
  (forall v, In v (currentPlaylist s) -> playable w v = false) ->
  playNextVideo_rec w n s = None.
Proof.
  revert s. induction n as [|n IH]; intros s Hs Hm Hlen Hall; [reflexivity|].
  pose proof (sanityCheck_range s Hlen) as Hrange.
  destruct (get_in_range (currentPlaylist s) _ Hrange) as (v & Hv).
  rewrite (playNextVideo_rec_skips n s v) by (try assumption; eapply Hall, get_In, Hv).
  apply IH; cbn; rewrite ?sanityCheck_playlist; try assumption;
    rewrite sanityCheck_eq; assumption.
Qed.

(** The bound [S (length currentPlaylist)] of [playNextVideo] is enough:
    whatever some bound returns, this one returns too. *)
Lemma playNextVideo_rec_bound (n : nat) (s : State) (r : State * list Effect) :
  playNextVideo_rec w n s = Some r -> playNextVideo w s = Some r.
Proof.
  intros Hn. unfold playNextVideo.
  set (N := S (List.length (currentPlaylist s))).
  destruct (playNextVideo_rec w N s) as [r'|] eqn:HN.
  - destruct (Nat.le_ge_cases n N) as [Hle|Hge].
    + rewrite (playNextVideo_rec_mono n N s r Hle Hn) in HN. congruence.
    + rewrite (playNextVideo_rec_mono N n s r' Hge HN) in Hn. congruence.
  - exfalso.
    destruct (playNextVideo_rec_None N s ltac:(unfold N; lia) HN) as (Hs & Hm & Hlen & Hall).
    rewrite playNextVideo_rec_diverges in Hn; try assumption; [discriminate|].
    intros v Hin. apply In_nth_error in Hin. destruct Hin as (j & Hj).
    assert (Hjl : (j < List.length (currentPlaylist s))%nat)
      by (apply nth_error_Some; congruence).
    pose proof (sanityCheck_range s Hlen) as Hrange.
    set (c := currentIndex (sanityCheck s)) in *.
    set (L := JS.length (currentPlaylist s)) in *.
    assert (HL : L = Z.of_nat (List.length (currentPlaylist s))) by reflexivity.
    apply (Hall ((Z.of_nat j - c) mod L) v).
    + pose proof (Z.mod_pos_bound (Z.of_nat j - c) L ltac:(lia)). unfold N. lia.
    + rewrite Z.add_mod_idemp_r by lia.
      replace (c + (Z.of_nat j - c)) with (Z.of_nat j) by lia.
      rewrite Z.mod_small by lia. unfold JS.get.
      destruct (Z.ltb_spec (Z.of_nat j) 0); [lia|]. now rewrite Nat2Z.id.
Qed.

(** *** A call that finds its entry playable *)

Lemma playNextVideo_plays (s : State) (v : Item) :
  isStreaming s = true -> masterStdin s = true ->
  JS.get (currentPlaylist s) (currentIndex (sanityCheck s)) = Some v ->
  playable w v = true ->
  exists s' effs,
    playNextVideo w s = Some (s', effs) /\
    sameSession s s' /\
    onAir w s (currentIndex (sanityCheck s)) s' effs.
Proof.
  intros Hs Hm Hv Hp.
  assert (Hlen : JS.length (currentPlaylist s) <> 0).
  { pose proof (get_Some_range _ _ _ Hv). lia. }
  destruct (playNextVideo_rec_plays (List.length (currentPlaylist s)) s v Hs Hm Hlen Hv Hp)
    as (p & Ep & Hrun).
  unfold playNextVideo. rewrite Hrun. eexists _, _. split; [reflexivity|].
  pose proof (sanityCheck_range s Hlen) as Hrange.
  unfold saveStreamState. rewrite (sanityCheck_eq s).
  split.
  - destruct (writeFileSync_ok w); now repeat split.
  - exists v, p. unfold saveStreamState.
    destruct (writeFileSync_ok w); cbn; repeat split; try assumption; try lia.
Qed.

Lemma playNextVideo_allPlayable (s : State) :
  isStreaming s = true -> masterStdin s = true ->
  JS.length (currentPlaylist s) <> 0 ->
  (forall v, In v (currentPlaylist s) -> playable w v = true) ->
  exists s' effs,
    playNextVideo w s = Some (s', effs) /\
    sameSession s s' /\
    onAir w s (currentIndex (sanityCheck s)) s' effs.
Proof.
  intros Hs Hm Hlen Hall.
  destruct (get_in_range (currentPlaylist s) _ (sanityCheck_range s Hlen)) as (v & Hv).
  apply (playNextVideo_plays s v); try assumption. eapply Hall, get_In, Hv.
Qed.

(** *** Natural advance *)

(** The index selected after [currentIndex++] and the sanity check. *)
Lemma advance_index (s : State) :
  0 <= currentIndex s < JS.length (currentPlaylist s) ->
  currentIndex (sanityCheck (set_currentIndex (currentIndex s + 1) s))
  = (currentIndex s + 1) mod JS.length (currentPlaylist s).
Proof.
  intros Hr. rewrite sanityCheck_index by (cbn; lia). cbn.
  destruct (Z.leb_spec 0 (currentIndex s + 1)); [|lia].
  destruct (Z.ltb_spec (currentIndex s + 1) (JS.length (currentPlaylist s))); cbn.
  - now rewrite Z.mod_small by lia.
  - replace (currentIndex s + 1) with (JS.length (currentPlaylist s)) by lia.
    now rewrite Z.mod_same by lia.
Qed.

Lemma naturalAdvance_step (s : State) :
  isStreaming s = true -> masterStdin s = true -> skipToTarget s = false ->
  0 <= currentIndex s < JS.length (currentPlaylist s) ->
  (forall v, In v (currentPlaylist s) -> playable w v = true) ->
  exists s' effs,
    feederClose w (Some 0) s = Some (s', effs) /\
    sameSession s s' /\
    currentIndex s' = (currentIndex s + 1) mod JS.length (currentPlaylist s).
Proof.
  intros Hs Hm Hk Hr Hall. unfold feederClose. rewrite Hk. cbn [Z.eqb].
  destruct (playNextVideo_allPlayable (set_currentIndex (currentIndex s + 1) s))
    as (s' & effs & Hrun & Hsame & Hair); try assumption; [cbn; lia|].
  exists s', effs. split; [assumption|]. split; [exact Hsame|].
  destruct Hair as (v & p & _ & _ & _ & _ & Hidx & _). rewrite Hidx. now apply advance_index.
Qed.

Lemma naturalAdvances_index (k : nat) (s : State) :
  isStreaming s = true -> masterStdin s = true -> skipToTarget s = false ->
  0 <= currentIndex s < JS.length (currentPlaylist s) ->
  (forall v, In v (currentPlaylist s) -> playable w v = true) ->
  exists s',
    naturalAdvances w k s = Some s' /\
    sameSession s s' /\
    currentIndex s' = (currentIndex s + Z.of_nat k) mod JS.length (currentPlaylist s).
Proof.
  revert s. induction k as [|k IH]; intros s Hs Hm Hk Hr Hall.
  - exists s. cbn [naturalAdvances]. split; [reflexivity|]. split; [apply sameSession_refl|].
    now rewrite Z.add_0_r, Z.mod_small.
  - destruct (naturalAdvance_step s Hs Hm Hk Hr Hall) as (s1 & effs & Hstep & Hsame & Hidx).
    cbn [naturalAdvances]. rewrite Hstep.
    destruct Hsame as (Em & Es & Ec & Ep & Ek & Ei).
    destruct (IH s1) as (s' & Hrun & Hsame' & Hidx'); try congruence.
    { rewrite Hidx, Ep. apply Z.mod_pos_bound. lia. }
    { now rewrite Ep. }
    exists s'. split; [assumption|]. split.
    { eapply sameSession_trans; [|exact Hsame']. now repeat split. }
    rewrite Hidx', Hidx, Ep, Z.add_mod_idemp_l by lia. f_equal. lia.
Qed.

End DJ.

(** C2. Wrap-around.  On a playlist of [N >= 1] entries that all resolve
    to an existing file, starting from any index inside the playlist,
    [N] feeders in a row finishing normally bring [currentIndex] back to
    where it started; the rest of the session is untouched. *)
Theorem naturalAdvances_wrap_around (w : Host) (s : State) :
  isStreaming s = true -> masterStdin s = true -> skipToTarget s = false ->
  0 <= currentIndex s < JS.length (currentPlaylist s) ->
  (forall v, In v (currentPlaylist s) -> playable w v = true) ->
  exists s',
    naturalAdvances w (List.length (currentPlaylist s)) s = Some s' /\
    currentIndex s' = currentIndex s /\
    sameSession s s'.
Proof.
  intros Hs Hm Hk Hr Hall.
  destruct (naturalAdvances_index w (List.length (currentPlaylist s)) s Hs Hm Hk Hr Hall)
    as (s' & Hrun & Hsame & Hidx).
  exists s'. split; [assumption|]. split; [|assumption].
  rewrite Hidx. fold (JS.length (currentPlaylist s)).
  rewrite <- (Z.mul_1_l (JS.length (currentPlaylist s))) at 1.
  rewrite Z.mod_add by lia. apply Z.mod_small. lia.
Qed.

Lemma naturalAdvances_wrap_around_witness :
  exists s',
    naturalAdvances (Scenario.host Scenario.allFiles) 3
      (Scenario.streaming [Scenario.A; Scenario.B; Scenario.C] 1 Scenario.fileB) = Some s' /\
    currentIndex s' = 1.
Proof.
  destruct (naturalAdvances_wrap_around (Scenario.host Scenario.allFiles)
              (Scenario.streaming [Scenario.A; Scenario.B; Scenario.C] 1 Scenario.fileB))
    as (s' & Hrun & Hidx & _); try reflexivity.
  - cbn. unfold JS.length. cbn. lia.
  - intros v [<-|[<-|[<-|[]]]]; reflexivity.
  - exists s'. split; assumption.
Defined.

(** C2, as stated, at a playlist one of whose files has gone: [B] is
    skipped at every round, and three natural advances from index 0
    end at index 2. *)
Lemma naturalAdvances_missing_file :
  exists s',
    naturalAdvances (Scenario.host [Scenario.fileA; Scenario.fileC]) 3
      (Scenario.streaming [Scenario.A; Scenario.B; Scenario.C] 0 Scenario.fileA) = Some s' /\
    currentIndex s' = 2 /\
    currentIndex s'
    <> currentIndex (Scenario.streaming [Scenario.A; Scenario.B; Scenario.C] 0 Scenario.fileA).
Proof. eexists. split; [vm_compute; reflexivity|]. split; [reflexivity|discriminate]. Qed.

(** ** Manual skip *)




(** C10. A skip request is refused with status 400 when the engine is
    not streaming, and when the direction is neither [next] nor
    [previous]; the state is then exactly what it was (index and flag
    included) and the response is the only effect, so no feeder is
    killed. *)
Theorem controlSkip_rejected (s : State) (direction : option string) :
  isStreaming s = false \/ (direction <> Some "next" /\ direction <> Some "previous") ->
  exists error, controlSkip direction s = (s, [Respond 400 (ErrorBody error)]).
Proof.
  intros H. unfold controlSkip. destruct (isStreaming s); cbn [negb].
  - destruct H as [H|[Hn Hp]]; [discriminate|].
    destruct (JS.truthy direction); cbn [negb orb]; [|eauto].
    destruct (JS.seq direction (Some "next")) eqn:E1; [apply seq_eq in E1; congruence|].
    destruct (JS.seq direction (Some "previous")) eqn:E2; [apply seq_eq in E2; congruence|].
    cbn. eauto.
  - eauto.
Qed.

Lemma controlSkip_rejected_witness :
  let s := Scenario.streaming [Scenario.A; Scenario.B] 1 Scenario.fileB in
  (exists error, controlSkip (Some "forward") s = (s, [Respond 400 (ErrorBody error)])) /\
  (exists error, controlSkip (Some "next") (initialState None)
                 = (initialState None, [Respond 400 (ErrorBody error)])).
Proof.
  intros s. split.
  - apply controlSkip_rejected. right. split; discriminate.
  - apply controlSkip_rejected. now left.
Defined.

(** ** The poll cycle *)

Lemma seq_refl (a : option string) : JS.seq a a = true.
Proof. now apply seq_eq. Qed.

Lemma seqZ_eq (a b : option Z) : JS.seqZ a b = true <-> a = b.
Proof.
  destruct a as [x|], b as [y|]; cbn; try (split; congruence).
  rewrite Z.eqb_eq. split; congruence.
Qed.

Lemma seqB_eq (a b : option bool) : JS.seqB a b = true <-> a = b.
Proof.
  destruct a as [x|], b as [y|]; cbn; try (split; congruence).
  rewrite Bool.eqb_true_iff. split; congruence.
Qed.

(** The critical fields, as the comparison reads them. *)
Lemma criticalChanged_false (config last : Config) :
  criticalChanged config last = false <->
  stream_key config = stream_key last /\
  rtmp_url config = rtmp_url last /\
  audio_overlay_enabled config = audio_overlay_enabled last /\
  audio_volume config = audio_volume last /\
  audio_file config = audio_file last.
Proof.
  unfold criticalChanged. rewrite !orb_false_iff, !negb_false_iff.
  rewrite !seq_eq, seqZ_eq, seqB_eq. tauto.
Qed.

Lemma criticalChanged_refl (config : Config) : criticalChanged config config = false.
Proof. apply criticalChanged_false. now repeat split. Qed.

(** Right after a start the runtime-update step compares the config
    with itself and does nothing. *)
Lemma runtimeUpdate_fresh (w : Host) (config : Config) (s : State) :
  lastConfig s = Some config -> runtimeUpdate w config s = (s, []).
Proof.
  intros E. unfold runtimeUpdate. rewrite E, criticalChanged_refl, String.eqb_refl.
  now destruct (isStreaming s && is_active config).
Qed.

Lemma poll_streaming (w : Host) (config : Config) (s : State) :
  is_active config = true -> isStreaming s = true ->
  pollStreamConfig w (Some config) s = Some (runtimeUpdate w config s).
Proof.
  intros Ha Hs. unfold pollStreamConfig. rewrite Ha, Hs. reflexivity.
Qed.

(** *** Adopting the playlist at start *)

(** The row's playlist after the [if (hasChanges)] rewrite: the cleaned
    array for an array, [null] for [null]. *)
Lemma adopted_config_playlist (w : Host) (config : Config) :
  playlist (if hasChanges (cleanPlaylist w (playlist config))
            then set_playlist (validPlaylist (cleanPlaylist w (playlist config))) config
            else config)
  = if isArray (playlist config)
    then PArray (validPlaylist (cleanPlaylist w (playlist config)))
    else PNull.
Proof.
  destruct (playlist config) as [|pl] eqn:Epl; [exact Epl|]. cbn [isArray].
  pose proof (adopted_playlist w pl) as H.
  destruct (hasChanges (cleanPlaylist w (PArray pl))); [reflexivity|].
  rewrite Epl. f_equal. exact H.
Qed.

(** Whether the step throws: the adopted playlist is [null] and the
    checkpoint names a video. *)
Lemma adoptPlaylist_thrown (w : Host) (config : Config) (s : State) :
  snd (adoptPlaylist w config s)
  = negb (isArray (playlist config))
    && match stateFile s with
       | Some saved => JS.truthy (lastPlayedVideoId saved)
       | None => false
       end.
Proof.
  unfold adoptPlaylist, loadStreamState.
  cbn [stateFile currentPlaylist set_currentIndex set_currentPlaylist].
  rewrite adopted_config_playlist.
  destruct (stateFile s) as [saved|]; [|now rewrite andb_false_r].
  destruct (JS.truthy (lastPlayedVideoId saved)); [|now rewrite andb_false_r].
  destruct (isArray (playlist config)); cbn [negb andb isArray]; [|reflexivity].
  now destruct (negb (_ =? -1)).
Qed.

Lemma adoptPlaylist_array (w : Host) (config : Config) (s : State) :
  isArray (playlist config) = true -> snd (adoptPlaylist w config s) = false.
Proof. intros H. now rewrite adoptPlaylist_thrown, H. Qed.

Lemma adoptPlaylist_config (w : Host) (config : Config) (s : State) :
  isArray (playlist config) = true ->
  snd (fst (adoptPlaylist w config s))
  = set_playlist (validPlaylist (cleanPlaylist w (playlist config))) config.
Proof.
  intros Harr.
  assert (E : snd (fst (adoptPlaylist w config s))
              = if hasChanges (cleanPlaylist w (playlist config))
                then set_playlist (validPlaylist (cleanPlaylist w (playlist config))) config
                else config).
  { unfold adoptPlaylist. destruct (loadStreamState _) as [saved|]; [|reflexivity].
    destruct (JS.truthy _); [|reflexivity]. destruct (negb (isArray _)); [reflexivity|].
    now destruct (negb (_ =? -1)). }
  rewrite E. pose proof (adopted_config_playlist w config) as H. rewrite Harr in H.
  destruct (hasChanges (cleanPlaylist w (playlist config))); [reflexivity|].
  rewrite <- H. now destruct config.
Qed.

(** On a [null] row the config object is left as it is. *)
Lemma adoptPlaylist_config_null (w : Host) (config : Config) (s : State) :
  playlist config = PNull -> snd (fst (adoptPlaylist w config s)) = config.
Proof.
  intros Epl. unfold adoptPlaylist. rewrite Epl, cleanPlaylist_null. cbn [hasChanges].
  destruct (loadStreamState _) as [saved|]; [|reflexivity].
  destruct (JS.truthy _); [|reflexivity]. destruct (negb (isArray _)); [reflexivity|].
  now destruct (negb (_ =? -1)).
Qed.

(** The step writes [currentPlaylist] and [currentIndex] only. *)
Lemma adoptPlaylist_adopts (w : Host) (config : Config) (s : State) :
  fst (fst (adoptPlaylist w config s))
  = set_currentIndex (currentIndex (fst (fst (adoptPlaylist w config s))))
      (set_currentPlaylist
         (if isArray (playlist config)
          then PArray (validPlaylist (cleanPlaylist w (playlist config)))
          else PNull) s).
Proof.
  unfold adoptPlaylist. rewrite adopted_config_playlist.
  unfold loadStreamState. cbn [stateFile set_currentIndex set_currentPlaylist].
  destruct (stateFile s) as [saved|]; [|reflexivity].
  destruct (JS.truthy (lastPlayedVideoId saved)); [|reflexivity].
  cbn [currentPlaylist]. destruct (negb (isArray _)); [reflexivity|].
  destruct (negb (_ =? -1)); reflexivity.
Qed.

Lemma adoptPlaylist_state (w : Host) (config : Config) (s : State) :
  isArray (playlist config) = true ->
  fst (fst (adoptPlaylist w config s))
  = set_currentIndex (currentIndex (fst (fst (adoptPlaylist w config s))))
      (set_currentPlaylist (validPlaylist (cleanPlaylist w (playlist config))) s).
Proof. intros Harr. rewrite adoptPlaylist_adopts at 1. now rewrite Harr. Qed.

Lemma adoptPlaylist_index (w : Host) (config : Config) (s : State) :
  let pl := validPlaylist (cleanPlaylist w (playlist config)) in
  currentIndex (fst (fst (adoptPlaylist w config s)))
  = match stateFile s with
    | Some saved =>
        if JS.truthy (lastPlayedVideoId saved) then
          let i := JS.findIndex (fun v => JS.seq (item_id v) (lastPlayedVideoId saved)) pl in
          if i =? -1 then 0 else (i + 1) mod JS.length pl
        else 0
    | None => 0
    end.
Proof.
  intros pl. unfold adoptPlaylist. unfold loadStreamState.
  cbn [stateFile set_currentIndex set_currentPlaylist].
  destruct (stateFile s) as [saved|]; [|reflexivity].
  destruct (JS.truthy (lastPlayedVideoId saved)); [|reflexivity].
  cbn [currentPlaylist set_currentIndex set_currentPlaylist].
  rewrite adopted_config_playlist. fold pl.
  destruct (isArray (playlist config)) eqn:Harr; cbn [negb isArray orEmpty].
  2:{ destruct (playlist config); [reflexivity|discriminate]. }
  pose proof (findIndex_range (fun v => JS.seq (item_id v) (lastPlayedVideoId saved)) pl) as Hr.
  destruct (Z.eqb_spec (JS.findIndex (fun v => JS.seq (item_id v) (lastPlayedVideoId saved)) pl)
                       (-1)); cbn [negb fst currentIndex set_currentIndex]; [reflexivity|].
  apply Z.rem_mod_nonneg; lia.
Qed.

(** The resume index when the checkpointed id is found: one past the
    first entry carrying it, wrapping at the end. *)
Lemma adoptPlaylist_found (w : Host) (config : Config) (s : State)
      (saved : SavedState) (i : Z) (v : Item) :
  let pl := validPlaylist (cleanPlaylist w (playlist config)) in
  stateFile s = Some saved -> JS.truthy (lastPlayedVideoId saved) = true ->
  JS.get pl i = Some v -> item_id v = lastPlayedVideoId saved ->
  (forall j u, 0 <= j < i -> JS.get pl j = Some u -> item_id u <> lastPlayedVideoId saved) ->
  currentIndex (fst (fst (adoptPlaylist w config s))) = (i + 1) mod JS.length pl.
Proof.
  intros pl Hf Ht Hv Hid Hfirst.
  assert (Hfound : JS.findIndex (fun v => JS.seq (item_id v) (lastPlayedVideoId saved)) pl = i).
  { apply (findIndex_first _ pl i v Hv); [now apply seq_eq|].
    intros j u Hj Hu. destruct (JS.seq (item_id u) (lastPlayedVideoId saved)) eqn:E; [|reflexivity].
    apply seq_eq in E. now destruct (Hfirst j u Hj Hu). }
  pose proof (get_Some_range _ _ _ Hv) as Hr.
  rewrite adoptPlaylist_index. fold pl. rewrite Hf, Ht. cbv zeta. rewrite Hfound.
  destruct (Z.eqb_spec i (-1)); [lia|reflexivity].
Qed.

(** Without a usable checkpoint, or when no entry carries the
    checkpointed id, the index starts at 0. *)
Lemma adoptPlaylist_notfound (w : Host) (config : Config) (s : State) :
  let pl := validPlaylist (cleanPlaylist w (playlist config)) in
  (forall saved, stateFile s = Some saved ->
     JS.truthy (lastPlayedVideoId saved) = true ->
     forall v, In v pl -> item_id v <> lastPlayedVideoId saved) ->
  currentIndex (fst (fst (adoptPlaylist w config s))) = 0.
Proof.
  intros pl H. rewrite adoptPlaylist_index. fold pl.
  destruct (stateFile s) as [saved|]; [|reflexivity].
  destruct (JS.truthy (lastPlayedVideoId saved)) eqn:Ht; [|reflexivity].
  replace (JS.findIndex _ pl) with (-1); [reflexivity|].
  symmetry. apply findIndex_none. intros v Hv.
  destruct (JS.seq (item_id v) (lastPlayedVideoId saved)) eqn:E; [|reflexivity].
  apply seq_eq in E. now destruct (H saved eq_refl Ht v Hv).
Qed.

Lemma adoptPlaylist_range (w : Host) (config : Config) (s : State) :
  let pl := validPlaylist (cleanPlaylist w (playlist config)) in
  JS.length pl <> 0 ->
  0 <= currentIndex (fst (fst (adoptPlaylist w config s))) < JS.length pl.
Proof.
  intros pl Hne. pose proof (length_nonneg pl) as Hl. rewrite adoptPlaylist_index. fold pl.
  destruct (stateFile s) as [saved|]; [|lia].
  destruct (JS.truthy (lastPlayedVideoId saved)); [|lia].
  cbv zeta. destruct (_ =? -1); [lia|]. apply Z.mod_pos_bound. lia.
Qed.

(** *** Starting the master *)

(** Only a [null] playlist makes [playNextVideo] throw. *)
Lemma playNextVideo_rec_no_throw (w : Host) (fuel : nat) (s s' : State) (effs : list Effect) :
  isArray (currentPlaylist s) = true ->
  playNextVideo_rec w fuel s = Some (s', effs) -> threw effs = false.
Proof.
  intros Harr Hrun.
  destruct (playNextVideo_rec_outcome w fuel s s' effs Hrun) as (_ & Hcases).
  destruct Hcases as [(_ & -> & _)|[(_ & -> & _)|[(_ & _ & Hn & _)|Hair]]];
    [reflexivity|reflexivity|congruence|].
  destruct Hair as (v & p & _ & _ & _ & _ & _ & _ & _ & ->). reflexivity.
Qed.

Lemma startMasterStream_no_throw (w : Host) (config : Config) (s s' : State)
      (effs : list Effect) :
  isArray (currentPlaylist s) = true ->
  startMasterStream w config s = Some (s', effs) -> threw effs = false.
Proof.
  intros Harr. unfold startMasterStream.
  destruct (masterFfmpeg s); [intros [= <- <-]; reflexivity|].
  destruct (negb _ || negb _); [intros [= <- <-]; reflexivity|].
  destruct (playNextVideo w _) as [[s2 e2]|] eqn:Hrun; [|discriminate].
  intros [= <- <-]. cbn. eapply (playNextVideo_rec_no_throw w); [|exact Hrun]. exact Harr.
Qed.

(** Switching on with an array in the row: the poll is the start of the
    master on the adopted playlist, followed by [lastConfig = config]. *)
Lemma poll_start (w : Host) (config : Config) (s : State) :
  is_active config = true -> isStreaming s = false ->
  isArray (playlist config) = true ->
  pollStreamConfig w (Some config) s
  = match startMasterStream w (snd (fst (adoptPlaylist w config s)))
                            (fst (fst (adoptPlaylist w config s))) with
    | Some (s2, e1) => Some (set_lastConfig (Some (snd (fst (adoptPlaylist w config s)))) s2, e1)
    | None => None
    end.
Proof.
  intros Ha Hs Harr. unfold pollStreamConfig. rewrite Ha, Hs. cbn [negb andb].
  pose proof (adoptPlaylist_array w config s Harr) as Hth.
  pose proof (adoptPlaylist_state w config s Harr) as Hst.
  destruct (adoptPlaylist w config s) as [[s1 config1] thrown]. cbn [fst snd] in *.
  subst thrown.
  destruct (startMasterStream w config1 s1) as [[s2 e1]|] eqn:Hstart; [|reflexivity].
  rewrite (startMasterStream_no_throw w config1 s1 s2 e1); [|now rewrite Hst|exact Hstart].
  rewrite runtimeUpdate_fresh by reflexivity. now rewrite app_nil_r.
Qed.

(** The arguments of the master do not depend on the playlist. *)
Lemma masterArgsOf_set_playlist (w : Host) (pl : Playlist) (config : Config) :
  masterArgsOf w (set_playlist pl config) = masterArgsOf w config.
Proof. reflexivity. Qed.

(** A start is blocked, without any effect, when the RTMP URL or the
    stream key is missing. *)
Lemma poll_start_blocked (w : Host) (config : Config) (s : State) :
  is_active config = true -> isStreaming s = false ->
  isArray (playlist config) = true ->
  JS.truthy (rtmp_url config) = false \/ JS.truthy (stream_key config) = false ->
  pollStreamConfig w (Some config) s
  = Some (set_lastConfig (Some (snd (fst (adoptPlaylist w config s))))
            (fst (fst (adoptPlaylist w config s))), []).
Proof.
  intros Ha Hs Harr Hmiss. rewrite poll_start by assumption.
  unfold startMasterStream. destruct (masterFfmpeg _); [reflexivity|].
  rewrite adoptPlaylist_config by assumption. cbn [rtmp_url stream_key set_playlist].
  destruct Hmiss as [-> | ->]; cbn; [reflexivity|].
  now rewrite orb_true_r.
Qed.

(** With both present and no master running, the master is spawned,
    the engine is streaming, and [playNextVideo] has been called on the
    adopted playlist: with entries, the one at the resume index is on
    air; without, only the retry timer is set. *)
Lemma poll_start_spawns (w : Host) (config : Config) (s : State) :
  let pl := validPlaylist (cleanPlaylist w (playlist config)) in
  let i := currentIndex (fst (fst (adoptPlaylist w config s))) in
  let args := masterArgsOf w config in
  is_active config = true -> isStreaming s = false -> masterFfmpeg s = None ->
  isArray (playlist config) = true ->
  JS.truthy (rtmp_url config) = true -> JS.truthy (stream_key config) = true ->
  exists s' effs,
    pollStreamConfig w (Some config) s = Some (s', SpawnMaster args :: effs) /\
    isStreaming s' = true /\ masterFfmpeg s' = Some args /\ masterStdin s' = true /\
    currentPlaylist s' = pl /\ skipToTarget s' = skipToTarget s /\
    lastConfig s' = Some (set_playlist pl config) /\
    ((pl = [] /\ effs = [SetTimeout 2000] /\ currentIndex s' = i /\
      currentFeederProcess s' = currentFeederProcess s) \/
     (pl <> [] /\ onAir w s i s' effs)).
Proof.
  intros pl i args Ha Hs Hm Harr Hu Hk. rewrite poll_start by assumption.
  rewrite adoptPlaylist_config by assumption. fold pl.
  assert (Hi : JS.length pl <> 0 -> 0 <= i < JS.length pl)
    by (intros Hne; now apply adoptPlaylist_range).
  assert (Es0 : fst (fst (adoptPlaylist w config s))
                = set_currentIndex i (set_currentPlaylist pl s))
    by (now apply adoptPlaylist_state).
  assert (Hplay : forall v, In v pl -> playable w v = true)
    by (intros v; apply validPlaylist_playable).
  rewrite Es0. clearbody i pl. clear Es0.
  unfold startMasterStream. cbn [masterFfmpeg set_currentIndex set_currentPlaylist].
  rewrite Hm. cbn [rtmp_url stream_key set_playlist].
  rewrite Hu, Hk. cbn [negb orb]. rewrite masterArgsOf_set_playlist. fold args.
  set (s1 := set_isStreaming true (set_masterStdin true (set_masterFfmpeg (Some args)
               (set_currentIndex i (set_currentPlaylist pl s))))).
  destruct pl as [|v0 rest].
  - exists (set_lastConfig (Some (set_playlist [] config)) s1), [SetTimeout 2000].
    split; [reflexivity|]. cbn. repeat split. left. now repeat split.
  - assert (Hne : JS.length (v0 :: rest) <> 0)
      by (rewrite length_cons; pose proof (length_nonneg rest); lia).
    destruct (playNextVideo_allPlayable w s1) as (s2 & effs & Hrun & Hsame & Hair);
      try reflexivity; try assumption.
    rewrite Hrun. exists (set_lastConfig (Some (set_playlist (v0 :: rest) config)) s2), effs.
    split; [reflexivity|]. destruct Hsame as (Em & Es & Ec & Ep & Ek & Ei).
    cbn [isStreaming masterFfmpeg masterStdin currentPlaylist skipToTarget lastConfig
         set_lastConfig].
    rewrite Em, Es, Ep, Ek, Ei. repeat split.
    right. split; [discriminate|].
    rewrite sanityCheck_in_range in Hair by (apply Hi, Hne).
    destruct Hair as (v & p & H1 & H2 & H3 & H4 & H5 & H6 & H7 & H8).
    assert (H7' : stateFile s2
                  = stateFile (saveStreamState w (mkSavedState (item_id v) (Date_now w)) s))
      by (rewrite H7, !saveStreamState_file; reflexivity).
    exists v, p. subst s1. cbn in H1, H2, H5 |- *. repeat split; try assumption; try lia.
Qed.

(** A poll that switches the stream on with an array in the row always
    returns, with the cleaned playlist adopted and the index set from
    the checkpoint, whether or not the master could be started. *)
Lemma poll_start_total (w : Host) (config : Config) (s : State) :
  is_active config = true -> isStreaming s = false ->
  isArray (playlist config) = true ->
  exists s' effs,
    pollStreamConfig w (Some config) s = Some (s', effs) /\
    currentPlaylist s' = validPlaylist (cleanPlaylist w (playlist config)) /\
    currentIndex s' = currentIndex (fst (fst (adoptPlaylist w config s))).
Proof.
  intros Ha Hs Harr.
  destruct (masterFfmpeg s) as [m|] eqn:Hm.
  { rewrite poll_start by assumption. unfold startMasterStream.
    assert (Hm1 : masterFfmpeg (fst (fst (adoptPlaylist w config s))) = Some m)
      by (rewrite adoptPlaylist_state by assumption; exact Hm).
    rewrite Hm1. eexists _, _. split; [reflexivity|]. cbn [currentPlaylist currentIndex
      set_lastConfig]. split; [|reflexivity]. now rewrite adoptPlaylist_state by assumption. }
  destruct (JS.truthy (rtmp_url config)) eqn:Hu.
  2:{ rewrite (poll_start_blocked w config s Ha Hs Harr (or_introl Hu)).
      eexists _, _. split; [reflexivity|]. cbn [currentPlaylist currentIndex set_lastConfig].
      split; [|reflexivity]. now rewrite adoptPlaylist_state by assumption. }
  destruct (JS.truthy (stream_key config)) eqn:Hk.
  2:{ rewrite (poll_start_blocked w config s Ha Hs Harr (or_intror Hk)).
      eexists _, _. split; [reflexivity|]. cbn [currentPlaylist currentIndex set_lastConfig].
      split; [|reflexivity]. now rewrite adoptPlaylist_state by assumption. }
  destruct (poll_start_spawns w config s Ha Hs Hm Harr Hu Hk)
    as (s' & effs & Hrun & _ & _ & _ & Hpl & _ & _ & Hcases).
  exists s', (SpawnMaster (masterArgsOf w config) :: effs). split; [assumption|].
  split; [assumption|].
  destruct Hcases as [(_ & _ & Hi & _)|(_ & v & p & _ & _ & _ & _ & Hi & _)]; exact Hi.
Qed.

(** *** Switching on with [null] in the row *)

(** [cleanPlaylist] reports no change, so [null] itself is adopted.
    With a checkpoint that names a video the smart restart throws at
    [currentPlaylist.findIndex]; otherwise the master is started as
    usual and [playNextVideo] throws at [currentPlaylist.length], after
    the master was spawned and before [lastConfig] is set.  Either way
    the handler catches the exception. *)
Lemma poll_start_null (w : Host) (config : Config) (s : State) :
  is_active config = true -> isStreaming s = false -> playlist config = PNull ->
  let s1 := set_currentIndex 0 (set_currentPlaylist PNull s) in
  let args := masterArgsOf w config in
  pollStreamConfig w (Some config) s
  = if match stateFile s with
       | Some saved => JS.truthy (lastPlayedVideoId saved)
       | None => false
       end
    then Some (s1, [])
    else
      match masterFfmpeg s with
      | Some _ => Some (set_lastConfig (Some config) s1, [])
      | None =>
          if negb (JS.truthy (rtmp_url config)) || negb (JS.truthy (stream_key config))
          then Some (set_lastConfig (Some config) s1, [])
          else Some (set_isStreaming true
                       (set_masterStdin true (set_masterFfmpeg (Some args) s1)),
                     [SpawnMaster args])
      end.
Proof.
  intros Ha Hs Epl s1 args. unfold pollStreamConfig. rewrite Ha, Hs. cbn [negb andb].
  unfold adoptPlaylist, loadStreamState. rewrite Epl, cleanPlaylist_null.
  cbn [hasChanges stateFile currentPlaylist set_currentIndex set_currentPlaylist].
  rewrite Epl. fold s1. cbn [isArray negb].
  assert (Hstart : startMasterStream w config s1
                   = match masterFfmpeg s with
                     | Some _ => Some (s1, [])
                     | None =>
                         if negb (JS.truthy (rtmp_url config))
                            || negb (JS.truthy (stream_key config))
                         then Some (s1, [])
                         else Some (set_isStreaming true
                                      (set_masterStdin true (set_masterFfmpeg (Some args) s1)),
                                    [SpawnMaster args; Throw])
                     end).
  { unfold startMasterStream. cbn [masterFfmpeg s1 set_currentIndex set_currentPlaylist].
    destruct (masterFfmpeg s); [reflexivity|].
    destruct (negb _ || negb _); reflexivity. }
  assert (Hidle : forall c, runtimeUpdate w c (set_lastConfig (Some c) s1)
                            = (set_lastConfig (Some c) s1, [])).
  { intros c. unfold runtimeUpdate. cbn [isStreaming set_lastConfig s1 set_currentIndex
      set_currentPlaylist]. now rewrite Hs. }
  destruct (stateFile s) as [saved|].
  - destruct (JS.truthy (lastPlayedVideoId saved)); [reflexivity|].
    rewrite Hstart. destruct (masterFfmpeg s); [cbn [threw existsb]; now rewrite Hidle|].
    destruct (negb _ || negb _); [cbn [threw existsb]; now rewrite Hidle|reflexivity].
  - rewrite Hstart. destruct (masterFfmpeg s); [cbn [threw existsb]; now rewrite Hidle|].
    destruct (negb _ || negb _); [cbn [threw existsb]; now rewrite Hidle|reflexivity].
Qed.

(** Whatever the row holds, a poll that switches the stream on
    returns, with the playlist adopted and the index set from the
    checkpoint. *)
Lemma poll_start_returns (w : Host) (config : Config) (s : State) :
  is_active config = true -> isStreaming s = false ->
  exists s' effs,
    pollStreamConfig w (Some config) s = Some (s', effs) /\
    currentPlaylist s'
    = (if isArray (playlist config)
       then PArray (validPlaylist (cleanPlaylist w (playlist config)))
       else PNull) /\
    currentIndex s' = currentIndex (fst (fst (adoptPlaylist w config s))).
Proof.
  intros Ha Hs. destruct (isArray (playlist config)) eqn:Harr.
  - exact (poll_start_total w config s Ha Hs Harr).
  - assert (Epl : playlist config = PNull) by (destruct (playlist config); [reflexivity|discriminate]).
    assert (Hi : currentIndex (fst (fst (adoptPlaylist w config s))) = 0).
    { apply adoptPlaylist_notfound. intros saved _ _ v Hv.
      rewrite Epl in Hv. destruct Hv. }
    rewrite Hi, (poll_start_null w config s Ha Hs Epl).
    destruct (match stateFile s with Some saved => _ | None => false end);
      [now eexists _, _|].
    destruct (masterFfmpeg s); [now eexists _, _|].
    destruct (negb _ || negb _); now eexists _, _.
Qed.

Lemma isArray_false (p : Playlist) : isArray p = false -> p = PNull.
Proof. destruct p; [reflexivity|discriminate]. Qed.

(** The two outcomes of switching on with [null] in the row: nothing
    is started, or the master alone is. *)
Lemma poll_start_null_cases (w : Host) (config : Config) (s s' : State)
      (effs : list Effect) :
  is_active config = true -> isStreaming s = false -> playlist config = PNull ->
  pollStreamConfig w (Some config) s = Some (s', effs) ->
  currentPlaylist s' = PNull /\ currentIndex s' = 0 /\
  currentFeederProcess s' = currentFeederProcess s /\
  skipToTarget s' = skipToTarget s /\ stateFile s' = stateFile s /\
  ((effs = [] /\ isStreaming s' = false /\ masterFfmpeg s' = masterFfmpeg s /\
    masterStdin s' = masterStdin s) \/
   (effs = [SpawnMaster (masterArgsOf w config)] /\ isStreaming s' = true /\
    masterFfmpeg s' = Some (masterArgsOf w config) /\ masterStdin s' = true /\
    lastConfig s' = lastConfig s /\ masterFfmpeg s = None /\
    JS.truthy (rtmp_url config) = true /\ JS.truthy (stream_key config) = true)).
Proof.
  intros Ha Hs Epl. rewrite (poll_start_null w config s Ha Hs Epl).
  destruct (match stateFile s with Some saved => _ | None => false end).
  { intros [= <- <-]. cbn. repeat split; try assumption. left. now repeat split. }
  destruct (masterFfmpeg s) eqn:Hm.
  { intros [= <- <-]. cbn. repeat split; try assumption. left. now repeat split. }
  destruct (JS.truthy (rtmp_url config)); cbn [negb orb].
  2:{ intros [= <- <-]. cbn. repeat split; try assumption. left. now repeat split. }
  destruct (JS.truthy (stream_key config)); cbn [negb orb].
  2:{ intros [= <- <-]. cbn. repeat split; try assumption. left. now repeat split. }
  intros [= <- <-]. cbn. repeat split. right. now repeat split.
Qed.

(** C4 (as amended).  Resume checkpoint.  Whenever [playNextVideo]
    spawns a feeder it first attempts to write the checkpoint with the
    id of the entry it is putting on air (and the file holds it when
    the write succeeds).  When the stream is switched on and the first
    entry of the adopted playlist carrying the checkpointed id sits at
    index [i], the index is set to [(i + 1) mod L].  That index differs
    from [i] only when [L >= 2], and from 0 only when the entry is not
    the last one: the claim's "not at [i] itself and not at 0" does not
    hold without these conditions (lemma
    [resume_single_entry_replays]).  When no entry carries the id the
    index is 0.  If the master can be started (URL and key present,
    none running) the entry at that index is the one put on air. *)
Theorem resume_checkpoint (w : Host) (config : Config) (s : State) :
  let pl := validPlaylist (cleanPlaylist w (playlist config)) in
  let L := JS.length pl in
  let started (i : Z) (s' : State) (effs : list Effect) :=
    masterFfmpeg s = None -> JS.truthy (rtmp_url config) = true ->
    JS.truthy (stream_key config) = true -> pl <> [] ->
    exists effs', effs = SpawnMaster (masterArgsOf w config) :: effs' /\ onAir w s i s' effs' in
  (forall fuel s0 s' effs filePath,
     playNextVideo_rec w fuel s0 = Some (s', effs) -> In (SpawnFeeder filePath) effs ->
     exists v,
       JS.get (currentPlaylist s') (currentIndex s') = Some v /\
       effs = [SaveStreamState (mkSavedState (item_id v) (Date_now w)); SpawnFeeder filePath] /\
       (writeFileSync_ok w = true ->
        stateFile s' = Some (mkSavedState (item_id v) (Date_now w)))) /\
  (is_active config = true -> isStreaming s = false ->
   (forall saved i v,
      stateFile s = Some saved -> JS.truthy (lastPlayedVideoId saved) = true ->
      JS.get pl i = Some v -> item_id v = lastPlayedVideoId saved ->
      (forall j u, 0 <= j < i -> JS.get pl j = Some u -> item_id u <> lastPlayedVideoId saved) ->
      exists s' effs,
        pollStreamConfig w (Some config) s = Some (s', effs) /\
        currentPlaylist s' = pl /\
        currentIndex s' = (i + 1) mod L /\
        (2 <= L -> currentIndex s' <> i) /\
        (i + 1 < L -> currentIndex s' <> 0) /\
        started ((i + 1) mod L) s' effs) /\
   ((forall saved, stateFile s = Some saved ->
       JS.truthy (lastPlayedVideoId saved) = true ->
       forall v, In v pl -> item_id v <> lastPlayedVideoId saved) ->
    exists s' effs,
      pollStreamConfig w (Some config) s = Some (s', effs) /\
      (isArray (playlist config) = true -> currentPlaylist s' = pl) /\
      currentIndex s' = 0 /\
      started 0 s' effs)).
Proof.
  intros pl L started.
  assert (Hstarted : forall s' effs,
             pollStreamConfig w (Some config) s = Some (s', effs) ->
             is_active config = true -> isStreaming s = false ->
             started (currentIndex (fst (fst (adoptPlaylist w config s)))) s' effs).
  { intros s' effs Hrun Ha Hs Hm Hu Hk Hne.
    pose proof (validPlaylist_isArray w _ Hne) as Harr.
    destruct (poll_start_spawns w config s Ha Hs Hm Harr Hu Hk)
      as (s2 & effs2 & Hrun2 & _ & _ & _ & _ & _ & _ & Hcases).
    rewrite Hrun in Hrun2. injection Hrun2 as <- ->. exists effs2. split; [reflexivity|].
    destruct Hcases as [(Hnil & _)|(_ & Hair)]; [|exact Hair]. now destruct Hne. }
  split.
  - intros fuel s0 s' effs p Hrun Hin.
    destruct (playNextVideo_rec_outcome w fuel s0 s' effs Hrun) as (_ & Hcases).
    destruct Hcases as [(_ & -> & _)|[(_ & -> & _)|[(_ & -> & _)|Hair]]].
    + destruct Hin.
    + destruct Hin as [Hin|[]]. discriminate.
    + destruct Hin as [Hin|[]]. discriminate.
    + destruct Hair as (v & p' & _ & Hv & _ & _ & _ & _ & Hsf & ->).
      destruct Hin as [Hin|[Hin|[]]]; [discriminate|]. injection Hin as ->.
      exists v. split; [assumption|]. split; [reflexivity|].
      intros Hok. rewrite Hsf. unfold saveStreamState. now rewrite Hok.
  - intros Ha Hs. split.
    + intros saved i v Hsf Ht Hv Hid Hfirst.
      assert (Harr : isArray (playlist config) = true).
      { apply (validPlaylist_isArray w). intros E. fold pl in E. rewrite E in Hv.
        apply get_In in Hv. destruct Hv. }
      destruct (poll_start_total w config s Ha Hs Harr) as (s' & effs & Hrun & Hpl & Hidx).
      pose proof (adoptPlaylist_found w config s saved i v Hsf Ht Hv Hid Hfirst) as Hres.
      cbv zeta in Hres. fold pl L in Hres.
      pose proof (get_Some_range _ _ _ Hv) as Hr. fold L in Hr.
      exists s', effs. split; [assumption|]. split; [assumption|].
      rewrite Hidx, Hres. split; [reflexivity|]. split; [|split].
      * intros HL. destruct (Z.eq_dec (i + 1) L) as [E|E].
        -- rewrite E, Z.mod_same by lia. lia.
        -- rewrite Z.mod_small by lia. lia.
      * intros Hlt. rewrite Z.mod_small by lia. lia.
      * rewrite <- Hres. now apply Hstarted.
    + intros Hno.
      destruct (poll_start_returns w config s Ha Hs) as (s' & effs & Hrun & Hpl & Hidx).
      pose proof (adoptPlaylist_notfound w config s Hno) as Hres.
      exists s', effs. split; [assumption|].
      split; [intros Harr; now rewrite Harr in Hpl|].
      rewrite Hidx, Hres. split; [reflexivity|]. rewrite <- Hres. now apply Hstarted.
Qed.

(** The theorem on the playlist [A; B; C] with [C] checkpointed: the
    stream resumes at index 0, on [A]. *)
Lemma resume_checkpoint_witness :
  exists s' effs,
    pollStreamConfig (Scenario.host Scenario.allFiles)
      (Some (Scenario.config [Scenario.A; Scenario.B; Scenario.C]))
      (initialState (Some (mkSavedState (Some "c") 5))) = Some (s', effs) /\
    currentIndex s' = (2 + 1) mod 3 /\
    currentFeederProcess s' = Some Scenario.fileA.
Proof.
  destruct (resume_checkpoint (Scenario.host Scenario.allFiles)
              (Scenario.config [Scenario.A; Scenario.B; Scenario.C])
              (initialState (Some (mkSavedState (Some "c") 5)))) as (_ & H).
  destruct (H eq_refl eq_refl) as (Hfound & _).
  destruct (Hfound (mkSavedState (Some "c") 5) 2 Scenario.C eq_refl eq_refl eq_refl eq_refl)
    as (s' & effs & Hrun & Hpl & Hidx & _ & _ & Hstarted).
  - intros j u Hj Hu. assert (Hc : j = 0 \/ j = 1) by lia.
    destruct Hc as [-> | ->]; vm_compute in Hu; injection Hu as <-; discriminate.
  - exists s', effs. split; [exact Hrun|]. split; [exact Hidx|].
    destruct (Hstarted eq_refl eq_refl eq_refl) as (effs' & _ & Hair); [discriminate|].
    destruct Hair as (v & p & _ & Hv & Hp & _ & _ & Hf & _).
    rewrite Hpl in Hv. vm_compute in Hv. injection Hv as <-.
    vm_compute in Hp. injection Hp as <-. exact Hf.
Defined.

(** Counterexample to C4 as stated.  The playlist is [A] and the
    checkpoint names [A], which sits at index [i = 0]: the stream
    resumes at [(0 + 1) mod 1 = 0], that is at [i] itself and at 0, and
    the entry put on air is the checkpointed one. *)
Lemma resume_single_entry_replays :
  exists s' effs,
    JS.get (validPlaylist (cleanPlaylist (Scenario.host Scenario.allFiles)
                             (playlist (Scenario.config [Scenario.A])))) 0
    = Some Scenario.A /\
    item_id Scenario.A = lastPlayedVideoId (mkSavedState (Some "a") 5) /\
    pollStreamConfig (Scenario.host Scenario.allFiles)
      (Some (Scenario.config [Scenario.A]))
      (initialState (Some (mkSavedState (Some "a") 5))) = Some (s', effs) /\
    currentIndex s' = 0 /\
    In (SpawnFeeder Scenario.fileA) effs.
Proof.
  eexists _, _. split; [reflexivity|]. split; [reflexivity|].
  split; [vm_compute; reflexivity|]. split; [reflexivity|]. right. right. now left.
Qed.

(** *** Hot reload and pointer correction *)

Lemma poll_hotReload (w : Host) (config last : Config) (s : State) :
  isStreaming s = true -> is_active config = true -> lastConfig s = Some last ->
  criticalChanged config last = false ->
  JSON_stringify w (playlist last) <> JSON_stringify w (playlist config) ->
  pollStreamConfig w (Some config) s = Some (hotReload w config s, []).
Proof.
  intros Hs Ha Hl Hc Hj. rewrite poll_streaming by assumption.
  unfold runtimeUpdate. rewrite Hs, Ha, Hl, Hc. cbn [andb].
  apply String.eqb_neq in Hj. now rewrite Hj.
Qed.

(** Only an object entry can be matched by the pointer correction. *)
Lemma sameVideo_truthy (old v : Item) :
  sameVideo old v = true -> item_truthy (Some old) = true.
Proof.
  destruct old as [str|o]; [|reflexivity]. unfold sameVideo. cbn [item_id item_filename].
  destruct (item_id v) as [x|], (item_filename v) as [y|]; cbn;
    rewrite ?andb_false_r; discriminate.
Qed.

Lemma hotReload_found (w : Host) (config : Config) (s : State) (old : Item) :
  let new := validPlaylist (cleanPlaylist w (playlist config)) in
  JS.get (currentPlaylist s) (currentIndex s) = Some old ->
  (exists v, In v new /\ sameVideo old v = true) ->
  hotReload w config s
  = set_lastConfig (Some config)
      (set_currentIndex (JS.findIndex (sameVideo old) new) (set_currentPlaylist new s)).
Proof.
  intros new Hold (v & Hin & Hv). unfold hotReload.
  rewrite (isArray_get _ _ _ Hold), Hold. cbn [negb].
  rewrite (sameVideo_truthy old v Hv). cbn [currentPlaylist set_currentPlaylist orEmpty].
  fold new.
  destruct (Z.eqb_spec (JS.findIndex (sameVideo old) new) (-1)) as [E|E]; [|reflexivity].
  rewrite findIndex_none in E. specialize (E v Hin). congruence.
Qed.

Lemma hotReload_removed (w : Host) (config : Config) (s : State) (old : Item) :
  let new := validPlaylist (cleanPlaylist w (playlist config)) in
  JS.get (currentPlaylist s) (currentIndex s) = Some old ->
  item_truthy (Some old) = true ->
  (forall v, In v new -> sameVideo old v = false) ->
  hotReload w config s
  = set_lastConfig (Some config)
      (set_currentIndex (if currentIndex s >=? JS.length new then 0 else currentIndex s)
         (set_currentPlaylist new s)).
Proof.
  intros new Hold Ht Hno. unfold hotReload.
  rewrite (isArray_get _ _ _ Hold), Hold, Ht. cbn [negb].
  cbn [currentPlaylist currentIndex set_currentPlaylist orEmpty]. fold new.
  apply findIndex_none in Hno. rewrite Hno. cbn [Z.eqb negb].
  destruct (currentIndex s >=? JS.length new); [reflexivity|]. now destruct s.
Qed.

Lemma hotReload_no_entry (w : Host) (config : Config) (s : State) :
  isArray (currentPlaylist s) = true ->
  item_truthy (JS.get (currentPlaylist s) (currentIndex s)) = false ->
  hotReload w config s
  = set_lastConfig (Some config)
      (set_currentPlaylist (validPlaylist (cleanPlaylist w (playlist config))) s).
Proof.
  intros Harr H. unfold hotReload. now rewrite Harr, H.
Qed.

(** On a [null] playlist the hot reload throws before it changes
    anything. *)
Lemma hotReload_null (w : Host) (config : Config) (s : State) :
  isArray (currentPlaylist s) = false -> hotReload w config s = s.
Proof. intros H. unfold hotReload. now rewrite H. Qed.




(** C6. Removal scenario.  With the playlist [A; B; C] and the index on
    [B], a config update whose playlist is [A; C] (both files present,
    neither entry matching [B]) finds no match and keeps
    [currentIndex = 1], which is inside the new two-entry list, so
    nothing is clamped; the next natural advance increments it to 2,
    the sanity check resets it to 0, and the entry put on air is [A]. *)
Theorem removal_scenario (w : Host) (A B C : Item) (config last : Config) (s : State) :
  isStreaming s = true -> masterStdin s = true -> skipToTarget s = false ->
  currentPlaylist s = [A; B; C] -> currentIndex s = 1 ->
  lastConfig s = Some last -> is_active config = true ->
  criticalChanged config last = false ->
  JSON_stringify w (playlist last) <> JSON_stringify w (playlist config) ->
  playlist config = [A; C] -> playable w A = true -> playable w C = true ->
  item_truthy (Some B) = true -> sameVideo B A = false -> sameVideo B C = false ->
  exists s1,
    pollStreamConfig w (Some config) s = Some (s1, []) /\
    currentPlaylist s1 = [A; C] /\ currentIndex s1 = 1 /\
    currentFeederProcess s1 = currentFeederProcess s /\
    exists s2 effs,
      feederClose w (Some 0) s1 = Some (s2, effs) /\
      onAir w s1 0 s2 effs /\
      JS.get (currentPlaylist s2) (currentIndex s2) = Some A.
Proof.
  intros Hs Hm Hk Hpl Hi Hl Ha Hc Hj Hnew HA HC HB HBA HBC.
  assert (Hvalid : validPlaylist (cleanPlaylist w (playlist config)) = [A; C]).
  { rewrite validPlaylist_filter, Hnew. cbn [filter orEmpty]. now rewrite HA, HC. }
  rewrite (poll_hotReload w config last s Hs Ha Hl Hc Hj).
  rewrite (hotReload_removed w config s B).
  2:{ now rewrite Hpl, Hi. }
  2:{ exact HB. }
  2:{ rewrite Hvalid. intros v [<-|[<-|[]]]; assumption. }
  rewrite Hvalid, Hi. change (1 >=? JS.length [A; C]) with false. cbv iota.
  eexists. split; [reflexivity|]. split; [reflexivity|]. split; [reflexivity|].
  split; [reflexivity|].
  set (s1 := set_lastConfig (Some config) (set_currentIndex 1 (set_currentPlaylist [A; C] s))).
  unfold feederClose. cbn [skipToTarget s1 set_lastConfig set_currentIndex set_currentPlaylist].
  rewrite Hk. cbn [Z.eqb].
  destruct (playNextVideo_plays w (set_currentIndex (currentIndex s1 + 1) s1) A)
    as (s2 & effs & Hrun & Hsame & Hair); try assumption; try reflexivity.
  exists s2, effs. split; [exact Hrun|].
  change (currentIndex (sanityCheck (set_currentIndex (currentIndex s1 + 1) s1))) with 0 in Hair.
  split; [apply (onAir_pre w (set_currentIndex (currentIndex s1 + 1) s1)); [reflexivity|exact Hair]|].
  destruct Hair as (v & p & _ & Hv & _ & _ & Hidx & _).
  destruct Hsame as (_ & _ & _ & Ep & _). rewrite Hidx, Ep. reflexivity.
Qed.

Lemma removal_scenario_witness :
  exists s1 s2 effs,
    pollStreamConfig (Scenario.host Scenario.allFiles)
      (Some (Scenario.config [Scenario.A; Scenario.C]))
      (Scenario.streaming [Scenario.A; Scenario.B; Scenario.C] 1 Scenario.fileB)
    = Some (s1, []) /\
    currentIndex s1 = 1 /\
    feederClose (Scenario.host Scenario.allFiles) (Some 0) s1 = Some (s2, effs) /\
    JS.get (currentPlaylist s2) (currentIndex s2) = Some Scenario.A.
Proof.
  destruct (removal_scenario (Scenario.host Scenario.allFiles)
              Scenario.A Scenario.B Scenario.C
              (Scenario.config [Scenario.A; Scenario.C])
              (Scenario.config [Scenario.A; Scenario.B; Scenario.C])
              (Scenario.streaming [Scenario.A; Scenario.B; Scenario.C] 1 Scenario.fileB))
    as (s1 & Hrun & _ & Hidx & _ & s2 & effs & Hclose & _ & Hsel); try reflexivity.
  - vm_compute. discriminate.
  - exists s1, s2, effs. repeat split; assumption.
Defined.

(** C6, as stated, on the catalogue entries [A], [B], [C]: after the
    update the index is 1, not 0, and the next natural advance puts
    [A] on air, not [C]. *)
Lemma removal_scenario_as_stated_fails :
  exists s1 s2 effs,
    pollStreamConfig (Scenario.host Scenario.allFiles)
      (Some (Scenario.config [Scenario.A; Scenario.C]))
      (Scenario.streaming [Scenario.A; Scenario.B; Scenario.C] 1 Scenario.fileB)
    = Some (s1, []) /\
    currentIndex s1 = 1 /\ currentIndex s1 <> 0 /\
    feederClose (Scenario.host Scenario.allFiles) (Some 0) s1 = Some (s2, effs) /\
    currentIndex s2 = 0 /\
    In (SpawnFeeder Scenario.fileA) effs /\ ~ In (SpawnFeeder Scenario.fileC) effs.
Proof.
  eexists _, _, _. split; [vm_compute; reflexivity|].
  split; [reflexivity|]. split; [discriminate|].
  split; [vm_compute; reflexivity|]. split; [reflexivity|]. split.
  - right. left. reflexivity.
  - intros [H|[H|[]]]; discriminate.
Qed.

(** ** The index at the moment of use *)

Lemma killFeeder_effects (s : State) (e : Effect) : In e (killFeeder s) -> e = KillFeeder.
Proof.
  unfold killFeeder. destruct (currentFeederProcess s); [|intros []].
  intros [H|[]]. now symmetry.
Qed.

Lemma stopStream_effects (s : State) (e : Effect) :
  In e (snd (stopStream s)) -> e = KillFeeder \/ e = KillMaster.
Proof.
  unfold stopStream. cbn [masterFfmpeg set_currentFeederProcess].
  destruct (masterFfmpeg s); cbn [snd]; intros H; apply in_app_or in H;
    destruct H as [H|H]; try (left; eapply killFeeder_effects, H).
  - destruct H as [H|[]]. now right.
  - destruct H.
Qed.

Lemma playNextVideo_rec_feeds (w : Host) (fuel : nat) (s s' : State)
      (effs : list Effect) (filePath : string) :
  playNextVideo_rec w fuel s = Some (s', effs) -> In (SpawnFeeder filePath) effs ->
  feedsSelected w s' filePath.
Proof.
  intros Hrun Hin.
  destruct (playNextVideo_rec_outcome w fuel s s' effs Hrun) as (_ & Hcases).
  destruct Hcases as [(_ & -> & _)|[(_ & -> & _)|[(_ & -> & _)|Hair]]].
  - destruct Hin.
  - destruct Hin as [Hin|[]]. discriminate.
  - destruct Hin as [Hin|[]]. discriminate.
  - destruct Hair as (v & p & Hr & Hv & Hp & _ & _ & _ & _ & ->).
    destruct Hin as [Hin|[Hin|[]]]; [discriminate|]. injection Hin as ->.
    split; [exact Hr|]. exists v. now split.
Qed.

Lemma feedsSelected_set_lastConfig (w : Host) (c : option Config) (s : State) (p : string) :
  feedsSelected w s p -> feedsSelected w (set_lastConfig c s) p.
Proof. trivial. Qed.

Lemma pollStreamConfig_feeds (w : Host) (fetched : option Config) (s s' : State)
      (effs : list Effect) (filePath : string) :
  pollStreamConfig w fetched s = Some (s', effs) -> In (SpawnFeeder filePath) effs ->
  feedsSelected w s' filePath.
Proof.
  destruct fetched as [config|]; [|intros [= <- <-] []].
  destruct (is_active config) eqn:Ha, (isStreaming s) eqn:Hs.
  - rewrite poll_streaming by assumption. unfold runtimeUpdate. rewrite Hs, Ha. cbn [andb].
    destruct (lastConfig s) as [last|]; [|intros [= <- <-] []].
    destruct (criticalChanged config last).
    + intros [= E] Hin. replace effs with (snd (stopStream s)) in Hin by now rewrite E.
      apply stopStream_effects in Hin. destruct Hin; discriminate.
    + destruct (negb _); intros [= <- <-] [].
  - destruct (isArray (playlist config)) eqn:Harr.
    2:{ intros Hrun Hin. apply isArray_false in Harr.
        destruct (poll_start_null_cases w config s s' effs Ha Hs Harr Hrun)
          as (_ & _ & _ & _ & _ & [(-> & _)|(-> & _)]); [destruct Hin|].
        destruct Hin as [Hin|[]]. discriminate. }
    rewrite poll_start by assumption. unfold startMasterStream.
    destruct (masterFfmpeg _); [intros [= <- <-] []|].
    destruct (negb _ || negb _); [intros [= <- <-] []|].
    destruct (playNextVideo w _) as [[s2 e2]|] eqn:Hplay; [|discriminate].
    intros [= <- <-] [Hin|Hin]; [discriminate|].
    apply feedsSelected_set_lastConfig. eapply playNextVideo_rec_feeds; eassumption.
  - unfold pollStreamConfig. rewrite Ha, Hs. cbn [negb andb].
    intros [= E] Hin. replace effs with (snd (stopStream s)) in Hin by now rewrite E.
    apply stopStream_effects in Hin. destruct Hin; discriminate.
  - unfold pollStreamConfig, runtimeUpdate. rewrite Ha, Hs. cbn [negb andb].
    intros [= <- <-] [].
Qed.

Lemma controlSkip_effects (direction : option string) (s : State) (e : Effect) :
  In e (snd (controlSkip direction s)) ->
  e = KillFeeder \/ exists status body, e = Respond status body.
Proof.
  assert (Hto : forall s1, In e (snd (skipTo s1)) ->
                  e = KillFeeder \/ exists status body, e = Respond status body).
  { intros s1 Hin. unfold skipTo in Hin. cbn [snd] in Hin. apply in_app_or in Hin.
    destruct Hin as [Hin|[<-|[]]]; [|eauto]. left. eapply killFeeder_effects, Hin. }
  unfold controlSkip.
  destruct (negb (isStreaming s)); [intros [<-|[]]; eauto|].
  destruct (negb (JS.truthy direction) || _); [intros [<-|[]]; eauto|].
  destruct (JS.seq direction (Some "next")).
  - destruct (negb (isArray _)); [intros [<-|[]]; eauto|apply Hto].
  - destruct (_ <? 0); [|apply Hto].
    destruct (negb (isArray _)); [intros [<-|[]]; eauto|apply Hto].
Qed.

(** Whatever the event, a feeder is only ever spawned on the entry that
    [currentIndex] selects, and the index is then inside the playlist. *)
Lemma handle_feeds (w : Host) (e : Event) (s s' : State)
      (effs : list Effect) (filePath : string) :
  handle w e s = Some (s', effs) -> In (SpawnFeeder filePath) effs ->
  feedsSelected w s' filePath.
Proof.
  destruct e as [fetched|direction|code| | |]; cbn [handle].
  - apply pollStreamConfig_feeds.
  - intros [= E] Hin. replace effs with (snd (controlSkip direction s)) in Hin by now rewrite E.
    apply controlSkip_effects in Hin. destruct Hin as [H|(st & b & H)]; discriminate.
  - unfold feederClose. destruct (skipToTarget s); [apply playNextVideo_rec_feeds|].
    destruct code as [c|]; [|intros [= <- <-] []].
    destruct (c =? 0); [apply playNextVideo_rec_feeds|].
    intros [= <- <-] [H|[]]. discriminate.
  - unfold feederError. intros [= <- <-] Hin. apply in_app_or in Hin.
    destruct Hin as [Hin|[Hin|[]]]; [apply killFeeder_effects in Hin|]; discriminate.
  - unfold masterClose. intros [= <- <-] Hin. apply killFeeder_effects in Hin. discriminate.
  - apply playNextVideo_rec_feeds.
Qed.

Lemma hotReload_range (w : Host) (config : Config) (s : State) (old : Item) :
  let new := validPlaylist (cleanPlaylist w (playlist config)) in
  JS.get (currentPlaylist s) (currentIndex s) = Some old ->
  item_truthy (Some old) = true ->
  currentPlaylist (hotReload w config s) = new /\
  (new <> [] ->
   0 <= currentIndex (hotReload w config s) < JS.length new).
Proof.
  intros new Hold Ht. unfold hotReload. rewrite (isArray_get _ _ _ Hold), Hold, Ht.
  cbn [negb currentPlaylist currentIndex set_currentPlaylist orEmpty]. fold new.
  pose proof (findIndex_range (sameVideo old) new) as Hf.
  pose proof (get_Some_range _ _ _ Hold) as Hr.
  destruct (Z.eqb_spec (JS.findIndex (sameVideo old) new) (-1)) as [E|E]; cbn [negb].
  - destruct (Z.geb_spec (currentIndex s) (JS.length new)); cbn; (split; [reflexivity|]);
      intros Hne; destruct new; try congruence; rewrite length_cons in *;
      pose proof (length_nonneg new); lia.
  - cbn. split; [reflexivity|]. intros _. lia.
Qed.

(** C9. Index invariant.  Whatever the state and the event, a feeder is
    only spawned on the entry that [currentIndex] selects, at an index
    inside the playlist: [playNextVideo] re-clamps the index of a
    non-empty playlist before using it.  A playlist replacement made
    while [currentIndex] selects an entry leaves the index inside the
    new playlist when that one is not empty, whether the entry was
    found again or removed.  A replacement made while the index selects
    nothing (it is transiently out of range) leaves the index as it
    is.  (The replacement is the hot reload of an array in memory; on a
    [null] playlist it throws and replaces nothing.) *)
Theorem index_in_range (w : Host) (config last : Config) (s : State) :
  let new := validPlaylist (cleanPlaylist w (playlist config)) in
  (forall e s0 s' effs filePath,
     handle w e s0 = Some (s', effs) -> In (SpawnFeeder filePath) effs ->
     feedsSelected w s' filePath) /\
  (forall s0, JS.length (currentPlaylist s0) <> 0 ->
     0 <= currentIndex (sanityCheck s0) < JS.length (currentPlaylist s0)) /\
  (isStreaming s = true -> is_active config = true -> lastConfig s = Some last ->
   criticalChanged config last = false ->
   JSON_stringify w (playlist last) <> JSON_stringify w (playlist config) ->
   isArray (currentPlaylist s) = true ->
   exists s',
     pollStreamConfig w (Some config) s = Some (s', []) /\
     currentPlaylist s' = new /\
     (forall old, JS.get (currentPlaylist s) (currentIndex s) = Some old ->
        item_truthy (Some old) = true -> new <> [] ->
        0 <= currentIndex s' < JS.length new) /\
     (item_truthy (JS.get (currentPlaylist s) (currentIndex s)) = false ->
        currentIndex s' = currentIndex s)).
Proof.
  intros new. split; [apply handle_feeds|]. split; [apply sanityCheck_range|].
  intros Hs Ha Hl Hc Hj Harr. rewrite (poll_hotReload w config last s Hs Ha Hl Hc Hj).
  eexists. split; [reflexivity|]. split; [|split].
  - unfold hotReload. rewrite Harr. cbn [negb]. destruct (item_truthy _); [|reflexivity].
    destruct (JS.get _ _); [|reflexivity]. cbn [currentPlaylist set_currentPlaylist].
    destruct (negb _); [reflexivity|]. now destruct (_ >=? _).
  - intros old Hold Ht Hne. now apply (hotReload_range w config s old).
  - intros Hf. now rewrite hotReload_no_entry.
Qed.

(** The theorem where [B], playing at index 1 of [A; B], is removed by
    a new playlist [C]: the index is clamped to 0. *)
Lemma index_in_range_witness :
  exists s',
    pollStreamConfig (Scenario.host Scenario.allFiles) (Some (Scenario.config [Scenario.C]))
      (Scenario.streaming [Scenario.A; Scenario.B] 1 Scenario.fileB) = Some (s', []) /\
    currentPlaylist s' = [Scenario.C] /\
    0 <= currentIndex s' < 1.
Proof.
  destruct (index_in_range (Scenario.host Scenario.allFiles) (Scenario.config [Scenario.C])
              (Scenario.config [Scenario.A; Scenario.B])
              (Scenario.streaming [Scenario.A; Scenario.B] 1 Scenario.fileB))
    as (_ & _ & H).
  destruct H as (s' & Hrun & Hpl & Hrange & _); try reflexivity.
  - vm_compute. discriminate.
  - exists s'. split; [exact Hrun|]. split; [exact Hpl|].
    apply (Hrange Scenario.B); [reflexivity|reflexivity|discriminate].
Defined.

(** C9, as stated, after a playlist replacement: the feeder of the only
    entry [A] fails (exit code 1), which increments the index to 1 and
    arms the retry timer; a poll arriving before the timer replaces the
    playlist by [B]; the playlist is not empty and the index, 1, is
    outside it. *)
Lemma index_out_of_range_after_replacement :
  exists s0 effs0 s effs,
    run (Scenario.host Scenario.allFiles)
      [Poll (Some (Scenario.config [Scenario.A])); FeederClose (Some 1)]
      (initialState None) = Some (s0, effs0) /\
    isStreaming s0 = true /\ currentPlaylist s0 = [Scenario.A] /\
    JS.get (currentPlaylist s0) (currentIndex s0) = None /\
    handle (Scenario.host Scenario.allFiles) (Poll (Some (Scenario.config [Scenario.B]))) s0
    = Some (s, effs) /\
    isStreaming s = true /\ currentPlaylist s = [Scenario.B] /\
    currentIndex s = 1 /\
    ~ (0 <= currentIndex s < JS.length (currentPlaylist s)).
Proof.
  eexists _, _, _, _. split; [vm_compute; reflexivity|].
  split; [reflexivity|]. split; [reflexivity|]. split; [reflexivity|].
  split; [vm_compute; reflexivity|]. split; [reflexivity|]. split; [reflexivity|].
  split; [reflexivity|]. cbn. unfold JS.length. cbn. lia.
Qed.

(** ** Restart on a critical change *)

Lemma stopStream_spec (s : State) :
  stopStream s
  = (set_isStreaming false
       (match masterFfmpeg s with
        | Some _ => set_masterStdin false (set_masterFfmpeg None (set_currentFeederProcess None s))
        | None => set_currentFeederProcess None s
        end),
     (killFeeder s ++ match masterFfmpeg s with Some _ => [KillMaster] | None => [] end)%list).
Proof.
  unfold stopStream. cbn [masterFfmpeg set_currentFeederProcess].
  now destruct (masterFfmpeg s).
Qed.

Lemma stopStream_idle (s : State) :
  isStreaming (fst (stopStream s)) = false /\
  masterFfmpeg (fst (stopStream s)) = None /\
  currentFeederProcess (fst (stopStream s)) = None /\
  currentPlaylist (fst (stopStream s)) = currentPlaylist s /\
  currentIndex (fst (stopStream s)) = currentIndex s /\
  stateFile (fst (stopStream s)) = stateFile s.
Proof.
  rewrite stopStream_spec. cbn [fst]. destruct (masterFfmpeg s) eqn:E; cbn; now rewrite ?E.
Qed.

Lemma criticalChanged_true (config last : Config) :
  stream_key config <> stream_key last \/
  rtmp_url config <> rtmp_url last \/
  audio_overlay_enabled config <> audio_overlay_enabled last \/
  audio_volume config <> audio_volume last \/
  audio_file config <> audio_file last ->
  criticalChanged config last = true.
Proof.
  intros H. destruct (criticalChanged config last) eqn:E; [reflexivity|].
  apply criticalChanged_false in E. tauto.
Qed.

(** C5. Critical-field restart.  While streaming, a polled config whose
    stream key, RTMP URL, or audio overlay settings (enabled, volume,
    file) differ from the last applied config makes the handler stop
    the stream: feeder and master are killed, the handles are cleared,
    [isStreaming] is false, and the playlist and the index are left as
    they were (no hot reload).  The next poll then finds the engine
    idle and, URL and key being present and the row's playlist being
    an array, spawns a master with the arguments of the new config
    (what a [null] playlist does to a start is the matter of C8).  The
    bitrate is not among the compared
    fields: a config equal to the last applied one in everything else
    changes nothing, whatever its bitrate. *)
Theorem critical_change_restarts (w w' : Host) (config last : Config) (s : State) :
  isStreaming s = true -> is_active config = true -> lastConfig s = Some last ->
  (stream_key config <> stream_key last \/
   rtmp_url config <> rtmp_url last \/
   audio_overlay_enabled config <> audio_overlay_enabled last \/
   audio_volume config <> audio_volume last \/
   audio_file config <> audio_file last ->
   exists s1 effs,
     pollStreamConfig w (Some config) s = Some (s1, effs) /\
     isStreaming s1 = false /\ masterFfmpeg s1 = None /\ currentFeederProcess s1 = None /\
     currentPlaylist s1 = currentPlaylist s /\ currentIndex s1 = currentIndex s /\
     (forall m, masterFfmpeg s = Some m -> In KillMaster effs) /\
     (forall f, currentFeederProcess s = Some f -> In KillFeeder effs) /\
     (forall e, In e effs -> e = KillFeeder \/ e = KillMaster) /\
     (JS.truthy (rtmp_url config) = true -> JS.truthy (stream_key config) = true ->
      isArray (playlist config) = true ->
      exists s2 effs2,
        pollStreamConfig w' (Some config) s1
        = Some (s2, SpawnMaster (masterArgsOf w' config) :: effs2) /\
        isStreaming s2 = true /\ masterFfmpeg s2 = Some (masterArgsOf w' config))) /\
  (forall b,
     pollStreamConfig w
       (Some (mkConfig true (rtmp_url last) (stream_key last) b (audio_overlay_enabled last)
                       (audio_volume last) (audio_file last) (playlist last))) s
     = Some (s, [])).
Proof.
  intros Hs Ha Hl. split.
  - intros Hdiff. rewrite poll_streaming by assumption. unfold runtimeUpdate.
    rewrite Hs, Ha, Hl, (criticalChanged_true config last Hdiff). cbn [andb].
    destruct (stopStream_idle s) as (H1 & H2 & H3 & H4 & H5 & H6).
    exists (fst (stopStream s)), (snd (stopStream s)).
    split; [now destruct (stopStream s)|]. repeat split; try assumption.
    + intros m Hm. rewrite stopStream_spec, Hm. cbn [snd]. apply in_or_app. right. now left.
    + intros f Hf. rewrite stopStream_spec. cbn [snd]. apply in_or_app. left.
      unfold killFeeder. rewrite Hf. now left.
    + apply stopStream_effects.
    + intros Hu Hk Harr.
      destruct (poll_start_spawns w' config (fst (stopStream s)) Ha H1 H2 Harr Hu Hk)
        as (s2 & effs2 & Hrun & Hst & Hm & _).
      exists s2, effs2. now repeat split.
  - intros b. rewrite poll_streaming by (try reflexivity; assumption).
    unfold runtimeUpdate. rewrite Hs, Hl. cbn [is_active andb].
    replace (criticalChanged _ last) with false
      by (symmetry; apply criticalChanged_false; now repeat split).
    cbn [playlist]. now rewrite String.eqb_refl.
Qed.

(** The stream key is rotated while [A] is on air. *)
Lemma critical_change_restarts_witness :
  let s := Scenario.streaming [Scenario.A; Scenario.B] 0 Scenario.fileA in
  let config := mkConfig true (Some "rtmp://a.rtmp.example/live2") (Some "key2")
                         None None None None [Scenario.A; Scenario.B] in
  exists s1 effs,
    pollStreamConfig (Scenario.host Scenario.allFiles) (Some config) s = Some (s1, effs) /\
    isStreaming s1 = false /\ In KillMaster effs /\ In KillFeeder effs.
Proof.
  intros s config.
  destruct (critical_change_restarts (Scenario.host Scenario.allFiles)
              (Scenario.host Scenario.allFiles) config
              (Scenario.config [Scenario.A; Scenario.B]) s eq_refl eq_refl eq_refl)
    as (H & _).
  destruct H as (s1 & effs & Hrun & Hidle & _ & _ & _ & _ & Hm & Hf & _).
  - left. discriminate.
  - exists s1, effs. split; [exact Hrun|]. split; [exact Hidle|].
    split; [exact (Hm _ eq_refl)|exact (Hf _ eq_refl)].
Defined.

(** C5, as stated, for the bitrate: the polled config differs from the
    last applied one in its bitrate only, and the poll leaves the
    stream running, master and feeder untouched. *)
Lemma bitrate_change_does_not_restart :
  let s := Scenario.streaming [Scenario.A; Scenario.B] 0 Scenario.fileA in
  let config := mkConfig true (Some "rtmp://a.rtmp.example/live2") (Some "key")
                         (Some 4000) None None None [Scenario.A; Scenario.B] in
  lastConfig s = Some (Scenario.config [Scenario.A; Scenario.B]) /\
  bitrate config <> bitrate (Scenario.config [Scenario.A; Scenario.B]) /\
  pollStreamConfig (Scenario.host Scenario.allFiles) (Some config) s = Some (s, []) /\
  isStreaming s = true /\ masterFfmpeg s <> None.
Proof.
  cbv zeta. split; [reflexivity|]. split; [discriminate|].
  split; [vm_compute; reflexivity|]. split; [reflexivity|discriminate].
Qed.

(** ** Configuration errors at start *)

(** A start without URL or key spawns nothing, whatever the row's
    playlist. *)
Lemma poll_start_missing (w : Host) (config : Config) (s : State) :
  is_active config = true -> isStreaming s = false -> masterFfmpeg s = None ->
  JS.truthy (rtmp_url config) = false \/ JS.truthy (stream_key config) = false ->
  exists s1,
    pollStreamConfig w (Some config) s = Some (s1, []) /\
    isStreaming s1 = false /\ masterFfmpeg s1 = None.
Proof.
  intros Ha Hs Hm Hmiss. destruct (isArray (playlist config)) eqn:Harr.
  - rewrite (poll_start_blocked w config s Ha Hs Harr Hmiss).
    eexists. split; [reflexivity|]. cbn [isStreaming masterFfmpeg set_lastConfig].
    rewrite adoptPlaylist_state by assumption. now split.
  - apply isArray_false in Harr.
    destruct (pollStreamConfig w (Some config) s) as [[s1 effs]|] eqn:Hrun.
    2:{ destruct (poll_start_returns w config s Ha Hs) as (s' & e' & H & _). congruence. }
    destruct (poll_start_null_cases w config s s1 effs Ha Hs Harr Hrun)
      as (_ & _ & _ & _ & _ & [(-> & H1 & H2 & _)|(_ & _ & _ & _ & _ & _ & Hu & Hk)]).
    + exists s1. split; [reflexivity|]. split; [exact H1|]. now rewrite H2.
    + destruct Hmiss; congruence.
Qed.

(** C8 (as amended).  Configuration errors.  When the stream is
    switched on with the RTMP URL or the stream key missing, the poll
    spawns nothing and [isStreaming] stays false; the engine being
    still idle, the next poll goes through the start again and, once
    URL and key are present (with an array in the row), spawns the
    master.  An empty playlist does not block the start.  With URL and
    key present and an array that cleaning leaves empty, the master is
    spawned and [isStreaming] becomes true, with no feeder;
    [playNextVideo] only arms its 2000 ms retry timer, and does so
    again each time the timer fires while the playlist is empty.  With
    [null] in the row, whose cleaned playlist is empty too, [null]
    itself is adopted.  If no video is checkpointed the master is
    spawned and [isStreaming] becomes true, then [playNextVideo] throws
    on [currentPlaylist.length]: no feeder, no retry timer, and
    [lastConfig] is not set, so that on an engine with no earlier
    config every later poll of an active row throws in turn and changes
    nothing.  If a video is checkpointed the smart restart throws
    first: nothing is spawned, [isStreaming] stays false, and the next
    poll of the row does the same again. *)
Theorem start_configuration_errors (w w' : Host) (config config' : Config) (s : State) :
  is_active config = true -> isStreaming s = false -> masterFfmpeg s = None ->
  (JS.truthy (rtmp_url config) = false \/ JS.truthy (stream_key config) = false ->
   exists s1,
     pollStreamConfig w (Some config) s = Some (s1, []) /\
     isStreaming s1 = false /\ masterFfmpeg s1 = None /\
     (is_active config' = true ->
      JS.truthy (rtmp_url config') = true -> JS.truthy (stream_key config') = true ->
      isArray (playlist config') = true ->
      exists s2 effs,
        pollStreamConfig w' (Some config') s1
        = Some (s2, SpawnMaster (masterArgsOf w' config') :: effs) /\
        isStreaming s2 = true)) /\
  (JS.truthy (rtmp_url config) = true -> JS.truthy (stream_key config) = true ->
   isArray (playlist config) = true ->
   validPlaylist (cleanPlaylist w (playlist config)) = [] ->
   exists s1,
     pollStreamConfig w (Some config) s
     = Some (s1, [SpawnMaster (masterArgsOf w config); SetTimeout 2000]) /\
     isStreaming s1 = true /\ masterFfmpeg s1 = Some (masterArgsOf w config) /\
     currentFeederProcess s1 = currentFeederProcess s /\
     currentPlaylist s1 = [] /\
     playNextVideo w s1 = Some (s1, [SetTimeout 2000])) /\
  (JS.truthy (rtmp_url config) = true -> JS.truthy (stream_key config) = true ->
   playlist config = PNull ->
   validPlaylist (cleanPlaylist w (playlist config)) = [] /\
   ((forall saved, stateFile s = Some saved -> JS.truthy (lastPlayedVideoId saved) = false) ->
    exists s1,
      pollStreamConfig w (Some config) s = Some (s1, [SpawnMaster (masterArgsOf w config)]) /\
      isStreaming s1 = true /\ masterFfmpeg s1 = Some (masterArgsOf w config) /\
      currentFeederProcess s1 = currentFeederProcess s /\
      currentPlaylist s1 = PNull /\ lastConfig s1 = lastConfig s /\
      playNextVideo w s1 = Some (s1, [Throw]) /\
      (lastConfig s = None -> is_active config' = true ->
       pollStreamConfig w' (Some config') s1 = Some (s1, []))) /\
   (forall saved, stateFile s = Some saved -> JS.truthy (lastPlayedVideoId saved) = true ->
    exists s1,
      pollStreamConfig w (Some config) s = Some (s1, []) /\
      isStreaming s1 = false /\ masterFfmpeg s1 = None /\
      currentPlaylist s1 = PNull /\
      pollStreamConfig w (Some config) s1 = Some (s1, []))).
Proof.
  intros Ha Hs Hm. split; [|split].
  - intros Hmiss.
    destruct (poll_start_missing w config s Ha Hs Hm Hmiss) as (s1 & Hrun & H1 & H2).
    exists s1. split; [exact Hrun|]. split; [exact H1|]. split; [exact H2|].
    intros Ha' Hu' Hk' Harr'.
    destruct (poll_start_spawns w' config' _ Ha' H1 H2 Harr' Hu' Hk')
      as (s2 & effs & Hrun2 & Hst & _).
    exists s2, effs. now split.
  - intros Hu Hk Harr Hempty.
    destruct (poll_start_spawns w config s Ha Hs Hm Harr Hu Hk)
      as (s1 & effs & Hrun & Hst & Hma & Hsi & Hpl & _ & _ & Hcases).
    rewrite Hempty in Hpl, Hcases.
    destruct Hcases as [(_ & -> & _ & Hf)|(Hne & _)]; [|now destruct Hne].
    exists s1. split; [exact Hrun|]. repeat split; try assumption.
    unfold playNextVideo. rewrite Hpl. cbn [List.length orEmpty playNextVideo_rec].
    now rewrite Hst, Hsi, Hpl.
  - intros Hu Hk Epl. split; [now rewrite Epl|]. split.
    + intros Hno. rewrite (poll_start_null w config s Ha Hs Epl), Hm, Hu, Hk.
      replace (match stateFile s with Some saved => _ | None => false end) with false
        by (destruct (stateFile s) as [saved|]; [symmetry; now apply Hno|reflexivity]).
      cbn [negb orb]. eexists. split; [reflexivity|].
      do 6 (split; [reflexivity|]).
      intros Hl Ha'. rewrite poll_streaming by (assumption || reflexivity).
      unfold runtimeUpdate.
      cbn [isStreaming lastConfig set_isStreaming set_masterStdin set_masterFfmpeg
           set_currentIndex set_currentPlaylist].
      now rewrite Ha', Hl.
    + intros saved Hsf Ht. rewrite (poll_start_null w config s Ha Hs Epl), Hsf, Ht.
      eexists. split; [reflexivity|]. cbn [isStreaming masterFfmpeg currentPlaylist
        set_currentIndex set_currentPlaylist]. repeat split; try assumption.
      rewrite poll_start_null by assumption.
      cbn [stateFile set_currentIndex set_currentPlaylist]. now rewrite Hsf, Ht.
Qed.

(** The stream is switched on without a stream key, then with one. *)
Lemma start_configuration_errors_witness :
  let noKey := mkConfig true (Some "rtmp://a.rtmp.example/live2") None
                        None None None None [Scenario.A] in
  exists s1 s2 effs,
    pollStreamConfig (Scenario.host Scenario.allFiles) (Some noKey) (initialState None)
    = Some (s1, []) /\
    isStreaming s1 = false /\
    pollStreamConfig (Scenario.host Scenario.allFiles) (Some (Scenario.config [Scenario.A])) s1
    = Some (s2, SpawnMaster Scenario.master :: effs) /\
    isStreaming s2 = true.
Proof.
  intros noKey.
  destruct (start_configuration_errors (Scenario.host Scenario.allFiles)
              (Scenario.host Scenario.allFiles) noKey (Scenario.config [Scenario.A])
              (initialState None) eq_refl eq_refl eq_refl) as (H & _).
  destruct (H (or_intror eq_refl)) as (s1 & Hrun & Hidle & _ & Hnext).
  destruct (Hnext eq_refl eq_refl eq_refl eq_refl) as (s2 & effs & Hrun2 & Hst).
  exists s1, s2, effs. repeat split; assumption.
Defined.

(** C8, as stated, for the empty playlist: URL and key are present, the
    playlist is empty, and the poll spawns the master and sets
    [isStreaming]. *)
Lemma empty_playlist_starts_master :
  exists s1 effs,
    pollStreamConfig (Scenario.host Scenario.allFiles) (Some (Scenario.config []))
                     (initialState None) = Some (s1, effs) /\
    validPlaylist (cleanPlaylist (Scenario.host Scenario.allFiles)
                                 (playlist (Scenario.config []))) = [] /\
    isStreaming s1 = true /\ masterFfmpeg s1 <> None /\
    In (SpawnMaster Scenario.master) effs.
Proof.
  eexists _, _. split; [vm_compute; reflexivity|]. split; [reflexivity|].
  split; [reflexivity|]. split; [discriminate|]. now left.
Qed.

(** ** Coherence of the session variables *)

Lemma coherent_fields (s s' : State) :
  isStreaming s' = isStreaming s -> masterStdin s' = masterStdin s ->
  masterFfmpeg s' = masterFfmpeg s -> coherent s -> coherent s'.
Proof. unfold coherent. now intros -> -> ->. Qed.

Lemma coherent_sameSession (s s' : State) :
  coherent s -> sameSession s s' -> coherent s'.
Proof.
  intros H (Em & Es & _ & _ & _ & Ei). now apply (coherent_fields s).
Qed.

Lemma coherent_stopStream (s : State) : coherent s -> coherent (fst (stopStream s)).
Proof.
  intros H. right. rewrite stopStream_spec. cbn [fst].
  destruct H as [(_ & _ & Hm)|(_ & Hi & Hm)].
  - destruct (masterFfmpeg s); [now repeat split|congruence].
  - rewrite Hm. now repeat split.
Qed.

Lemma coherent_hotReload (w : Host) (config : Config) (s : State) :
  coherent s -> coherent (hotReload w config s).
Proof.
  intros H. apply (coherent_fields s); [| | |exact H];
    unfold hotReload; destruct (negb (isArray _)); try reflexivity;
    destruct (item_truthy _); try reflexivity;
    destruct (JS.get _ _); try reflexivity;
    destruct (negb _); try reflexivity; now destruct (_ >=? _).
Qed.

Lemma coherent_runtimeUpdate (w : Host) (config : Config) (s : State) :
  coherent s -> coherent (fst (runtimeUpdate w config s)).
Proof.
  intros H. unfold runtimeUpdate. destruct (isStreaming s && is_active config); [|exact H].
  destruct (lastConfig s) as [last|]; [|exact H].
  destruct (criticalChanged config last); [now apply coherent_stopStream|].
  destruct (negb _); [now apply coherent_hotReload|exact H].
Qed.

Lemma coherent_playNextVideo (w : Host) (s s' : State) (effs : list Effect) :
  coherent s -> playNextVideo w s = Some (s', effs) -> coherent s'.
Proof.
  intros H Hrun. apply (coherent_sameSession s); [exact H|].
  now destruct (playNextVideo_rec_outcome w _ s s' effs Hrun).
Qed.

(** Every handler keeps [isStreaming], [masterStdin] and the master
    handle in step, so a streaming engine always has a master and its
    input pipe, and an idle one has neither. *)
Lemma handle_coherent (w : Host) (e : Event) (s s' : State) (effs : list Effect) :
  coherent s -> handle w e s = Some (s', effs) -> coherent s'.
Proof.
  intros H. destruct e as [fetched|direction|code| | |]; cbn [handle].
  - destruct fetched as [config|]; [|now intros [= <- <-]].
    destruct (is_active config) eqn:Ha, (isStreaming s) eqn:Hs.
    + rewrite poll_streaming by assumption. intros [= E].
      replace s' with (fst (runtimeUpdate w config s)) by now rewrite E.
      now apply coherent_runtimeUpdate.
    + assert (Hm : masterFfmpeg s = None) by (destruct H as [(?&_)|(_&_&?)]; congruence).
      destruct (isArray (playlist config)) eqn:Harr.
      2:{ intros Hrun. apply isArray_false in Harr.
          destruct (poll_start_null_cases w config s s' effs Ha Hs Harr Hrun)
            as (_ & _ & _ & _ & _ & [(_ & H1 & H2 & H3)|(_ & H1 & H2 & H3 & _)]).
          - apply (coherent_fields s); [congruence|assumption|assumption|exact H].
          - left. rewrite H2. now repeat split. }
      assert (Hc : coherent (set_lastConfig (Some (snd (fst (adoptPlaylist w config s))))
                                            (fst (fst (adoptPlaylist w config s)))))
        by (rewrite adoptPlaylist_state by assumption; exact H).
      destruct (JS.truthy (rtmp_url config)) eqn:Hu.
      2:{ rewrite (poll_start_blocked w config s Ha Hs Harr (or_introl Hu)).
          intros [= <- <-]. exact Hc. }
      destruct (JS.truthy (stream_key config)) eqn:Hk.
      2:{ rewrite (poll_start_blocked w config s Ha Hs Harr (or_intror Hk)).
          intros [= <- <-]. exact Hc. }
      clear Hc.
      destruct (poll_start_spawns w config s Ha Hs Hm Harr Hu Hk)
        as (s2 & effs2 & Hrun & Hst & Hma & Hsi & _).
      rewrite Hrun. intros [= <- <-]. left. rewrite Hma. now repeat split.
    + unfold pollStreamConfig. rewrite Ha, Hs. cbn [negb andb]. intros [= E].
      replace s' with (fst (stopStream s)) by now rewrite E.
      now apply coherent_stopStream.
    + unfold pollStreamConfig, runtimeUpdate. rewrite Ha, Hs. cbn [negb andb].
      now intros [= <- <-].
  - intros [= E]. replace s' with (fst (controlSkip direction s)) by now rewrite E.
    unfold controlSkip, skipTo. destruct (negb (isStreaming s)); [exact H|].
    destruct (negb (JS.truthy direction) || _); [exact H|].
    destruct (JS.seq direction (Some "next")).
    + destruct (negb (isArray _)); [exact H|]. cbn. destruct (_ >=? _); exact H.
    + cbn. destruct (_ <? _); [|exact H]. destruct (negb (isArray _)); exact H.
  - unfold feederClose. destruct (skipToTarget s).
    + apply coherent_playNextVideo. exact H.
    + destruct code as [c|]; [|now intros [= <- <-]].
      destruct (c =? 0); [apply coherent_playNextVideo; exact H|now intros [= <- <-]].
  - now intros [= <- <-].
  - intros [= <- <-]. right. now repeat split.
  - apply coherent_playNextVideo. exact H.
Qed.

Lemma run_coherent (w : Host) (es : list Event) (s s' : State) (effs : list Effect) :
  coherent s -> run w es s = Some (s', effs) -> coherent s'.
Proof.
  revert s effs. induction es as [|e es IH]; intros s effs H; cbn [run].
  - now intros [= <- <-].
  - destruct (handle w e s) as [[s1 e1]|] eqn:He; [|discriminate].
    pose proof (handle_coherent w e s s1 e1 H He) as H1.
    destruct (threw e1); [now intros [= <- <-]|].
    destruct (run w es s1) as [[s2 e2]|] eqn:Hr; [|discriminate].
    intros [= <- <-]. eapply IH; [exact H1|exact Hr].
Qed.

Lemma initialState_coherent (saved : option SavedState) : coherent (initialState saved).
Proof. right. now repeat split. Qed.

(** The poll handler always returns: the only call of [playNextVideo]
    it makes is on a playlist it has just cleaned. *)
Lemma pollStreamConfig_total (w : Host) (fetched : option Config) (s : State) :
  exists r, pollStreamConfig w fetched s = Some r.
Proof.
  destruct fetched as [config|]; [|now eexists].
  destruct (is_active config) eqn:Ha, (isStreaming s) eqn:Hs.
  - rewrite poll_streaming by assumption. now eexists.
  - destruct (poll_start_returns w config s Ha Hs) as (s' & effs & Hrun & _). eauto.
  - unfold pollStreamConfig. rewrite Ha, Hs. now eexists.
  - unfold pollStreamConfig. rewrite Ha, Hs. now eexists.
Qed.

(** * Further properties of the engine *)

(** ** Playlist validation *)

Lemma cleanLoop_count (w : Host) (pl valid : list Item) (removed : Z) :
  snd (cleanLoop w pl valid removed)
  = removed + JS.length (filter (fun v => negb (playable w v)) pl).
Proof.
  revert valid removed. induction pl as [|item rest IH]; intros valid removed; cbn [cleanLoop filter].
  - unfold JS.length. cbn. lia.
  - destruct (playable w item); cbn [negb]; rewrite IH; [reflexivity|].
    rewrite length_cons. lia.
Qed.

Lemma cleanPlaylist_removedCount (w : Host) (pl : Playlist) :
  removedCount (cleanPlaylist w pl)
  = JS.length (filter (fun v => negb (playable w v)) pl).
Proof.
  destruct pl as [|pl]; [reflexivity|].
  unfold cleanPlaylist, orEmpty. pose proof (cleanLoop_count w pl [] 0) as H.
  destruct (cleanLoop w pl [] 0) as [valid removed]. cbn in *. lia.
Qed.

Lemma cleanPlaylist_hasChanges (w : Host) (pl : Playlist) :
  hasChanges (cleanPlaylist w pl) = (0 <? removedCount (cleanPlaylist w pl)).
Proof.
  destruct pl as [|pl]; [reflexivity|].
  unfold cleanPlaylist. now destruct (cleanLoop w pl [] 0).
Qed.

Lemma filter_all (A : Type) (f : A -> bool) (l : list A) :
  (forall x, In x l -> f x = true) -> filter f l = l.
Proof.
  induction l as [|a l IH]; intros H; [reflexivity|]. cbn [filter].
  rewrite (H a (or_introl eq_refl)). f_equal. apply IH. intros x Hx. apply H. now right.
Qed.

Lemma filter_none (A : Type) (f : A -> bool) (l : list A) :
  (forall x, In x l -> f x = false) -> filter f l = [].
Proof.
  induction l as [|a l IH]; intros H; [reflexivity|]. cbn [filter].
  rewrite (H a (or_introl eq_refl)). apply IH. intros x Hx. apply H. now right.
Qed.

(** X1. [cleanPlaylist] keeps, in their order, exactly the entries
    whose resolved file exists; [removedCount] counts the others, so
    kept and removed add up to the input; [hasChanges] is set exactly
    when some entry was dropped.  When it is not set and the input is
    an array, the result is the input itself.  For an input that is
    not an array the result is the empty playlist with no change
    reported and nothing counted: there the result differs from the
    input although [hasChanges] is false. *)
Theorem cleanPlaylist_spec (w : Host) (pl : Playlist) :
  let c := cleanPlaylist w pl in
  validPlaylist c = filter (playable w) pl /\
  removedCount c = JS.length (filter (fun v => negb (playable w v)) pl) /\
  JS.length (validPlaylist c) + removedCount c = JS.length pl /\
  (hasChanges c = true <-> exists v, In v pl /\ playable w v = false) /\
  (hasChanges c = false -> isArray pl = true -> PArray (validPlaylist c) = pl) /\
  (isArray pl = false ->
   c = mkCleaned [] false 0 /\ PArray (validPlaylist c) <> pl).
Proof.
  intros c.
  assert (Hv : validPlaylist c = filter (playable w) pl) by apply validPlaylist_filter.
  assert (Hr : removedCount c = JS.length (filter (fun v => negb (playable w v)) pl))
    by apply cleanPlaylist_removedCount.
  assert (Hh : hasChanges c = (0 <? removedCount c)) by apply cleanPlaylist_hasChanges.
  split; [exact Hv|]. split; [exact Hr|]. split; [|split; [|split]].
  - rewrite Hv, Hr. unfold JS.length. rewrite <- Nat2Z.inj_add. f_equal.
    apply filter_length.
  - rewrite Hh, Hr, Z.ltb_lt. unfold JS.length. split.
    + intros Hpos.
      destruct (filter (fun v => negb (playable w v)) pl) as [|v l] eqn:E; [cbn in Hpos; lia|].
      assert (Hin : In v (filter (fun v => negb (playable w v)) pl)) by (rewrite E; now left).
      apply filter_In in Hin. destruct Hin as [Hin Hp]. exists v. split; [exact Hin|].
      now apply negb_true_iff.
    + intros (v & Hin & Hp).
      assert (Hin' : In v (filter (fun v => negb (playable w v)) pl)).
      { apply filter_In. split; [exact Hin|]. now rewrite Hp. }
      destruct (filter (fun v => negb (playable w v)) pl); [destruct Hin'|cbn; lia].
  - intros Hno Harr. destruct pl as [|items]; [discriminate Harr|]. f_equal.
    pose proof (adopted_playlist w items) as H. subst c.
    rewrite Hno in H. now symmetry.
  - intros Hnull. apply isArray_false in Hnull. subst pl c.
    split; [reflexivity|discriminate].
Qed.

(** X2. Cleaning is idempotent on an unchanged file system: a cleaned
    playlist passes a second cleaning untouched, with no change
    reported and nothing removed. *)
Theorem cleanPlaylist_idempotent (w : Host) (pl : Playlist) :
  cleanPlaylist w (validPlaylist (cleanPlaylist w pl))
  = mkCleaned (validPlaylist (cleanPlaylist w pl)) false 0.
Proof.
  set (valid := validPlaylist (cleanPlaylist w pl)).
  assert (Hall : forall v, In v valid -> playable w v = true)
    by (intros v; apply validPlaylist_playable).
  pose proof (validPlaylist_filter w valid) as Hv.
  pose proof (cleanPlaylist_removedCount w valid) as Hr.
  pose proof (cleanPlaylist_hasChanges w valid) as Hh.
  cbn [orEmpty] in Hv, Hr.
  rewrite (filter_all _ _ _ Hall) in Hv.
  rewrite filter_none in Hr by (intros x Hx; now rewrite (Hall x Hx)).
  destruct (cleanPlaylist w valid) as [v' h' r']. cbn in *. subst. reflexivity.
Qed.

(** ** The DJ loop: which entry goes on air *)

(** The index selected by the call that follows a skipped entry. *)
Lemma sanityCheck_after_skip (s : State) :
  JS.length (currentPlaylist s) <> 0 ->
  currentIndex (sanityCheck (set_currentIndex (currentIndex (sanityCheck s) + 1) (sanityCheck s)))
  = (currentIndex (sanityCheck s) + 1) mod JS.length (currentPlaylist s).
Proof.
  intros Hlen. pose proof (sanityCheck_range s Hlen) as Hr.
  rewrite sanityCheck_index by (cbn; rewrite sanityCheck_playlist; lia).
  cbn [currentIndex currentPlaylist set_currentIndex]. rewrite sanityCheck_playlist.
  destruct (Z.leb_spec 0 (currentIndex (sanityCheck s) + 1)); [|lia].
  destruct (Z.ltb_spec (currentIndex (sanityCheck s) + 1) (JS.length (currentPlaylist s))); cbn.
  - now rewrite Z.mod_small by lia.
  - replace (currentIndex (sanityCheck s) + 1) with (JS.length (currentPlaylist s)) by lia.
    now rewrite Z.mod_same by lia.
Qed.

Lemma playNextVideo_rec_first_playable (w : Host) (t fuel : nat) (s : State) (v : Item) :
  let L := JS.length (currentPlaylist s) in
  let c := currentIndex (sanityCheck s) in
  (t < fuel)%nat ->
  isStreaming s = true -> masterStdin s = true -> L <> 0 ->
  JS.get (currentPlaylist s) ((c + Z.of_nat t) mod L) = Some v ->
  playable w v = true ->
  (forall u y, 0 <= u < Z.of_nat t ->
     JS.get (currentPlaylist s) ((c + u) mod L) = Some y -> playable w y = false) ->
  exists s' effs,
    playNextVideo_rec w fuel s = Some (s', effs) /\
    sameSession s s' /\
    onAir w s ((c + Z.of_nat t) mod L) s' effs.
Proof.
  cbv zeta. revert fuel s. induction t as [|t IH]; intros fuel s Hf Hs Hm Hlen Hv Hp Hbefore;
    (destruct fuel as [|fuel]; [lia|]);
    pose proof (sanityCheck_range s Hlen) as Hr.
  - rewrite Z.add_0_r, Z.mod_small in Hv |- * by lia.
    destruct (playNextVideo_rec_plays w fuel s v Hs Hm Hlen Hv Hp) as (p & Ep & Hrun).
    rewrite Hrun. eexists _, _. split; [reflexivity|].
    unfold saveStreamState. rewrite (sanityCheck_eq s). split.
    + destruct (writeFileSync_ok w); now repeat split.
    + exists v, p. unfold saveStreamState.
      destruct (writeFileSync_ok w); cbn; repeat split; try assumption; try lia.
  - destruct (get_in_range (currentPlaylist s) _ Hr) as (y0 & Hy0).
    assert (Hun : playable w y0 = false).
    { apply (Hbefore 0 y0); [lia|]. now rewrite Z.add_0_r, Z.mod_small by lia. }
    rewrite (playNextVideo_rec_skips w fuel s y0 Hs Hm Hlen Hy0 Hun).
    set (s1 := set_currentIndex (currentIndex (sanityCheck s) + 1) (sanityCheck s)).
    assert (Hpl : currentPlaylist s1 = currentPlaylist s) by apply sanityCheck_playlist.
    assert (Hidx : currentIndex (sanityCheck s1)
                   = (currentIndex (sanityCheck s) + 1) mod JS.length (currentPlaylist s))
      by (apply sanityCheck_after_skip; exact Hlen).
    assert (Hshift : forall u,
               (currentIndex (sanityCheck s1) + u) mod JS.length (currentPlaylist s1)
               = (currentIndex (sanityCheck s) + (u + 1)) mod JS.length (currentPlaylist s)).
    { intros u. rewrite Hidx, Hpl, Z.add_mod_idemp_l by lia. f_equal. lia. }
    destruct (IH fuel s1) as (s' & effs & Hrun & Hsame & Hair).
    + lia.
    + unfold s1. rewrite sanityCheck_eq. exact Hs.
    + unfold s1. rewrite sanityCheck_eq. exact Hm.
    + now rewrite Hpl.
    + rewrite Hshift, Hpl. now replace (Z.of_nat t + 1) with (Z.of_nat (S t)) by lia.
    + exact Hp.
    + intros u y Hu Hy. rewrite Hshift, Hpl in Hy. apply (Hbefore (u + 1) y); [lia|exact Hy].
    + exists s', effs. split; [exact Hrun|]. split.
      * eapply sameSession_trans; [apply sameSession_sanity|].
        eapply sameSession_trans; [|exact Hsame]. now repeat split.
      * rewrite Hshift in Hair.
        replace (Z.of_nat t + 1) with (Z.of_nat (S t)) in Hair by lia.
        apply (onAir_pre w s1); [|exact Hair]. unfold s1. now rewrite sanityCheck_eq.
Qed.

(** X3. What [playNextVideo] plays.  While streaming, the entry put on
    air is the first one, going round the playlist from the selected
    index (after the sanity check), whose file exists: the entries met
    before it are skipped, the index ends on it, its file is the one
    fed, and its id the one checkpointed. *)
Theorem playNextVideo_first_playable (w : Host) (s : State) (t : Z) (v : Item) :
  let L := JS.length (currentPlaylist s) in
  let c := currentIndex (sanityCheck s) in
  isStreaming s = true -> masterStdin s = true ->
  0 <= t < L ->
  JS.get (currentPlaylist s) ((c + t) mod L) = Some v ->
  playable w v = true ->
  (forall u y, 0 <= u < t ->
     JS.get (currentPlaylist s) ((c + u) mod L) = Some y -> playable w y = false) ->
  exists s' effs,
    playNextVideo w s = Some (s', effs) /\
    sameSession s s' /\
    onAir w s ((c + t) mod L) s' effs.
Proof.
  intros L c Hs Hm Ht Hv Hp Hbefore.
  assert (Hlen : L <> 0) by lia.
  destruct (playNextVideo_rec_first_playable w (Z.to_nat t)
              (S (List.length (currentPlaylist s))) s v) as (s' & effs & Hrun & Hsame & Hair);
    try assumption.
  - unfold L, JS.length in Ht. lia.
  - now rewrite Z2Nat.id by lia.
  - intros u y Hu. apply Hbefore. lia.
  - exists s', effs. rewrite Z2Nat.id in Hair by lia.
    split; [exact Hrun|]. split; [exact Hsame|exact Hair].
Qed.

(** [B]'s file is gone: from index 1 of [A; B; C] the entry played is
    [C], at index 2. *)
Lemma playNextVideo_first_playable_witness :
  exists s' effs,
    playNextVideo (Scenario.host [Scenario.fileA; Scenario.fileC])
      (Scenario.streaming [Scenario.A; Scenario.B; Scenario.C] 1 Scenario.fileA)
    = Some (s', effs) /\
    currentIndex s' = 2 /\ currentFeederProcess s' = Some Scenario.fileC.
Proof.
  destruct (playNextVideo_first_playable (Scenario.host [Scenario.fileA; Scenario.fileC])
              (Scenario.streaming [Scenario.A; Scenario.B; Scenario.C] 1 Scenario.fileA)
              1 Scenario.C)
    as (s' & effs & Hrun & Hsame & Hair); try reflexivity.
  - cbn. unfold JS.length. cbn. lia.
  - intros u y Hu Hy. assert (u = 0) as -> by lia.
    vm_compute in Hy. injection Hy as <-. reflexivity.
  - exists s', effs. split; [exact Hrun|].
    destruct Hair as (v & p & _ & Hv & Hp & _ & Hidx & Hfeed & _).
    split; [exact Hidx|].
    destruct Hsame as (_ & _ & _ & Hpl & _). rewrite Hpl in Hv.
    vm_compute in Hv. injection Hv as <-. vm_compute in Hp. injection Hp as <-. exact Hfeed.
Defined.

(** [S (length currentPlaylist)] nested calls that all fail to return
    have met every entry of the playlist. *)
Lemma playNextVideo_None_all_unplayable (w : Host) (s : State) :
  playNextVideo w s = None ->
  isStreaming s = true /\ masterStdin s = true /\ JS.length (currentPlaylist s) <> 0 /\
  forall v, In v (currentPlaylist s) -> playable w v = false.
Proof.
  unfold playNextVideo. intros HN.
  destruct (playNextVideo_rec_None w (S (List.length (currentPlaylist s))) s ltac:(lia) HN)
    as (Hs & Hm & Hlen & Hall).
  repeat split; try assumption.
  intros v Hin. apply In_nth_error in Hin. destruct Hin as (j & Hj).
  assert (Hjl : (j < List.length (currentPlaylist s))%nat)
    by (apply nth_error_Some; congruence).
  pose proof (sanityCheck_range s Hlen) as Hrange.
  set (c := currentIndex (sanityCheck s)) in *.
  set (L := JS.length (currentPlaylist s)) in *.
  assert (HL : L = Z.of_nat (List.length (currentPlaylist s))) by reflexivity.
  apply (Hall ((Z.of_nat j - c) mod L) v).
  - pose proof (Z.mod_pos_bound (Z.of_nat j - c) L ltac:(lia)). lia.
  - rewrite Z.add_mod_idemp_r by lia.
    replace (c + (Z.of_nat j - c)) with (Z.of_nat j) by lia.
    rewrite Z.mod_small by lia. unfold JS.get.
    destruct (Z.ltb_spec (Z.of_nat j) 0); [lia|]. now rewrite Nat2Z.id.
Qed.

(** X4. When [playNextVideo] does not return.  The recursion through
    missing files runs away exactly when the engine is streaming a
    non-empty playlist none of whose entries resolves to an existing
    file; no recursion depth returns then, and in every other state the
    call returns within one more nested call than there are entries. *)
Theorem playNextVideo_runs_away_iff (w : Host) (s : State) :
  (playNextVideo w s = None <->
   isStreaming s = true /\ masterStdin s = true /\ JS.length (currentPlaylist s) <> 0 /\
   forall v, In v (currentPlaylist s) -> playable w v = false) /\
  (playNextVideo w s = None -> forall fuel, playNextVideo_rec w fuel s = None) /\
  (forall fuel r, playNextVideo_rec w fuel s = Some r -> playNextVideo w s = Some r).
Proof.
  split; [split|split].
  - apply playNextVideo_None_all_unplayable.
  - intros (Hs & Hm & Hlen & Hall). now apply playNextVideo_rec_diverges.
  - intros HN fuel. destruct (playNextVideo_None_all_unplayable w s HN) as (Hs & Hm & Hlen & Hall).
    now apply playNextVideo_rec_diverges.
  - intros fuel r. apply playNextVideo_rec_bound.
Qed.

(** ** Feeder exits and manual skips *)

(** X5. A failed feeder costs one second, not an entry.  With the skip
    flag clear, a feeder closing with a non-zero exit code only
    increments the index and arms the 1000 ms timer, spawning nothing;
    when the timer fires the engine does exactly what it would have
    done had the feeder finished normally.  The feeder's ['error']
    callback behaves the same, killing the feeder first. *)
Theorem feeder_failure_retries_as_success (w : Host) (s : State) (code : Z) :
  skipToTarget s = false -> code <> 0 ->
  feederClose w (Some code) s
  = Some (set_currentIndex (currentIndex s + 1) s, [SetTimeout 1000]) /\
  run w [FeederClose (Some code); Timer] s
  = match feederClose w (Some 0) s with
    | Some (s', effs) => Some (s', SetTimeout 1000 :: effs)
    | None => None
    end /\
  run w [FeederError; Timer] s
  = match feederClose w (Some 0) s with
    | Some (s', effs) => Some (s', (killFeeder s ++ SetTimeout 1000 :: effs)%list)
    | None => None
    end.
Proof.
  intros Hk Hc.
  assert (Hclose : feederClose w (Some code) s
                   = Some (set_currentIndex (currentIndex s + 1) s, [SetTimeout 1000])).
  { unfold feederClose. rewrite Hk. apply Z.eqb_neq in Hc. now rewrite Hc. }
  assert (Hok : feederClose w (Some 0) s
                = playNextVideo w (set_currentIndex (currentIndex s + 1) s)).
  { unfold feederClose. now rewrite Hk. }
  split; [exact Hclose|]. split.
  - cbn [run handle]. rewrite Hclose, Hok. cbn [threw existsb isThrow orb].
    destruct (playNextVideo w _) as [[s' effs]|]; [|reflexivity].
    destruct (threw effs); [reflexivity|]. now rewrite app_nil_r.
  - cbn [run handle]. unfold feederError. rewrite Hok.
    replace (threw (killFeeder s ++ [SetTimeout 1000])) with false
      by (unfold killFeeder; now destruct (currentFeederProcess s)).
    destruct (playNextVideo w _) as [[s' effs]|]; [|reflexivity].
    destruct (threw effs); [now rewrite <- app_assoc|].
    now rewrite app_nil_r, <- app_assoc.
Qed.

Lemma feeder_failure_retries_as_success_witness :
  exists s' effs,
    run (Scenario.host Scenario.allFiles) [FeederClose (Some 1); Timer]
      (Scenario.streaming [Scenario.A; Scenario.B] 0 Scenario.fileA) = Some (s', effs) /\
    currentIndex s' = 1 /\ In (SpawnFeeder Scenario.fileB) effs.
Proof.
  destruct (feeder_failure_retries_as_success (Scenario.host Scenario.allFiles)
              (Scenario.streaming [Scenario.A; Scenario.B] 0 Scenario.fileA) 1)
    as (_ & Hrun & _); [reflexivity|discriminate|].
  rewrite Hrun. eexists _, _. split; [vm_compute; reflexivity|].
  split; [reflexivity|]. right. right. now left.
Defined.

Lemma sanityCheck_idem (s : State) :
  JS.length (currentPlaylist s) <> 0 -> sanityCheck (sanityCheck s) = sanityCheck s.
Proof.
  intros Hlen. apply sanityCheck_in_range. rewrite sanityCheck_playlist.
  now apply sanityCheck_range.
Qed.

(** While streaming a non-empty playlist, a call on the state with the
    sanity check already applied is the same call. *)
Lemma playNextVideo_sanity (w : Host) (s : State) :
  isStreaming s = true -> masterStdin s = true -> JS.length (currentPlaylist s) <> 0 ->
  playNextVideo w (sanityCheck s) = playNextVideo w s.
Proof.
  intros Hs Hm Hlen. unfold playNextVideo. rewrite sanityCheck_playlist.
  cbn [playNextVideo_rec]. rewrite sanityCheck_idem, sanityCheck_playlist by exact Hlen.
  destruct (sameSession_sanity s) as (_ & Es & _ & _ & _ & Em).
  rewrite Es, Em, Hs, Hm, (isArray_length _ Hlen). cbn [negb orb].
  apply Z.eqb_neq in Hlen. now rewrite Hlen.
Qed.

Lemma controlSkip_next (s : State) :
  isStreaming s = true -> isArray (currentPlaylist s) = true ->
  controlSkip (Some "next") s
  = (set_skipToTarget true
       (set_currentIndex (if currentIndex s + 1 >=? JS.length (currentPlaylist s)
                          then 0 else currentIndex s + 1) s),
     (killFeeder s
      ++ [Respond 200 (SkipBody (if currentIndex s + 1 >=? JS.length (currentPlaylist s)
                                 then 0 else currentIndex s + 1))])%list).
Proof.
  intros Hs Harr. unfold controlSkip, skipTo. rewrite Hs. cbn. rewrite Harr. cbn.
  now destruct (currentIndex s + 1 >=? JS.length (currentPlaylist s)).
Qed.

Lemma controlSkip_previous (s : State) :
  isStreaming s = true -> isArray (currentPlaylist s) = true ->
  controlSkip (Some "previous") s
  = (set_skipToTarget true
       (set_currentIndex (if currentIndex s - 1 <? 0
                          then JS.length (currentPlaylist s) - 1 else currentIndex s - 1) s),
     (killFeeder s
      ++ [Respond 200 (SkipBody (if currentIndex s - 1 <? 0
                                 then JS.length (currentPlaylist s) - 1
                                 else currentIndex s - 1))])%list).
Proof.
  intros Hs Harr. unfold controlSkip, skipTo. rewrite Hs. cbn. rewrite Harr. cbn.
  now destruct (currentIndex s - 1 <? 0).
Qed.

(** X6. Skipping to the next entry is the natural advance, made early.
    While streaming with the index inside the playlist and no skip
    pending, the close of the feeder killed by a [next] request leaves
    the engine exactly where a normal end of the entry would have:
    same state, same effects, whatever exit code the kill produces. *)
Theorem skip_next_is_natural_advance (w : Host) (s : State) (code : option Z) :
  isStreaming s = true -> masterStdin s = true -> skipToTarget s = false ->
  0 <= currentIndex s < JS.length (currentPlaylist s) ->
  feederClose w code (fst (controlSkip (Some "next") s)) = feederClose w (Some 0) s.
Proof.
  intros Hs Hm Hk Hr. rewrite controlSkip_next by (exact Hs || exact (isArray_range _ _ Hr)).
  cbn [fst].
  unfold feederClose at 1. cbn [skipToTarget set_skipToTarget].
  unfold feederClose. rewrite Hk. cbn [Z.eqb].
  set (s0 := set_currentIndex (currentIndex s + 1) s).
  rewrite <- (playNextVideo_sanity w s0) by (try assumption; cbn; lia).
  f_equal. rewrite (sanityCheck_eq s0).
  rewrite (sanityCheck_index s0) by (cbn; lia). unfold s0.
  cbn [currentIndex currentPlaylist set_currentIndex].
  destruct (Z.leb_spec 0 (currentIndex s + 1)); [|lia].
  destruct (Z.geb_spec (currentIndex s + 1) (JS.length (currentPlaylist s)));
    destruct (Z.ltb_spec (currentIndex s + 1) (JS.length (currentPlaylist s))); try lia;
    cbn [andb]; destruct s; cbn in *; subst; reflexivity.
Qed.

Lemma skip_next_is_natural_advance_witness :
  feederClose (Scenario.host Scenario.allFiles) None
    (fst (controlSkip (Some "next")
            (Scenario.streaming [Scenario.A; Scenario.B] 1 Scenario.fileB)))
  = feederClose (Scenario.host Scenario.allFiles) (Some 0)
      (Scenario.streaming [Scenario.A; Scenario.B] 1 Scenario.fileB).
Proof.
  apply skip_next_is_natural_advance; try reflexivity.
  cbn. unfold JS.length. cbn. lia.
Defined.

(** X7. [next] and [previous] undo each other.  While streaming with
    the index inside the playlist, a [previous] request after a [next]
    request, or a [next] after a [previous], brings [currentIndex] back
    to where it was; the skip flag stays set and nothing else has
    changed. *)
Theorem skip_next_previous_inverse (s : State) :
  isStreaming s = true ->
  0 <= currentIndex s < JS.length (currentPlaylist s) ->
  fst (controlSkip (Some "previous") (fst (controlSkip (Some "next") s)))
  = set_skipToTarget true s /\
  fst (controlSkip (Some "next") (fst (controlSkip (Some "previous") s)))
  = set_skipToTarget true s.
Proof.
  intros Hs Hr. pose proof (isArray_range _ _ Hr) as Harr. split.
  - rewrite (controlSkip_next s Hs Harr). cbn [fst].
    rewrite controlSkip_previous by assumption. cbn [fst currentIndex currentPlaylist
      set_skipToTarget set_currentIndex].
    destruct (Z.geb_spec (currentIndex s + 1) (JS.length (currentPlaylist s))).
    + change (0 - 1 <? 0) with true. cbv iota.
      replace (JS.length (currentPlaylist s) - 1) with (currentIndex s) by lia.
      now destruct s.
    + destruct (Z.ltb_spec (currentIndex s + 1 - 1) 0); [lia|].
      replace (currentIndex s + 1 - 1) with (currentIndex s) by lia. now destruct s.
  - rewrite (controlSkip_previous s Hs Harr). cbn [fst].
    rewrite controlSkip_next by assumption. cbn [fst currentIndex currentPlaylist
      set_skipToTarget set_currentIndex].
    destruct (Z.ltb_spec (currentIndex s - 1) 0).
    + destruct (Z.geb_spec (JS.length (currentPlaylist s) - 1 + 1)
                           (JS.length (currentPlaylist s))); [|lia].
      replace 0 with (currentIndex s) by lia. now destruct s.
    + destruct (Z.geb_spec (currentIndex s - 1 + 1) (JS.length (currentPlaylist s))); [lia|].
      replace (currentIndex s - 1 + 1) with (currentIndex s) by lia. now destruct s.
Qed.

Lemma skip_next_previous_inverse_witness :
  let s := Scenario.streaming [Scenario.A; Scenario.B; Scenario.C] 2 Scenario.fileC in
  currentIndex (fst (controlSkip (Some "next") s)) = 0 /\
  currentIndex (fst (controlSkip (Some "previous") (fst (controlSkip (Some "next") s)))) = 2.
Proof.
  intros s. split; [reflexivity|].
  destruct (skip_next_previous_inverse s) as (H & _); [reflexivity| |now rewrite H].
  cbn. unfold JS.length. cbn. lia.
Defined.

(** ** An idle engine *)

Lemma playNextVideo_idle (w : Host) (s : State) :
  isStreaming s = false -> playNextVideo w s = Some (s, []).
Proof. intros Hs. unfold playNextVideo. cbn [playNextVideo_rec]. now rewrite Hs. Qed.

Lemma killFeeder_no_spawn (s : State) : existsb spawns (killFeeder s) = false.
Proof. unfold killFeeder. now destruct (currentFeederProcess s). Qed.

Lemma handle_idle (w : Host) (e : Event) (s : State) :
  isStreaming s = false -> activates e = false ->
  exists s' effs,
    handle w e s = Some (s', effs) /\
    isStreaming s' = false /\ existsb spawns effs = false.
Proof.
  intros Hs Ha. destruct e as [fetched|direction|code| | |]; cbn [handle].
  - destruct fetched as [config|]; [|now exists s, []].
    cbn [activates] in Ha. unfold pollStreamConfig, runtimeUpdate. rewrite Ha, Hs. cbn.
    now exists s, [].
  - unfold controlSkip. rewrite Hs. cbn. now eexists _, _.
  - unfold feederClose. destruct (skipToTarget s).
    + rewrite playNextVideo_idle by exact Hs. now eexists _, _.
    + destruct code as [c|]; [|now exists s, []].
      destruct (c =? 0); [|now eexists _, _].
      rewrite playNextVideo_idle by exact Hs. now eexists _, _.
  - unfold feederError. eexists _, _. split; [reflexivity|]. split; [exact Hs|].
    rewrite existsb_app, killFeeder_no_spawn. reflexivity.
  - unfold masterClose. eexists _, _. split; [reflexivity|]. split; [reflexivity|].
    apply killFeeder_no_spawn.
  - rewrite playNextVideo_idle by exact Hs. now exists s, [].
Qed.

(** X8. Only a poll switches the stream on.  From an idle engine, no
    sequence of events without a poll that fetched an active config
    (skip requests, stale feeder or master callbacks, stale timers,
    failed or inactive polls) ever spawns a subprocess or sets
    [isStreaming]; every such event is handled to the end. *)
Theorem idle_until_activated (w : Host) (es : list Event) (s : State) :
  isStreaming s = false -> existsb activates es = false ->
  exists s' effs,
    run w es s = Some (s', effs) /\
    isStreaming s' = false /\ existsb spawns effs = false.
Proof.
  revert s. induction es as [|e es IH]; intros s Hs Ha; cbn [run].
  - now exists s, [].
  - cbn [existsb] in Ha. apply orb_false_iff in Ha. destruct Ha as [Ha Hrest].
    destruct (handle_idle w e s Hs Ha) as (s1 & e1 & Hh & Hs1 & Hn1).
    destruct (IH s1 Hs1 Hrest) as (s2 & e2 & Hr & Hs2 & Hn2).
    rewrite Hh, Hr. destruct (threw e1); [now exists s1, e1|].
    eexists _, _. split; [reflexivity|]. split; [exact Hs2|].
    now rewrite existsb_app, Hn1, Hn2.
Qed.

(** The stream is switched off by a poll; the kill's callbacks and a
    skip request follow, then a failed poll: nothing is spawned. *)
Lemma idle_until_activated_witness :
  let s := fst (stopStream (Scenario.streaming [Scenario.A; Scenario.B] 0 Scenario.fileA)) in
  exists s' effs,
    run (Scenario.host Scenario.allFiles)
        [FeederClose None; MasterClose; ControlSkip (Some "next"); Timer; Poll None] s
    = Some (s', effs) /\
    isStreaming s' = false /\ existsb spawns effs = false.
Proof.
  intros s.
  exact (idle_until_activated (Scenario.host Scenario.allFiles)
           [FeederClose None; MasterClose; ControlSkip (Some "next"); Timer; Poll None] s
           eq_refl eq_refl).
Defined.

(** ** Stopping *)

(** X9. [stopStream] kills the feeder before the master, each only when
    its handle is set, clears both handles and [isStreaming], leaves
    the playlist, the index, the last applied config and the checkpoint
    untouched, and is idempotent: a second call kills nothing and
    changes nothing. *)
Theorem stopStream_once (s : State) :
  let s1 := fst (stopStream s) in
  let effs := snd (stopStream s) in
  (forall i j, nth_error effs i = Some KillFeeder -> nth_error effs j = Some KillMaster ->
     (i < j)%nat) /\
  (In KillFeeder effs <-> currentFeederProcess s <> None) /\
  (In KillMaster effs <-> masterFfmpeg s <> None) /\
  isStreaming s1 = false /\ masterFfmpeg s1 = None /\ currentFeederProcess s1 = None /\
  currentPlaylist s1 = currentPlaylist s /\ currentIndex s1 = currentIndex s /\
  stateFile s1 = stateFile s /\ lastConfig s1 = lastConfig s /\
  stopStream s1 = (s1, []).
Proof.
  cbv zeta. rewrite stopStream_spec. cbn [fst snd]. unfold killFeeder.
  destruct s as [m f st lc pl i sk si sf]. cbn [masterFfmpeg currentFeederProcess].
  split.
  { intros a b Ha Hb. destruct f, m; cbn in Ha, Hb;
      destruct a as [|[|a]], b as [|[|b]]; cbn in Ha, Hb; try discriminate; try lia;
      try (destruct a; discriminate); try (destruct b; discriminate). }
  destruct f as [f|], m as [m|]; cbn; repeat split; try congruence; try tauto;
    try (intros [H|[H|[]]]; congruence); try (intros [H|[]]; congruence);
    try (intros []); try (intros; now left); try (intros; right; now left).
Qed.

(** ** Restart and resume *)

Lemma masterClose_idle (s : State) :
  isStreaming (fst (masterClose s)) = false /\
  masterFfmpeg (fst (masterClose s)) = None /\
  stateFile (fst (masterClose s)) = stateFile s.
Proof. now repeat split. Qed.

(** X10. Resume after a restart, end to end.  An entry was put on air
    by [playNextVideo] and its id checkpointed; the stream then goes
    down, by the master dying or by [stopStream]; the next poll brings
    an active config with URL and key whose cleaned playlist is the one
    that was playing, in which no earlier entry carries that id.  The
    poll respawns the master and puts on air the entry that follows the
    interrupted one, wrapping to the first after the last. *)
Theorem resume_after_restart (w : Host) (config : Config) (s0 s : State)
        (effs0 : list Effect) (v : Item) :
  playNextVideo w s0 = Some (s, effs0) ->
  (exists filePath, In (SpawnFeeder filePath) effs0) ->
  writeFileSync_ok w = true ->
  JS.get (currentPlaylist s) (currentIndex s) = Some v ->
  JS.truthy (item_id v) = true ->
  (forall j u, 0 <= j < currentIndex s ->
     JS.get (currentPlaylist s) j = Some u -> item_id u <> item_id v) ->
  validPlaylist (cleanPlaylist w (playlist config)) = currentPlaylist s ->
  is_active config = true ->
  JS.truthy (rtmp_url config) = true -> JS.truthy (stream_key config) = true ->
  forall s1, s1 = fst (masterClose s) \/ s1 = fst (stopStream s) ->
  exists s2 effs,
    pollStreamConfig w (Some config) s1
    = Some (s2, SpawnMaster (masterArgsOf w config) :: effs) /\
    onAir w s1 ((currentIndex s + 1) mod JS.length (currentPlaylist s)) s2 effs.
Proof.
  intros Hrun (p & Hin) Hok Hv Hid Hfirst Hpl Ha Hu Hk s1 Hs1.
  assert (Hsaved : stateFile s = Some (mkSavedState (item_id v) (Date_now w))).
  { destruct (playNextVideo_rec_outcome w _ s0 s effs0 Hrun) as (_ & Hcases).
    destruct Hcases as [(_ & -> & _)|[(_ & -> & _)|[(_ & -> & _)|Hair]]].
    - destruct Hin.
    - destruct Hin as [Hin|[]]. discriminate.
    - destruct Hin as [Hin|[]]. discriminate.
    - destruct Hair as (v' & p' & _ & Hv' & _ & _ & _ & _ & Hsf & _).
      rewrite Hv in Hv'. injection Hv' as <-.
      rewrite Hsf. unfold saveStreamState. now rewrite Hok. }
  assert (Harr : isArray (playlist config) = true).
  { apply (validPlaylist_isArray w). rewrite Hpl. intros E. apply get_In in Hv.
    rewrite E in Hv. destruct Hv. }
  assert (Hidle : isStreaming s1 = false /\ masterFfmpeg s1 = None /\
                  stateFile s1 = stateFile s).
  { destruct Hs1 as [-> | ->]; [apply masterClose_idle|].
    destruct (stopStream_idle s) as (H1 & H2 & _ & _ & _ & H6). now repeat split. }
  destruct Hidle as (Hs & Hm & Hsf).
  destruct (poll_start_spawns w config s1 Ha Hs Hm Harr Hu Hk)
    as (s2 & effs & Hpoll & _ & _ & _ & _ & _ & _ & Hcases).
  assert (Hidx : currentIndex (fst (fst (adoptPlaylist w config s1)))
                 = (currentIndex s + 1) mod JS.length (currentPlaylist s)).
  { rewrite <- Hpl.
    apply (adoptPlaylist_found w config s1 (mkSavedState (item_id v) (Date_now w))
             (currentIndex s) v); try (rewrite Hpl); try assumption; try reflexivity.
    now rewrite Hsf. }
  exists s2, effs. split; [exact Hpoll|].
  destruct Hcases as [(Hnil & _)|(_ & Hair)].
  - rewrite Hpl in Hnil. apply get_In in Hv. rewrite Hnil in Hv. destruct Hv.
  - now rewrite Hidx in Hair.
Qed.

(** [B] is on air at index 1 of [A; B; C] when the master dies; the
    restart plays [C]. *)
Lemma resume_after_restart_witness :
  let w := Scenario.host Scenario.allFiles in
  let s0 := Scenario.streaming [Scenario.A; Scenario.B; Scenario.C] 1 Scenario.fileA in
  exists s effs0 s2 effs,
    playNextVideo w s0 = Some (s, effs0) /\
    pollStreamConfig w (Some (Scenario.config [Scenario.A; Scenario.B; Scenario.C]))
                     (fst (masterClose s))
    = Some (s2, SpawnMaster Scenario.master :: effs) /\
    currentIndex s2 = 2.
Proof.
  intros w s0.
  destruct (playNextVideo w s0) as [[s effs0]|] eqn:Hrun; [|discriminate Hrun].
  vm_compute in Hrun. injection Hrun as <- <-.
  destruct (resume_after_restart w (Scenario.config [Scenario.A; Scenario.B; Scenario.C]) s0
              _ _ Scenario.B (eq_refl : playNextVideo w s0 = Some (_, _)))
    with (s1 := fst (masterClose
                (set_currentFeederProcess (Some Scenario.fileB)
                   (set_stateFile (Some (mkSavedState (Some "b") 1700)) s0))))
    as (s2 & effs & Hpoll & Hair); try reflexivity.
  - exists Scenario.fileB. right. now left.
  - intros j u Hj Hu. cbn in Hj. assert (j = 0) as -> by lia.
    vm_compute in Hu. injection Hu as <-. discriminate.
  - now left.
  - eexists _, _, s2, effs. split; [reflexivity|]. split; [exact Hpoll|].
    destruct Hair as (_ & _ & _ & _ & _ & _ & Hidx & _). exact Hidx.
Defined.

Lemma hotReload_lastConfig (w : Host) (config : Config) (s : State) :
  isArray (currentPlaylist s) = true -> lastConfig (hotReload w config s) = Some config.
Proof. intros Harr. unfold hotReload. now rewrite Harr. Qed.

(** X11. A poll that brings nothing new does nothing.  When a poll made
    while streaming leaves the engine streaming, polling the same
    config again, on the same file system, changes no variable and has
    no effect: a hot reload is applied once. *)
Theorem poll_again_is_noop (w : Host) (config : Config) (s s' : State) (effs : list Effect) :
  isStreaming s = true ->
  pollStreamConfig w (Some config) s = Some (s', effs) ->
  isStreaming s' = true ->
  pollStreamConfig w (Some config) s' = Some (s', []).
Proof.
  intros Hs Hpoll Hs'.
  destruct (is_active config) eqn:Ha.
  2:{ unfold pollStreamConfig in Hpoll. rewrite Ha, Hs in Hpoll. cbn in Hpoll.
      injection Hpoll as E. destruct (stopStream_idle s) as (H1 & _).
      replace s' with (fst (stopStream s)) in Hs' by now rewrite E. congruence. }
  rewrite poll_streaming in Hpoll |- * by assumption. f_equal.
  injection Hpoll as Hpoll. unfold runtimeUpdate in Hpoll. rewrite Hs, Ha in Hpoll.
  cbn [andb] in Hpoll.
  destruct (lastConfig s) as [last|] eqn:Hl.
  2:{ injection Hpoll as <- <-. unfold runtimeUpdate. now rewrite Hs, Ha, Hl. }
  destruct (criticalChanged config last) eqn:Hc.
  { destruct (stopStream_idle s) as (H1 & _).
    replace s' with (fst (stopStream s)) in Hs' by now rewrite Hpoll. congruence. }
  destruct (negb (String.eqb _ _)) eqn:Hj.
  - injection Hpoll as <- <-. destruct (isArray (currentPlaylist s)) eqn:Harr.
    + apply runtimeUpdate_fresh. now apply hotReload_lastConfig.
    + rewrite (hotReload_null w config s Harr). unfold runtimeUpdate.
      rewrite Hs, Ha, Hl, Hc, Hj. now rewrite (hotReload_null w config s Harr).
  - injection Hpoll as <- <-. unfold runtimeUpdate. now rewrite Hs, Ha, Hl, Hc, Hj.
Qed.

Lemma poll_again_is_noop_witness :
  let w := Scenario.host Scenario.allFiles in
  let s := Scenario.streaming [Scenario.A; Scenario.B; Scenario.C] 1 Scenario.fileB in
  let config := Scenario.config [Scenario.C; Scenario.A; Scenario.B] in
  exists s',
    pollStreamConfig w (Some config) s = Some (s', []) /\
    currentIndex s' = 2 /\
    pollStreamConfig w (Some config) s' = Some (s', []).
Proof.
  intros w s config.
  destruct (pollStreamConfig w (Some config) s) as [[s' effs]|] eqn:Hpoll;
    [|discriminate Hpoll].
  pose proof (poll_again_is_noop w config s s' effs eq_refl Hpoll) as Hagain.
  vm_compute in Hpoll. injection Hpoll as <- <-.
  eexists. split; [reflexivity|]. split; [reflexivity|]. exact (Hagain eq_refl).
Defined.

(** X12. After a reorder, playback follows the new order.  While
    streaming with no skip pending, a poll hot-reloads a playlist that
    still holds an entry matching the selected one; when the feeder
    then finishes normally, the entry put on air is the one that
    follows, in the new playlist, the first entry matching the old
    selection (wrapping at the end), and the hot reload itself touched
    no subprocess. *)
Theorem advance_after_reorder (w : Host) (config last : Config) (s : State) (old : Item) :
  let new := validPlaylist (cleanPlaylist w (playlist config)) in
  let i := JS.findIndex (sameVideo old) new in
  isStreaming s = true -> masterStdin s = true -> skipToTarget s = false ->
  is_active config = true -> lastConfig s = Some last ->
  criticalChanged config last = false ->
  JSON_stringify w (playlist last) <> JSON_stringify w (playlist config) ->
  JS.get (currentPlaylist s) (currentIndex s) = Some old ->
  (exists v, In v new /\ sameVideo old v = true) ->
  exists s1 s2 effs,
    pollStreamConfig w (Some config) s = Some (s1, []) /\
    currentIndex s1 = i /\ currentFeederProcess s1 = currentFeederProcess s /\
    feederClose w (Some 0) s1 = Some (s2, effs) /\
    onAir w s1 ((i + 1) mod JS.length new) s2 effs.
Proof.
  intros new i Hs Hm Hk Ha Hl Hc Hj Hold Hex.
  rewrite (poll_hotReload w config last s Hs Ha Hl Hc Hj).
  rewrite (hotReload_found w config s old Hold Hex). fold new i.
  set (s1 := set_lastConfig (Some config) (set_currentIndex i (set_currentPlaylist new s))).
  assert (Hne : i <> -1).
  { destruct Hex as (v & Hin & Hv). intros E. unfold i in E. rewrite findIndex_none in E.
    specialize (E v Hin). congruence. }
  pose proof (findIndex_range (sameVideo old) new) as Hr. fold i in Hr.
  destruct (naturalAdvance_step w s1) as (s2 & effs & Hclose & Hsame & Hidx);
    try assumption.
  { cbn. lia. }
  { intros v Hv. eapply validPlaylist_playable, Hv. }
  exists s1, s2, effs. split; [reflexivity|]. split; [reflexivity|]. split; [reflexivity|].
  split; [exact Hclose|].
  unfold feederClose in Hclose. cbn [skipToTarget s1 set_lastConfig set_currentIndex
    set_currentPlaylist] in Hclose. rewrite Hk in Hclose. cbn [Z.eqb] in Hclose.
  destruct (playNextVideo_rec_outcome w _ _ s2 effs Hclose) as (_ & Hcases).
  destruct Hcases as [(_ & _ & [Hc1|Hc1])|[(_ & _ & Hc1 & _)|[(_ & _ & Hc1 & _)|Hair]]].
  - cbn in Hc1. congruence.
  - cbn in Hc1. congruence.
  - cbn in Hc1. lia.
  - cbn in Hc1. discriminate.
  - rewrite Hidx in Hair. apply (onAir_pre w (set_currentIndex (currentIndex s1 + 1) s1));
      [reflexivity|exact Hair].
Qed.

(** [B] plays at index 1 of [A; B; C]; the playlist becomes [C; B; A];
    after [B] the engine plays [A]. *)
Lemma advance_after_reorder_witness :
  let w := Scenario.host Scenario.allFiles in
  let s := Scenario.streaming [Scenario.A; Scenario.B; Scenario.C] 1 Scenario.fileB in
  exists s1 s2 effs,
    pollStreamConfig w (Some (Scenario.config [Scenario.C; Scenario.B; Scenario.A])) s
    = Some (s1, []) /\
    feederClose w (Some 0) s1 = Some (s2, effs) /\
    currentIndex s2 = 2 /\ In (SpawnFeeder Scenario.fileA) effs.
Proof.
  intros w s.
  destruct (advance_after_reorder w (Scenario.config [Scenario.C; Scenario.B; Scenario.A])
              (Scenario.config [Scenario.A; Scenario.B; Scenario.C]) s Scenario.B)
    as (s1 & s2 & effs & Hpoll & _ & _ & Hclose & Hair); try reflexivity.
  - vm_compute. discriminate.
  - exists Scenario.B. split; [vm_compute; tauto|reflexivity].
  - exists s1, s2, effs. split; [exact Hpoll|]. split; [exact Hclose|].
    destruct Hair as (v & p & _ & Hv & Hp & _ & Hidx & _ & _ & ->).
    split; [exact Hidx|].
    assert (Hpl : currentPlaylist s2 = [Scenario.C; Scenario.B; Scenario.A]).
    { vm_compute in Hpoll. injection Hpoll as <-.
      destruct (playNextVideo_rec_outcome w _ _ s2 _ Hclose) as ((_ & _ & _ & Hpl & _) & _).
      exact Hpl. }
    rewrite Hpl in Hv. vm_compute in Hv. injection Hv as <-.
    vm_compute in Hp. injection Hp as <-. right. now left.
Defined.

(** ** Invariants of the reachable states *)

(** X13. Session variables stay in step.  In every state reached from
    process start by any sequence of events, [isStreaming],
    [masterStdin] and the master handle are all set or all clear: the
    engine never reports streaming without a master and its input pipe,
    and never keeps a master handle while idle. *)
Theorem reachable_coherent (w : Host) (saved : option SavedState) (es : list Event)
        (s : State) (effs : list Effect) :
  run w es (initialState saved) = Some (s, effs) ->
  (isStreaming s = true /\ masterStdin s = true /\ masterFfmpeg s <> None) \/
  (isStreaming s = false /\ masterStdin s = false /\ masterFfmpeg s = None).
Proof.
  intros Hrun. apply (run_coherent w es (initialState saved) s effs); [|exact Hrun].
  apply initialState_coherent.
Qed.

Lemma reachable_coherent_witness :
  exists s effs,
    run (Scenario.host Scenario.allFiles)
        [Poll (Some (Scenario.config [Scenario.A])); MasterClose] (initialState None)
    = Some (s, effs) /\
    isStreaming s = false /\ masterStdin s = false /\ masterFfmpeg s = None.
Proof.
  destruct (run (Scenario.host Scenario.allFiles)
              [Poll (Some (Scenario.config [Scenario.A])); MasterClose] (initialState None))
    as [[s effs]|] eqn:Hrun; [|discriminate Hrun].
  exists s, effs. split; [reflexivity|].
  destruct (reachable_coherent _ _ _ _ _ Hrun) as [(Hs & _)|H]; [|exact H].
  vm_compute in Hrun. injection Hrun as <- <-. discriminate Hs.
Defined.

Lemma playNextVideo_settled (w : Host) (s : State) :
  (forall v, In v (currentPlaylist s) -> playable w v = true) ->
  exists s' effs,
    playNextVideo w s = Some (s', effs) /\
    currentPlaylist s' = currentPlaylist s /\
    (currentIndex s' = currentIndex s \/ 0 <= currentIndex s').
Proof.
  intros Hall. destruct (playNextVideo w s) as [[s' effs]|] eqn:Hrun.
  - exists s', effs. split; [reflexivity|].
    destruct (playNextVideo_rec_outcome w _ s s' effs Hrun)
      as ((_ & _ & _ & Hpl & _) & Hcases).
    split; [exact Hpl|].
    destruct Hcases as [(-> & _)|[(-> & _)|[(-> & _)|(v & p & Hr & _ & _ & _ & Hi & _)]]];
      [now left|now left|now left|right; lia].
  - exfalso. destruct (playNextVideo_None_all_unplayable w s Hrun) as (_ & _ & Hlen & Hun).
    destruct (get_in_range (currentPlaylist s) _ (sanityCheck_range s Hlen)) as (v & Hv).
    apply get_In in Hv. specialize (Hall v Hv). specialize (Hun v Hv). congruence.
Qed.

Lemma adoptPlaylist_index_nonneg (w : Host) (config : Config) (s : State) :
  0 <= currentIndex (fst (fst (adoptPlaylist w config s))).
Proof.
  rewrite adoptPlaylist_index. destruct (stateFile s) as [saved|]; [|lia].
  destruct (JS.truthy (lastPlayedVideoId saved)); [|lia]. cbv zeta.
  set (pl := validPlaylist (cleanPlaylist w (playlist config))).
  pose proof (findIndex_range (fun v => JS.seq (item_id v) (lastPlayedVideoId saved)) pl) as Hr.
  destruct (Z.eqb_spec (JS.findIndex (fun v => JS.seq (item_id v) (lastPlayedVideoId saved)) pl) (-1));
    [lia|]. apply Z.mod_pos_bound. lia.
Qed.

Lemma hotReload_settled (w : Host) (config : Config) (s : State) :
  (forall v, In v (currentPlaylist s) -> playable w v = true) ->
  (forall v, In v (currentPlaylist (hotReload w config s)) -> playable w v = true) /\
  (isArray (currentPlaylist s) = true -> -1 <= currentIndex s ->
   isArray (currentPlaylist (hotReload w config s)) = true /\
   -1 <= currentIndex (hotReload w config s)).
Proof.
  intros Hall. unfold hotReload.
  destruct (isArray (currentPlaylist s)) eqn:Harr; cbn [negb];
    [|split; [exact Hall|discriminate]].
  assert (Hnew : forall v, In v (validPlaylist (cleanPlaylist w (playlist config))) ->
                           playable w v = true)
    by (intros v; apply validPlaylist_playable).
  destruct (item_truthy _); [|split; [exact Hnew|now split]].
  destruct (JS.get _ _) as [old|]; [|split; [exact Hnew|now split]].
  cbn [currentPlaylist currentIndex set_currentPlaylist orEmpty].
  pose proof (findIndex_range (sameVideo old)
                (validPlaylist (cleanPlaylist w (playlist config)))) as Hr.
  destruct (negb _); [cbn; split; [exact Hnew|intros _ _; split; [reflexivity|lia]]|].
  destruct (_ >=? _); cbn; (split; [exact Hnew|intros _ Hi; split; [reflexivity|lia]]).
Qed.

(** Every event is handled to the end from a state whose playlist has
    passed [cleanPlaylist], and leaves such a state; with arrays in the
    rows the playlist in memory stays an array and the index stays
    above [-2]. *)
Lemma handle_settled (w : Host) (e : Event) (s : State) :
  (forall v, In v (currentPlaylist s) -> playable w v = true) ->
  exists s' effs,
    handle w e s = Some (s', effs) /\
    (forall v, In v (currentPlaylist s') -> playable w v = true) /\
    (arrayRow e = true -> isArray (currentPlaylist s) = true -> -1 <= currentIndex s ->
     isArray (currentPlaylist s') = true /\ -1 <= currentIndex s').
Proof.
  intros Hall.
  assert (Hplay : forall s0, currentPlaylist s0 = currentPlaylist s ->
            (-1 <= currentIndex s -> -1 <= currentIndex s0) ->
            exists s' effs, playNextVideo w s0 = Some (s', effs) /\
              (forall v, In v (currentPlaylist s') -> playable w v = true) /\
              (isArray (currentPlaylist s) = true -> -1 <= currentIndex s ->
               isArray (currentPlaylist s') = true /\ -1 <= currentIndex s')).
  { intros s0 Hpl Hi0. destruct (playNextVideo_settled w s0) as (s' & effs & Hrun & Hpl' & Hidx).
    - now rewrite Hpl.
    - exists s', effs. split; [exact Hrun|]. split; [now rewrite Hpl', Hpl|].
      intros Harr Hi. split; [now rewrite Hpl', Hpl|]. specialize (Hi0 Hi). lia. }
  assert (Hstop : exists s' effs,
            Some (stopStream s) = Some (s', effs) /\
            (forall v, In v (currentPlaylist s') -> playable w v = true) /\
            (isArray (currentPlaylist s) = true -> -1 <= currentIndex s ->
             isArray (currentPlaylist s') = true /\ -1 <= currentIndex s')).
  { destruct (stopStream_idle s) as (_ & _ & _ & Hp & Hx & _).
    exists (fst (stopStream s)), (snd (stopStream s)).
    split; [now destruct (stopStream s)|]. now rewrite Hp, Hx. }
  destruct e as [fetched|direction|code| | |]; cbn [handle arrayRow].
  - destruct fetched as [config|];
      [|exists s, []; split; [reflexivity|split; [exact Hall|intros _ ? ?; now split]]].
    destruct (is_active config) eqn:Ha, (isStreaming s) eqn:Hs.
    + rewrite poll_streaming by assumption. unfold runtimeUpdate. rewrite Hs, Ha. cbn [andb].
      destruct (lastConfig s) as [last|];
        [|exists s, []; split; [reflexivity|split; [exact Hall|intros _ ? ?; now split]]].
      destruct (criticalChanged config last).
      * destruct Hstop as (s' & e' & H1 & H2 & H3). exists s', e'.
        split; [exact H1|split; [exact H2|intros _; exact H3]].
      * destruct (negb _);
          [|exists s, []; split; [reflexivity|split; [exact Hall|intros _ ? ?; now split]]].
        destruct (hotReload_settled w config s Hall) as (Hp & Hx).
        eexists _, _. split; [reflexivity|]. split; [exact Hp|]. intros _. exact Hx.
    + destruct (poll_start_returns w config s Ha Hs) as (s' & effs & Hrun & Hp & Hx).
      exists s', effs. split; [exact Hrun|]. split.
      * rewrite Hp. destruct (isArray (playlist config)); [|intros v []].
        intros v. apply validPlaylist_playable.
      * intros Harr _ _. rewrite Hp, Harr, Hx. split; [reflexivity|].
        pose proof (adoptPlaylist_index_nonneg w config s). lia.
    + unfold pollStreamConfig. rewrite Ha, Hs. cbn [negb andb].
      destruct Hstop as (s' & e' & H1 & H2 & H3). exists s', e'.
        split; [exact H1|split; [exact H2|intros _; exact H3]].
    + unfold pollStreamConfig, runtimeUpdate. rewrite Ha, Hs. cbn [negb andb].
      exists s, []. split; [reflexivity|split; [exact Hall|intros _ ? ?; now split]].
  - unfold controlSkip, skipTo.
    destruct (negb (isStreaming s)); [now eexists _, _|].
    destruct (negb (JS.truthy direction) || _); [now eexists _, _|].
    pose proof (length_nonneg (currentPlaylist s)).
    destruct (JS.seq direction (Some "next")).
    + cbn [currentPlaylist set_currentIndex].
      destruct (isArray (currentPlaylist s)) eqn:Harr; cbn [negb].
      * eexists _, _. split; [reflexivity|]. cbn.
        destruct (Z.geb_spec (currentIndex s + 1) (JS.length (currentPlaylist s))); cbn;
          (split; [assumption|]); intros _ _ Hi; (split; [assumption|lia]).
      * eexists _, _. split; [reflexivity|]. cbn. split; [assumption|]. discriminate.
    + cbn [currentPlaylist currentIndex set_currentIndex].
      destruct (Z.ltb_spec (currentIndex s - 1) 0).
      * destruct (isArray (currentPlaylist s)) eqn:Harr; cbn [negb].
        -- eexists _, _. split; [reflexivity|]. cbn. split; [assumption|].
           intros _ _ Hi. split; [assumption|lia].
        -- eexists _, _. split; [reflexivity|]. cbn. split; [assumption|]. discriminate.
      * eexists _, _. split; [reflexivity|]. cbn. split; [assumption|].
        intros _ Harr Hi. split; [assumption|lia].
  - unfold feederClose. destruct (skipToTarget s).
    { destruct (Hplay (set_skipToTarget false s)) as (s' & e' & H1 & H2 & H3);
        [reflexivity|trivial|]. exists s', e'.
      split; [exact H1|split; [exact H2|intros _; exact H3]]. }
    destruct code as [c|];
      [|exists s, []; split; [reflexivity|split; [exact Hall|intros _ ? ?; now split]]].
    destruct (c =? 0).
    { destruct (Hplay (set_currentIndex (currentIndex s + 1) s)) as (s' & e' & H1 & H2 & H3);
        [reflexivity|cbn; lia|]. exists s', e'.
      split; [exact H1|split; [exact H2|intros _; exact H3]]. }
    eexists _, _. split; [reflexivity|]. cbn. split; [assumption|].
    intros _ Harr Hi. split; [assumption|lia].
  - unfold feederError. eexists _, _. split; [reflexivity|]. cbn. split; [assumption|].
    intros _ Harr Hi. split; [assumption|lia].
  - unfold masterClose. eexists _, _. split; [reflexivity|]. cbn. split; [assumption|].
    intros _ Harr Hi. now split.
  - destruct (Hplay s) as (s' & e' & H1 & H2 & H3); [reflexivity|trivial|].
    exists s', e'. split; [exact H1|split; [exact H2|intros _; exact H3]].
Qed.

Lemma run_settled (w : Host) (es : list Event) (s : State) :
  (forall v, In v (currentPlaylist s) -> playable w v = true) ->
  exists s' effs,
    run w es s = Some (s', effs) /\
    (forall v, In v (currentPlaylist s') -> playable w v = true) /\
    (forallb arrayRow es = true -> isArray (currentPlaylist s) = true ->
     -1 <= currentIndex s ->
     isArray (currentPlaylist s') = true /\ -1 <= currentIndex s').
Proof.
  revert s. induction es as [|e es IH]; intros s Hall; cbn [run forallb].
  - exists s, []. now repeat split.
  - destruct (handle_settled w e s Hall) as (s1 & e1 & Hh & Hall1 & Hi1).
    destruct (IH s1 Hall1) as (s2 & e2 & Hr & Hall2 & Hi2).
    rewrite Hh, Hr. destruct (threw e1).
    + exists s1, e1. split; [reflexivity|]. split; [exact Hall1|].
      intros Hrows Harr Hi. apply andb_true_iff in Hrows. now apply Hi1.
    + eexists _, _. split; [reflexivity|]. split; [exact Hall2|].
      intros Hrows Harr Hi. apply andb_true_iff in Hrows. destruct Hrows as [He Hes].
      destruct (Hi1 He Harr Hi) as (Harr1 & Hidx1). now apply Hi2.
Qed.

(** X14. On an unchanged file system the engine never runs away.  From
    process start, every sequence of events is handled to the end: the
    recursion of [playNextVideo] through missing files always returns,
    because every entry of the playlist in memory has passed
    [cleanPlaylist]; and, the rows polled holding arrays, the playlist
    in memory is an array and [currentIndex] never goes below [-1]. *)
Theorem reachable_settled (w : Host) (saved : option SavedState) (es : list Event) :
  exists s effs,
    run w es (initialState saved) = Some (s, effs) /\
    (forall v, In v (currentPlaylist s) -> playable w v = true) /\
    (forallb arrayRow es = true ->
     isArray (currentPlaylist s) = true /\ -1 <= currentIndex s).
Proof.
  destruct (run_settled w es (initialState saved)) as (s & effs & Hrun & Hall & Hi);
    [intros v []|].
  exists s, effs. split; [exact Hrun|]. split; [exact Hall|].
  intros Hrows. apply Hi; [exact Hrows|reflexivity|cbn; lia].
Qed.

(** The condition on the rows is needed for the index: with [null]
    adopted, every [previous] request decrements the index before it
    throws, so two of them leave it on [-2]. *)
Lemma index_below_on_null_row :
  exists s effs,
    run (Scenario.host Scenario.allFiles)
        [Poll (Some (mkConfig true (Some "rtmp://a.rtmp.example/live2") (Some "key")
                              None None None None PNull));
         ControlSkip (Some "previous"); ControlSkip (Some "previous")]
        (initialState None) = Some (s, effs) /\
    currentIndex s = -2 /\
    effs = [SpawnMaster Scenario.master; Respond 500 ServerError; Respond 500 ServerError].
Proof. eexists _, _. split; [vm_compute; reflexivity|]. split; reflexivity. Qed.

(** ** Where a master comes from *)

Lemma playNextVideo_rec_no_master (w : Host) (fuel : nat) (s s' : State)
      (effs : list Effect) (args : MasterArgs) :
  playNextVideo_rec w fuel s = Some (s', effs) -> ~ In (SpawnMaster args) effs.
Proof.
  intros Hrun Hin.
  destruct (playNextVideo_rec_outcome w fuel s s' effs Hrun) as (_ & Hcases).
  destruct Hcases
    as [(_ & -> & _)|[(_ & -> & _)|[(_ & -> & _)|(v & p & _ & _ & _ & _ & _ & _ & _ & ->)]]].
  - destruct Hin.
  - destruct Hin as [Hin|[]]. discriminate.
  - destruct Hin as [Hin|[]]. discriminate.
  - destruct Hin as [Hin|[Hin|[]]]; discriminate.
Qed.

Lemma runtimeUpdate_no_master (w : Host) (config : Config) (s : State) (args : MasterArgs) :
  ~ In (SpawnMaster args) (snd (runtimeUpdate w config s)).
Proof.
  unfold runtimeUpdate. destruct (isStreaming s && is_active config); [|intros []].
  destruct (lastConfig s) as [last|]; [|intros []].
  destruct (criticalChanged config last).
  - intros Hin. apply stopStream_effects in Hin. destruct Hin; discriminate.
  - destruct (negb _); intros [].
Qed.

(** [x || d] on an optional number. *)
Lemma orElse_truthyZ (v : option Z) (d : Z) :
  orElse JS.truthyZ v d = match v with
                          | Some x => if x =? 0 then d else x
                          | None => d
                          end.
Proof. destruct v as [x|]; [|reflexivity]. cbn. now destruct (x =? 0). Qed.

Lemma masterArgsOf_sound (w : Host) (config : Config) :
  vBitrate (masterArgsOf w config)
  = match bitrate config with
    | Some b => if b =? 0 then 8000 else b
    | None => 8000
    end /\
  vBitrate (masterArgsOf w config) <> 0 /\
  forall p vol, backgroundAudio (masterArgsOf w config) = Some (p, vol) ->
    existsSync w p = true /\
    vol = match audio_volume config with
          | Some a => if a =? 0 then 35 else a
          | None => 35
          end /\
    vol <> 0 /\ audio_overlay_enabled config <> Some false.
Proof.
  unfold masterArgsOf. cbn [vBitrate backgroundAudio]. rewrite !orElse_truthyZ.
  split; [reflexivity|]. split.
  - destruct (bitrate config) as [b|]; [|lia].
    destruct (Z.eqb_spec b 0); lia.
  - intros p vol.
    destruct (JS.seqB (audio_overlay_enabled config) (Some false)) eqn:Hen;
      cbn [negb andb]; [discriminate|].
    assert (Hon : audio_overlay_enabled config <> Some false).
    { intros E. apply seqB_eq in E. congruence. }
    assert (Hvol : match audio_volume config with
                   | Some a => if a =? 0 then 35 else a
                   | None => 35
                   end <> 0).
    { destruct (audio_volume config) as [a|]; [|lia].
      destruct (Z.eqb_spec a 0); lia. }
    destruct (existsSync w (path_join w [dirname w; "public"; "audio"; _])) eqn:E1.
    + destruct (JS.truthy _); [|discriminate]. intros [= <- <-]. now repeat split.
    + destruct (existsSync w (path_join w [dirname w; "public"; _])) eqn:E2.
      * destruct (JS.truthy _); [|discriminate]. intros [= <- <-]. now repeat split.
      * cbn. discriminate.
Qed.

(** A poll that switches the stream on spawns a master only under the
    guard of [startMasterStream], and then leaves the engine streaming
    with the handle set, whatever the row's playlist. *)
Lemma poll_start_master (w : Host) (config : Config) (s s' : State)
      (effs : list Effect) (args : MasterArgs) :
  is_active config = true -> isStreaming s = false ->
  pollStreamConfig w (Some config) s = Some (s', effs) -> In (SpawnMaster args) effs ->
  args = masterArgsOf w config /\ masterFfmpeg s = None /\
  JS.truthy (rtmp_url config) = true /\ JS.truthy (stream_key config) = true /\
  masterFfmpeg s' = Some args /\ isStreaming s' = true.
Proof.
  intros Ha Hs. destruct (isArray (playlist config)) eqn:Harr.
  2:{ intros Hrun Hin. apply isArray_false in Harr.
      destruct (poll_start_null_cases w config s s' effs Ha Hs Harr Hrun)
        as (_ & _ & _ & _ & _ & [(-> & _)|(-> & Hst & Hmf & _ & _ & Hm & Hu & Hk)]);
        [destruct Hin|].
      destruct Hin as [Hin|[]]. injection Hin as <-. now repeat split. }
  destruct (masterFfmpeg s) as [m|] eqn:Hm.
  { rewrite poll_start by assumption. unfold startMasterStream.
    rewrite adoptPlaylist_state by assumption.
    cbn [masterFfmpeg set_currentIndex set_currentPlaylist].
    rewrite Hm. intros [= <- <-] []. }
  destruct (JS.truthy (rtmp_url config)) eqn:Hu;
    [|rewrite poll_start_blocked by (try assumption; now left); intros [= <- <-] []].
  destruct (JS.truthy (stream_key config)) eqn:Hk;
    [|rewrite poll_start_blocked by (try assumption; now right); intros [= <- <-] []].
  destruct (poll_start_spawns w config s Ha Hs Hm Harr Hu Hk)
    as (s2 & effs2 & Hrun & Hst & Hmf & _ & _ & _ & _ & Hcases).
  rewrite Hrun. intros [= <- <-] Hin.
  assert (Hargs : args = masterArgsOf w config).
  { destruct Hin as [Hin|Hin]; [now injection Hin|]. exfalso.
    destruct Hcases as [(_ & -> & _)|(_ & v & p & _ & _ & _ & _ & _ & _ & _ & ->)].
    - destruct Hin as [Hin|[]]. discriminate.
    - destruct Hin as [Hin|[Hin|[]]]; discriminate. }
  subst args. now repeat split.
Qed.

(** X15. Where a master comes from.  Whatever the event and the state,
    a master process is spawned only by a poll that fetched an active
    configuration while the engine was idle with no master handle, and
    only with a non-empty RTMP URL and stream key; its output URL is
    [url/key]; its video bitrate is the row's [bitrate], or 8000 when
    that is absent or zero, hence never 0; and it mixes a background
    track only from a file that exists, at the row's [audio_volume], or
    35 when that is absent or zero, hence never at volume 0, and never
    when [audio_overlay_enabled] is [false].  Afterwards the handle
    holds those arguments and the engine is streaming. *)
Theorem master_spawn_guard (w : Host) (e : Event) (s s' : State)
        (effs : list Effect) (args : MasterArgs) :
  handle w e s = Some (s', effs) -> In (SpawnMaster args) effs ->
  exists config url key,
    e = Poll (Some config) /\ is_active config = true /\
    isStreaming s = false /\ masterFfmpeg s = None /\
    rtmp_url config = Some url /\ url <> "" /\
    stream_key config = Some key /\ key <> "" /\
    outputUrl args = (url ++ "/" ++ key)%string /\
    vBitrate args = match bitrate config with
                    | Some b => if b =? 0 then 8000 else b
                    | None => 8000
                    end /\
    vBitrate args <> 0 /\
    (forall p vol, backgroundAudio args = Some (p, vol) ->
       existsSync w p = true /\
       vol = match audio_volume config with
             | Some a => if a =? 0 then 35 else a
             | None => 35
             end /\
       vol <> 0 /\ audio_overlay_enabled config <> Some false) /\
    masterFfmpeg s' = Some args /\ isStreaming s' = true.
Proof.
  destruct e as [fetched|direction|code| | |]; cbn [handle].
  - destruct fetched as [config|]; [|intros [= <- <-] []].
    destruct (is_active config) eqn:Ha, (isStreaming s) eqn:Hs.
    + rewrite poll_streaming by assumption. intros [= E] Hin. exfalso.
      apply (runtimeUpdate_no_master w config s args). now rewrite E.
    + intros Hrun Hin.
      destruct (poll_start_master w config s s' effs args Ha Hs Hrun Hin)
        as (-> & Hm & Hu & Hk & Hmf & Hst).
      destruct (truthy_Some _ Hu) as (url & Eu & Hune).
      destruct (truthy_Some _ Hk) as (key & Ek & Hkne).
      destruct (masterArgsOf_sound w config) as (Hb & Hb0 & Haudio).
      exists config, url, key. repeat (split; [assumption || reflexivity|]).
      split; [|split; [exact Hb|split; [exact Hb0|split; [exact Haudio|
                 split; [exact Hmf|exact Hst]]]]].
      unfold masterArgsOf. cbn [outputUrl]. unfold orElse.
      rewrite Hu, Hk, Eu, Ek. reflexivity.
    + unfold pollStreamConfig. rewrite Ha, Hs. cbn [negb andb]. intros [= E] Hin. exfalso.
      assert (Hin' : In (SpawnMaster args) (snd (stopStream s))) by now rewrite E.
      apply stopStream_effects in Hin'. destruct Hin'; discriminate.
    + unfold pollStreamConfig. rewrite Ha, Hs. cbn [negb andb]. intros [= E] Hin. exfalso.
      apply (runtimeUpdate_no_master w config s args). now rewrite E.
  - intros [= E] Hin. exfalso.
    assert (Hin' : In (SpawnMaster args) (snd (controlSkip direction s))) by now rewrite E.
    apply controlSkip_effects in Hin'. destruct Hin' as [H|(st & b & H)]; discriminate.
  - unfold feederClose. destruct (skipToTarget s).
    { intros Hrun Hin. exfalso. exact (playNextVideo_rec_no_master w _ _ _ _ _ Hrun Hin). }
    destruct code as [c|]; [|intros [= <- <-] []].
    destruct (c =? 0).
    { intros Hrun Hin. exfalso. exact (playNextVideo_rec_no_master w _ _ _ _ _ Hrun Hin). }
    intros [= <- <-] [H|[]]. discriminate.
  - unfold feederError. intros [= <- <-] Hin. exfalso. apply in_app_or in Hin.
    destruct Hin as [Hin|[Hin|[]]]; [|discriminate].
    apply killFeeder_effects in Hin. discriminate.
  - unfold masterClose. intros [= <- <-] Hin. exfalso.
    apply killFeeder_effects in Hin. discriminate.
  - intros Hrun Hin. exfalso. exact (playNextVideo_rec_no_master w _ _ _ _ _ Hrun Hin).
Qed.

(** Switching on with the default track [public/audio/rain.mp3] on disk,
    an empty playlist and no [bitrate] in the row: the master encodes
    at 8000 and mixes the track at volume 35. *)
Lemma master_spawn_guard_witness :
  let w := Scenario.host ["/srv/public/audio/rain.mp3"] in
  exists s' effs args,
    handle w (Poll (Some (Scenario.config []))) (initialState None) = Some (s', effs) /\
    In (SpawnMaster args) effs /\
    backgroundAudio args = Some ("/srv/public/audio/rain.mp3", 35) /\
    outputUrl args = "rtmp://a.rtmp.example/live2/key" /\
    vBitrate args = 8000 /\ masterFfmpeg s' = Some args.
Proof.
  intros w.
  destruct (handle w (Poll (Some (Scenario.config []))) (initialState None))
    as [[s' effs]|] eqn:Hrun; [|discriminate Hrun].
  assert (Hin : In (SpawnMaster (masterArgsOf w (Scenario.config []))) effs).
  { vm_compute in Hrun. injection Hrun as <- <-. now left. }
  destruct (master_spawn_guard w _ _ s' effs _ Hrun Hin)
    as (config & url & key & He & _ & _ & _ & _ & _ & _ & _ & _ & Hb & _ & _ & Hm & _).
  injection He as <-.
  exists s', effs, (masterArgsOf w (Scenario.config [])).
  split; [reflexivity|]. split; [exact Hin|]. split; [reflexivity|].
  split; [reflexivity|]. split; [exact Hb|exact Hm].
Defined.

(** ** The status endpoint and the engine *)

Lemma playable_truthy (w : Host) (v : Item) :
  playable w v = true -> item_truthy (Some v) = true.
Proof.
  destruct v as [s|v]; [|reflexivity]. unfold playable. cbn.
  now destruct (negb (String.eqb s "")).
Qed.

Lemma nowPlaying_streaming (s : State) :
  isStreaming s = true -> JS.length (currentPlaylist s) <> 0 ->
  nowPlaying s
  = Some (mkNowPlaying (nowEntry (JS.get (currentPlaylist s) (currentIndex s)))
            (nowEntry (JS.get (currentPlaylist s)
                         (Z.rem (currentIndex s + 1) (JS.length (currentPlaylist s)))))
            (currentIndex s) (JS.length (currentPlaylist s)) true).
Proof.
  intros Hs Hlen. unfold nowPlaying. rewrite Hs, (isArray_length _ Hlen). cbn [negb].
  now destruct (Z.eqb_spec (JS.length (currentPlaylist s)) 0).
Qed.

(** X16. "Up next" is what plays next.  While an entry is on air (index
    in range, every file of the playlist on disk, no manual skip
    pending), [GET /now-playing] answers with a body whose [next] is
    built from the very entry that the feeder's normal exit puts on
    air: after that exit the endpoint reports it as [current], the
    feeder reads its file, the reported index has advanced by one
    modulo the reported total, and the total is unchanged. *)
Theorem up_next_is_played (w : Host) (s : State) :
  isStreaming s = true -> masterStdin s = true -> skipToTarget s = false ->
  0 <= currentIndex s < JS.length (currentPlaylist s) ->
  (forall v, In v (currentPlaylist s) -> playable w v = true) ->
  exists s' effs v filePath r r',
    feederClose w (Some 0) s = Some (s', effs) /\
    getVideoPath w v = Some filePath /\ In (SpawnFeeder filePath) effs /\
    nowPlaying s = Some r /\ nowPlaying s' = Some r' /\
    np_next r = Some (mkNowEntry (item_id v) (item_title v) (item_filename v)) /\
    np_current r' = np_next r /\
    np_index r' = (np_index r + 1) mod np_total r /\
    np_total r' = np_total r /\
    np_isStreaming r' = true.
Proof.
  intros Hs Hm Hk Hr Hall. unfold feederClose. rewrite Hk. cbn [Z.eqb].
  destruct (playNextVideo_allPlayable w (set_currentIndex (currentIndex s + 1) s))
    as (s' & effs & Hrun & Hsame & Hair); try assumption; [cbn; lia|].
  rewrite (advance_index s Hr) in Hair.
  destruct Hsame as (_ & Hs' & _ & Hpl & _).
  cbn [isStreaming currentPlaylist set_currentIndex] in Hs', Hpl.
  destruct Hair as (v & p & _ & Hv & Hp & Hplay & Hidx & _ & _ & ->).
  eexists s', _, v, p, _, _. split; [exact Hrun|]. split; [exact Hp|].
  split; [right; now left|].
  split; [apply nowPlaying_streaming; [assumption|lia]|].
  split; [apply nowPlaying_streaming; [congruence|rewrite Hpl; lia]|].
  cbn [np_next np_current np_index np_total np_isStreaming].
  rewrite Z.rem_mod_nonneg by lia. rewrite Hpl in Hv |- *. rewrite Hidx, Hv.
  unfold nowEntry. rewrite (playable_truthy w v Hplay). now repeat split.
Qed.

(** [B] is on air in [A; B; C]: "up next" is [C], and [C] plays next. *)
Lemma up_next_is_played_witness :
  let w := Scenario.host Scenario.allFiles in
  let s := Scenario.streaming [Scenario.A; Scenario.B; Scenario.C] 1 Scenario.fileB in
  (exists r, nowPlaying s = Some r /\
             np_next r = Some (mkNowEntry (Some "c") (Some "c") (Some "c.mp4"))) /\
  exists s' effs v filePath r r',
    feederClose w (Some 0) s = Some (s', effs) /\
    getVideoPath w v = Some filePath /\ In (SpawnFeeder filePath) effs /\
    nowPlaying s = Some r /\ nowPlaying s' = Some r' /\
    np_next r = Some (mkNowEntry (item_id v) (item_title v) (item_filename v)) /\
    np_current r' = np_next r /\
    np_index r' = (np_index r + 1) mod np_total r /\
    np_total r' = np_total r /\
    np_isStreaming r' = true.
Proof.
  intros w s. split; [eexists; split; reflexivity|].
  apply (up_next_is_played w s); try reflexivity.
  - cbn. unfold JS.length. cbn. lia.
  - intros v [<-|[<-|[<-|[]]]]; reflexivity.
Defined.

(** ** After [null] was adopted *)



